(** * Node Event Throttler: strategies, storage adapters and tracker engine

    A shallow embedding of the throttling engine (index.js, the three
    strategies, the in-memory adapter and the Redis track script) together
    with the properties of its specification.

    Modelling conventions.
    - A JavaScript number that takes part in the throttling arithmetic is an
      exact rational ([num]); every operation returns a reduced fraction, so
      results of concrete runs can be compared with [=].  Rounding of IEEE
      doubles, NaN and the infinities are outside this type; the constructor,
      whose validation is about exactly those values, works on [JsNumber].
    - [Date.now()] is an explicit argument of every operation that reads the
      clock.  The in-memory adapter and the strategy it calls each read the
      clock once, so [InMemoryAdapter.track] takes two readings.
    - A [Map] is a [gmap], a [Set] a [gset]; iteration order of the deferred
      keys is therefore the order of [elements], not insertion order.
    - [_deepClone] is the identity: values are immutable here, which is what
      the clone boundary provides in the source.
    - An operation of the in-memory adapter is one atomic step, as it is
      when every call is awaited before the next one starts; the per-key
      mutex is not modelled.  [InFlight] splits [track] at its [await] for
      calls that are started together.
    - The token bucket is repeated on IEEE doubles in [TokenBucketDouble].
    - Listeners registered on the tracker return normally. *)

From Stdlib Require Import QArith Qround Qminmax Qpower Lqa ZArith Lia String List Bool.
From Stdlib Require Import PrimFloat.
From stdpp Require Import gmap strings fin_maps.
Import ListNotations.

Local Open Scope Q_scope.
Local Open Scope string_scope.

(** ** Numbers *)

Definition num := Q.

Module Num.
Definition add (a b : num) : num := Qred (a + b).
Definition sub (a b : num) : num := Qred (a - b).
Definition mul (a b : num) : num := Qred (a * b).
(** [a / b].  A zero divisor gives 0 here and an infinity or NaN in
    JavaScript; the source divides by zero only when a strategy is
    configured with [refillRate = 0] or [windowSize = 0], and the properties
    below that read such a quotient exclude those configurations. *)
Definition div (a b : num) : num := Qred (a / b).

Definition le (a b : num) : bool := Qle_bool a b.
Definition ge (a b : num) : bool := Qle_bool b a.
Definition lt (a b : num) : bool := negb (Qle_bool b a).
Definition gt (a b : num) : bool := negb (Qle_bool a b).

(** [Math.min], [Math.max], [Math.floor], [Math.pow(2, k)]. *)
Definition min (a b : num) : num := if Qle_bool a b then a else b.
Definition max (a b : num) : num := if Qle_bool a b then b else a.
Definition floor (a : num) : num := inject_Z (Qfloor a).
Definition pow2 (k : nat) : num := inject_Z (2 ^ Z.of_nat k).

(** Truncation toward zero, and the remainder [a % b] built on it. *)
Definition trunc (a : num) : num :=
  if Qle_bool 0 a then inject_Z (Qfloor a) else inject_Z (Qceiling a).
Definition rem (a b : num) : num := sub a (mul b (trunc (a / b))).

Definition of_nat (n : nat) : num := inject_Z (Z.of_nat n).

(** [a || 0] on a number. *)
Definition orZero (a : num) : num := if Qeq_bool a 0 then 0 else a.
End Num.

(** ** JavaScript values as far as the engine inspects them *)

Inductive JsNumber : Type :=
| JsFinite (q : Q)
| JsPosInf
| JsNegInf
| JsNaN.

Inductive JsValue : Type :=
| JsUndefined
| JsNull
| JsBoolean (b : bool)
| JsNum (n : JsNumber)
| JsString (s : string)
| JsFunction
| JsObject (props : JsProps)
with JsProps : Type :=
| JsNoProps
| JsProp (name : string) (value : JsValue) (rest : JsProps).

Definition typeof (v : JsValue) : string :=
  match v with
  | JsUndefined => "undefined"
  | JsNull => "object"
  | JsBoolean _ => "boolean"
  | JsNum _ => "number"
  | JsString _ => "string"
  | JsFunction => "function"
  | JsObject _ => "object"
  end.

(** The string a value is, once it is known to be one. *)
Definition asString (v : JsValue) : string :=
  match v with JsString s => s | _ => "" end.

(** [!v] is [negb (truthy v)]. *)
Definition truthy (v : JsValue) : bool :=
  match v with
  | JsUndefined | JsNull => false
  | JsBoolean b => b
  | JsNum (JsFinite q) => negb (Qeq_bool q 0)
  | JsNum JsNaN => false
  | JsNum _ => true
  | JsString s => negb (String.eqb s "")
  | JsFunction | JsObject _ => true
  end.

Fixpoint propNames (props : JsProps) : list string :=
  match props with
  | JsNoProps => []
  | JsProp name _ rest => name :: propNames rest
  end.

(** [Object.keys(v)] for a value that is an object. *)
Definition objectKeys (v : JsValue) : list string :=
  match v with
  | JsObject props => propNames props
  | _ => []
  end.

(** What a rejected call or a failed constructor throws. *)
Inductive Thrown : Type :=
| TypeError (message : string)
| RangeError (message : string)
| Error (message : string).

Definition isTypeError (t : Thrown) : bool :=
  match t with TypeError _ => true | _ => false end.

Definition isRangeError (t : Thrown) : bool :=
  match t with RangeError _ => true | _ => false end.

(** ** Event records *)

Inductive Outcome : Type := Immediate | Deferred | Ignored.

Definition outcomeName (o : Outcome) : string :=
  match o with
  | Immediate => "immediate"
  | Deferred => "deferred"
  | Ignored => "ignored"
  end.

(** The [eventData] object built by [trackEvent]. *)
Record EventData : Type := {
  ev_category : string;
  ev_id : string;
  ev_details : JsValue;
  ev_detailsHash : string
}.

(** [{ ...eventData, compositeKey: key }], as handed to a strategy. *)
Record StrategyEvent : Type := {
  se_compositeKey : string;
  se_data : EventData
}.

(** The tracker's frozen [config]. *)
Record TrackerConfig : Type := {
  tc_limit : num;
  tc_deferInterval : num;
  tc_expireTime : num;
  tc_maxKeys : num
}.

(** [EventRecord]; [C] is the shape of the [config] snapshot and [D] that of
    [strategyData], both fixed by the strategy that writes the record. *)
Record EventRecord (C D : Type) : Type := {
  key : string;
  category : string;
  id : string;
  details : JsValue;
  detailsHash : string;
  count : num;
  lastEventTime : num;
  expiresAt : num;
  deferred : bool;
  scheduledSendAt : option num;
  config : C;
  strategyData : D
}.

Arguments key {C D} _.
Arguments category {C D} _.
Arguments id {C D} _.
Arguments details {C D} _.
Arguments detailsHash {C D} _.
Arguments count {C D} _.
Arguments lastEventTime {C D} _.
Arguments expiresAt {C D} _.
Arguments deferred {C D} _.
Arguments scheduledSendAt {C D} _.
Arguments config {C D} _.
Arguments strategyData {C D} _.

Section RecordUpdates.
Context {C D : Type}.
Implicit Type r : EventRecord C D.

Definition with_count (v : num) r : EventRecord C D :=
  {| key := key r; category := category r; id := id r; details := details r;
     detailsHash := detailsHash r; count := v; lastEventTime := lastEventTime r;
     expiresAt := expiresAt r; deferred := deferred r;
     scheduledSendAt := scheduledSendAt r; config := config r;
     strategyData := strategyData r |}.

Definition with_lastEventTime (v : num) r : EventRecord C D :=
  {| key := key r; category := category r; id := id r; details := details r;
     detailsHash := detailsHash r; count := count r; lastEventTime := v;
     expiresAt := expiresAt r; deferred := deferred r;
     scheduledSendAt := scheduledSendAt r; config := config r;
     strategyData := strategyData r |}.

Definition with_expiresAt (v : num) r : EventRecord C D :=
  {| key := key r; category := category r; id := id r; details := details r;
     detailsHash := detailsHash r; count := count r;
     lastEventTime := lastEventTime r; expiresAt := v; deferred := deferred r;
     scheduledSendAt := scheduledSendAt r; config := config r;
     strategyData := strategyData r |}.

Definition with_deferred (v : bool) r : EventRecord C D :=
  {| key := key r; category := category r; id := id r; details := details r;
     detailsHash := detailsHash r; count := count r;
     lastEventTime := lastEventTime r; expiresAt := expiresAt r; deferred := v;
     scheduledSendAt := scheduledSendAt r; config := config r;
     strategyData := strategyData r |}.

Definition with_scheduledSendAt (v : option num) r : EventRecord C D :=
  {| key := key r; category := category r; id := id r; details := details r;
     detailsHash := detailsHash r; count := count r;
     lastEventTime := lastEventTime r; expiresAt := expiresAt r;
     deferred := deferred r; scheduledSendAt := v; config := config r;
     strategyData := strategyData r |}.

Definition with_config (v : C) r : EventRecord C D :=
  {| key := key r; category := category r; id := id r; details := details r;
     detailsHash := detailsHash r; count := count r;
     lastEventTime := lastEventTime r; expiresAt := expiresAt r;
     deferred := deferred r; scheduledSendAt := scheduledSendAt r; config := v;
     strategyData := strategyData r |}.

Definition with_strategyData (v : D) r : EventRecord C D :=
  {| key := key r; category := category r; id := id r; details := details r;
     detailsHash := detailsHash r; count := count r;
     lastEventTime := lastEventTime r; expiresAt := expiresAt r;
     deferred := deferred r; scheduledSendAt := scheduledSendAt r;
     config := config r; strategyData := v |}.
End RecordUpdates.

(** ** Strategies *)

(** The interface of [BaseStrategy]: a type tag and [track(record, eventData)].
    [track] reads [this.tracker.config] and the clock, which are its first two
    arguments here. *)
Class BaseStrategy (C D : Type) : Type := {
  strategyType : string;
  track : TrackerConfig -> num -> option (EventRecord C D) -> StrategyEvent ->
          Outcome * EventRecord C D
}.

(** [BaseStrategy.INITIAL_EVENT_COUNT]. *)
Definition INITIAL_EVENT_COUNT : num := 1.

(** [BaseStrategy._createBaseRecord], completed with the two fields each
    strategy spreads on top of it. *)
Definition _createBaseRecord {C D : Type} (eventData : StrategyEvent)
    (now expireTime : num) (config : C) (strategyData : D) : EventRecord C D :=
  {| key := se_compositeKey eventData;
     category := ev_category (se_data eventData);
     id := ev_id (se_data eventData);
     details := ev_details (se_data eventData);
     detailsHash := ev_detailsHash (se_data eventData);
     count := INITIAL_EVENT_COUNT;
     lastEventTime := now;
     expiresAt := Num.add now expireTime;
     deferred := false;
     scheduledSendAt := None;
     config := config;
     strategyData := strategyData |}.

Module SimpleCounterStrategy.
Record Config : Type := { limit : num; deferInterval : num }.

(** The tail of [track]: the limit check against the record's own config. *)
Definition checkLimit (now : num) (updatedRecord : EventRecord Config unit)
    : Outcome * EventRecord Config unit :=
  if Num.gt (count updatedRecord) (limit (config updatedRecord)) then
    (Deferred,
     with_scheduledSendAt
       (Some (Num.add now (deferInterval (config updatedRecord))))
       (with_deferred true updatedRecord))
  else (Immediate, updatedRecord).

Definition track (tracker : TrackerConfig) (now : num)
    (record : option (EventRecord Config unit)) (eventData : StrategyEvent)
    : Outcome * EventRecord Config unit :=
  match record with
  | None =>
      let config := {| limit := tc_limit tracker;
                       deferInterval := tc_deferInterval tracker |} in
      checkLimit now
        (_createBaseRecord eventData now (Num.orZero (tc_expireTime tracker))
           config tt)
  | Some updatedRecord =>
      if deferred updatedRecord then
        (Ignored,
         with_expiresAt (Num.add now (Num.orZero (tc_expireTime tracker)))
           updatedRecord)
      else
        checkLimit now
          (with_expiresAt (Num.add now (Num.orZero (tc_expireTime tracker)))
             (with_lastEventTime now
                (with_count (Num.add (count updatedRecord) 1) updatedRecord)))
  end.

#[export] Instance strategy : BaseStrategy Config unit :=
  Build_BaseStrategy Config unit "simple" track.
End SimpleCounterStrategy.

Module TokenBucketStrategy.
Definition MS_PER_SECOND : num := 1000.
Definition MIN_RETRY_DELAY_MS : num := 1.

Record Config : Type := {
  bucketSize : num;
  refillRate : num;
  deferInterval : num
}.

Record Data : Type := { tokens : num; lastRefill : num }.

(** The refill step: [Math.min(bucketSize, tokens + elapsed / 1000 * rate)]. *)
Definition refill (config : Config) (data : Data) (now : num) : num :=
  let elapsedMs := Num.sub now (lastRefill data) in
  let tokensToAdd := Num.mul (Num.div elapsedMs MS_PER_SECOND) (refillRate config) in
  Num.min (bucketSize config) (Num.add (tokens data) tokensToAdd).

Definition track (this_bucketSize this_refillRate : num)
    (tracker : TrackerConfig) (now : num)
    (record : option (EventRecord Config Data)) (eventData : StrategyEvent)
    : Outcome * EventRecord Config Data :=
  match record with
  | None =>
      let config := {| bucketSize := this_bucketSize;
                       refillRate := this_refillRate;
                       deferInterval := tc_deferInterval tracker |} in
      (Immediate,
       _createBaseRecord eventData now (tc_expireTime tracker) config
         {| tokens := Num.sub (bucketSize config) 1; lastRefill := now |})
  | Some updatedRecord =>
      let config := config updatedRecord in
      let currentTokens := refill config (strategyData updatedRecord) now in
      if Num.ge currentTokens 1 then
        (Immediate,
         with_scheduledSendAt None
           (with_deferred false
              (with_expiresAt (Num.add now (tc_expireTime tracker))
                 (with_lastEventTime now
                    (with_count (Num.add (count updatedRecord) 1)
                       (with_strategyData
                          {| tokens := Num.sub currentTokens 1;
                             lastRefill := now |}
                          updatedRecord))))))
      else
        let timeToNextTokenMs :=
          Num.mul (Num.sub 1 currentTokens)
                  (Num.div MS_PER_SECOND (refillRate config)) in
        (Deferred,
         with_scheduledSendAt
           (Some (Num.add now (Num.max timeToNextTokenMs MIN_RETRY_DELAY_MS)))
           (with_expiresAt (Num.add now (tc_expireTime tracker))
              (with_lastEventTime now
                 (with_deferred true
                    (with_strategyData
                       {| tokens := currentTokens; lastRefill := now |}
                       updatedRecord)))))
  end.

(** [new TokenBucketStrategy({ bucketSize, refillRate })]. *)
Definition strategy (this_bucketSize this_refillRate : num)
    : BaseStrategy Config Data :=
  Build_BaseStrategy Config Data "token-bucket"
    (track this_bucketSize this_refillRate).
End TokenBucketStrategy.

(** *** The token bucket in double precision

    [TokenBucketStrategy] above computes with exact fractions.  The source
    computes with IEEE 754 doubles, and in the refill a rounded sum can fall
    just short of the exact one.  This module repeats [track] on binary64
    numbers ([PrimFloat]: round to nearest, ties to even, as JavaScript
    does), for the runs in which that rounding decides the outcome. *)
Module TokenBucketDouble.
Definition MS_PER_SECOND : float := 1000%float.
Definition MIN_RETRY_DELAY_MS : float := 1%float.
Definition INITIAL_EVENT_COUNT : float := 1%float.

(** [Math.min] and [Math.max]: [NaN] if an argument is [NaN], and [-0]
    counts as smaller than [+0]. *)
Definition min (a b : float) : float :=
  if PrimFloat.is_nan a || PrimFloat.is_nan b then PrimFloat.nan
  else if PrimFloat.ltb a b then a
  else if PrimFloat.ltb b a then b
  else if PrimFloat.get_sign a then a else b.

Definition max (a b : float) : float :=
  if PrimFloat.is_nan a || PrimFloat.is_nan b then PrimFloat.nan
  else if PrimFloat.ltb a b then b
  else if PrimFloat.ltb b a then a
  else if PrimFloat.get_sign a then b else a.

Record Config : Type := {
  bucketSize : float;
  refillRate : float;
  deferInterval : float
}.

Record Data : Type := { tokens : float; lastRefill : float }.

(** [EventRecord] with its numbers as doubles. *)
Record DoubleRecord : Type := {
  key : string;
  category : string;
  id : string;
  details : JsValue;
  detailsHash : string;
  count : float;
  lastEventTime : float;
  expiresAt : float;
  deferred : bool;
  scheduledSendAt : option float;
  config : Config;
  strategyData : Data
}.

(** The refill step: [Math.min(bucketSize, tokens + elapsed / 1000 * rate)]. *)
Definition refill (config : Config) (data : Data) (now : float) : float :=
  let elapsedMs := PrimFloat.sub now (lastRefill data) in
  let tokensToAdd :=
    PrimFloat.mul (PrimFloat.div elapsedMs MS_PER_SECOND) (refillRate config) in
  min (bucketSize config) (PrimFloat.add (tokens data) tokensToAdd).

(** [track]; [tracker_deferInterval] and [tracker_expireTime] are
    [this.tracker.config.deferInterval] and [.expireTime]. *)
Definition track (this_bucketSize this_refillRate : float)
    (tracker_deferInterval tracker_expireTime : float) (now : float)
    (record : option DoubleRecord) (eventData : StrategyEvent)
    : Outcome * DoubleRecord :=
  match record with
  | None =>
      let config := {| bucketSize := this_bucketSize;
                       refillRate := this_refillRate;
                       deferInterval := tracker_deferInterval |} in
      (Immediate,
       {| key := se_compositeKey eventData;
          category := ev_category (se_data eventData);
          id := ev_id (se_data eventData);
          details := ev_details (se_data eventData);
          detailsHash := ev_detailsHash (se_data eventData);
          count := INITIAL_EVENT_COUNT;
          lastEventTime := now;
          expiresAt := PrimFloat.add now tracker_expireTime;
          deferred := false;
          scheduledSendAt := None;
          config := config;
          strategyData :=
            {| tokens := PrimFloat.sub (bucketSize config) 1%float;
               lastRefill := now |} |})
  | Some updatedRecord =>
      let config := config updatedRecord in
      let currentTokens := refill config (strategyData updatedRecord) now in
      if PrimFloat.leb 1%float currentTokens then
        (Immediate,
         {| key := key updatedRecord;
            category := category updatedRecord;
            id := id updatedRecord;
            details := details updatedRecord;
            detailsHash := detailsHash updatedRecord;
            count := PrimFloat.add (count updatedRecord) 1%float;
            lastEventTime := now;
            expiresAt := PrimFloat.add now tracker_expireTime;
            deferred := false;
            scheduledSendAt := None;
            config := config;
            strategyData :=
              {| tokens := PrimFloat.sub currentTokens 1%float;
                 lastRefill := now |} |})
      else
        let timeToNextTokenMs :=
          PrimFloat.mul (PrimFloat.sub 1%float currentTokens)
            (PrimFloat.div MS_PER_SECOND (refillRate config)) in
        (Deferred,
         {| key := key updatedRecord;
            category := category updatedRecord;
            id := id updatedRecord;
            details := details updatedRecord;
            detailsHash := detailsHash updatedRecord;
            count := count updatedRecord;
            lastEventTime := now;
            expiresAt := PrimFloat.add now tracker_expireTime;
            deferred := true;
            scheduledSendAt :=
              Some (PrimFloat.add now (max timeToNextTokenMs MIN_RETRY_DELAY_MS));
            config := config;
            strategyData :=
              {| tokens := currentTokens; lastRefill := now |} |})
  end.
End TokenBucketDouble.

Module SlidingWindowStrategy.
Definition SLIDE_THRESHOLD_MULTIPLIER : num := 2.

Record Config : Type := {
  limit : num;
  windowSize : num;
  deferInterval : num
}.

Record Data : Type := {
  currentCount : num;
  previousCount : num;
  windowStart : num
}.

(** The window bookkeeping before the decision: slide when a whole window
    has elapsed and re-align [windowStart]. *)
Definition slide (windowSize : num) (data : Data) (now : num) : Data :=
  let elapsed := Num.sub now (windowStart data) in
  if Num.ge elapsed windowSize then
    {| currentCount := 0;
       previousCount :=
         if Num.ge elapsed (Num.mul windowSize SLIDE_THRESHOLD_MULTIPLIER)
         then 0 else currentCount data;
       windowStart := Num.sub now (Num.rem elapsed windowSize) |}
  else data.

Definition estimate (windowSize : num) (data : Data) (now : num) : num :=
  let weight :=
    Num.div (Num.sub windowSize (Num.sub now (windowStart data))) windowSize in
  Num.add (currentCount data) (Num.mul (previousCount data) weight).

Definition track (this_limit this_windowSize : num)
    (tracker : TrackerConfig) (now : num)
    (record : option (EventRecord Config Data)) (eventData : StrategyEvent)
    : Outcome * EventRecord Config Data :=
  match record with
  | None =>
      let config := {| limit := this_limit;
                       windowSize := this_windowSize;
                       deferInterval := tc_deferInterval tracker |} in
      (Immediate,
       _createBaseRecord eventData now (tc_expireTime tracker) config
         {| currentCount := 1; previousCount := 0; windowStart := now |})
  | Some updatedRecord =>
      let config := config updatedRecord in
      let data := slide (windowSize config) (strategyData updatedRecord) now in
      let estimatedCount := estimate (windowSize config) data now in
      if Num.lt estimatedCount (limit config) then
        (Immediate,
         with_strategyData
           {| currentCount := Num.add (currentCount data) 1;
              previousCount := previousCount data;
              windowStart := windowStart data |}
           (with_scheduledSendAt None
              (with_deferred false
                 (with_expiresAt (Num.add now (tc_expireTime tracker))
                    (with_lastEventTime now
                       (with_count (Num.floor (Num.add estimatedCount 1))
                          updatedRecord))))))
      else
        (Deferred,
         with_strategyData data
           (with_scheduledSendAt (Some (Num.add now (deferInterval config)))
              (with_expiresAt (Num.add now (tc_expireTime tracker))
                 (with_lastEventTime now
                    (with_deferred true updatedRecord)))))
  end.

(** [new SlidingWindowStrategy({ limit, windowSize })]. *)
Definition strategy (this_limit this_windowSize : num)
    : BaseStrategy Config Data :=
  Build_BaseStrategy Config Data "sliding-window"
    (track this_limit this_windowSize).
End SlidingWindowStrategy.

(** ** Storage adapters *)

(** What [adapter.track] resolves to: [{ outcome, record, reason? }]. *)
Record TrackResult (C D : Type) : Type := {
  outcome : Outcome;
  record : option (EventRecord C D);
  reason : option string
}.

Arguments outcome {C D} _.
Arguments record {C D} _.
Arguments reason {C D} _.

(** [record.deferred && record.scheduledSendAt && timestamp >= record.scheduledSendAt];
    a schedule of [0] is falsy, like [null]. *)
Definition isDue {C D : Type} (timestamp : num) (r : EventRecord C D) : bool :=
  deferred r &&
  match scheduledSendAt r with
  | Some s => negb (Qeq_bool s 0) && Num.ge timestamp s
  | None => false
  end.

Module InMemoryAdapter.
Section Adapter.
Context {C D : Type}.

(** [this.events] and the secondary index [this.deferredKeys]. *)
Record State : Type := {
  events : gmap string (EventRecord C D);
  deferredKeys : gset string
}.

(** The adapter right after construction. *)
Definition empty : State := {| events := ∅; deferredKeys := ∅ |}.

Definition has (st : State) (k : string) : bool :=
  match events st !! k with Some _ => true | None => false end.

Definition get (st : State) (k : string) : option (EventRecord C D) :=
  events st !! k.

(** The index maintenance shared by [set], [update] and [track]. *)
Definition indexDeferred (k : string) (isDeferred : bool) (keys : gset string)
    : gset string :=
  if isDeferred then {[k]} ∪ keys else keys ∖ {[k]}.

Definition set (st : State) (k : string) (r : EventRecord C D) : State :=
  {| events := <[k := r]> (events st);
     deferredKeys := indexDeferred k (deferred r) (deferredKeys st) |}.

Definition delete (st : State) (k : string) : State :=
  {| events := base.delete k (events st);
     deferredKeys := deferredKeys st ∖ {[k]} |}.

Definition update (st : State) (k : string)
    (updateFn : EventRecord C D -> EventRecord C D) : bool * State :=
  match events st !! k with
  | None => (false, st)
  | Some r => (true, set st k (updateFn r))
  end.

Definition size (st : State) : nat := base.size (events st).

(** [purgeExpired]: a record stays when [now > record.expiresAt] is false. *)
Definition survives (now : num) (r : EventRecord C D) : bool :=
  negb (Num.gt now (expiresAt r)).

Definition keySurvives (st : State) (now : num) (k : string) : bool :=
  match events st !! k with
  | Some r => survives now r
  | None => true
  end.

Definition purgeExpired (st : State) (now : num) : State :=
  {| events := filter (fun kr => survives now kr.2) (events st);
     deferredKeys := filter (fun k => keySurvives st now k) (deferredKeys st) |}.

(** The "force reset if expired or details changed" block of [track]:
    the prior record the strategy will be given. *)
Definition priorRecord (st : State) (now : num) (k : string)
    (eventData : EventData) : option (EventRecord C D) :=
  match events st !! k with
  | Some r =>
      let isExpired := Num.gt now (expiresAt r) in
      let detailsChanged :=
        negb (String.eqb (detailsHash r) (ev_detailsHash eventData)) in
      if isExpired || detailsChanged then None else Some r
  | None => None
  end.

(** [track]: [nowAdapter] is the clock reading of the adapter (freshness
    check), [nowStrategy] the one taken inside [strategy.track]. *)
Definition track (strategy : BaseStrategy C D) (st : State)
    (nowAdapter nowStrategy : num) (k : string) (eventData : EventData)
    (trackerConfig : TrackerConfig) : TrackResult C D * State :=
  let record := priorRecord st nowAdapter k eventData in
  if match record with Some _ => false | None => true end
     && Num.gt (tc_maxKeys trackerConfig) 0
     && Num.ge (Num.of_nat (size st)) (tc_maxKeys trackerConfig)
     && negb (has st k)
  then
    ({| outcome := Ignored; record := None;
        reason := Some "key_limit_reached" |}, st)
  else
    let '(outcome, updatedRecord) :=
      @track C D strategy trackerConfig nowStrategy record
        {| se_compositeKey := k; se_data := eventData |} in
    ({| outcome := outcome; record := Some updatedRecord; reason := None |},
     set st k updatedRecord).

Definition acquireKeySlot (st : State) (k : string) (maxKeys : num) : bool :=
  if has st k then true
  else if Num.ge (Num.of_nat (size st)) maxKeys then false
  else true.

(** The deferred keys whose record is due at [timestamp]. *)
Definition dueKeys (st : State) (timestamp : num) : list string :=
  List.filter
    (fun k => match events st !! k with
              | Some r => isDue timestamp r
              | None => false
              end)
    (elements (deferredKeys st)).

Definition findDueDeferred (st : State) (timestamp : num)
    : list (EventRecord C D) :=
  omap (fun k => events st !! k) (dueKeys st timestamp).

Definition popDueDeferred (st : State) (timestamp : num)
    : list (EventRecord C D) * State :=
  let keysToDelete := dueKeys st timestamp in
  (omap (fun k => events st !! k) keysToDelete,
   fold_left delete keysToDelete st).

Definition findAllDeferred (st : State) : list (EventRecord C D) :=
  omap (fun k => events st !! k) (elements (deferredKeys st)).
End Adapter.

Arguments State : clear implicits.
End InMemoryAdapter.

(** ** The Redis adapter and its track script

    A JSON text is represented by the value it encodes, and a number stored
    as a decimal string by the number.  A hash has the twelve fields the
    track script writes; [strategyData] may be missing on a hash written by
    [set] for a record without strategy state. *)

Module RedisAdapter.
Definition KEY_PREFIX : string := "event-tracker:".

Definition _getRecordKey (k : string) : string := KEY_PREFIX ++ k.

(** The decoded [strategyData] object; the simple strategy stores [{}]. *)
Record ScriptData : Type := {
  sd_tokens : option num;
  sd_lastRefill : option num;
  sd_currentCount : option num;
  sd_previousCount : option num;
  sd_windowStart : option num
}.

Definition emptyData : ScriptData :=
  {| sd_tokens := None; sd_lastRefill := None; sd_currentCount := None;
     sd_previousCount := None; sd_windowStart := None |}.

(** The decoded [config] object: [initialConfig] as built by
    [RedisAdapter.track], a property being absent when its source is
    [undefined]. *)
Record ConfigBlob : Type := {
  cb_limit : option num;
  cb_deferInterval : option num;
  cb_bucketSize : option num;
  cb_refillRate : option num;
  cb_windowSize : option num
}.

Record Hash : Type := {
  h_key : string;
  h_category : string;
  h_id : string;
  h_details : JsValue;
  h_detailsHash : string;
  h_count : num;
  h_lastEventTime : num;
  h_expiresAt : num;
  h_deferred : bool;
  h_scheduledSendAt : num;
  h_strategyData : option ScriptData;
  h_config : ConfigBlob
}.

(** The keyspace the scripts touch: record hashes with their expiry time in
    seconds, the size counter and the deferred sorted set. *)
Record State : Type := {
  hashes : gmap string Hash;
  expireAt : gmap string num;
  sizeCounter : Z;
  deferredSet : gmap string num
}.

Definition empty : State :=
  {| hashes := ∅; expireAt := ∅; sizeCounter := 0; deferredSet := ∅ |}.

(** The reply of the track script. *)
Inductive ScriptReply : Type :=
| ReplyKeyLimit
| ReplyTracked (outcome : Outcome) (count scheduledSendAt expiresAt : num)
               (config : ConfigBlob) (strategyData : ScriptData)
| ReplyError.

Definition exists_ (st : State) (recordKey : string) : bool :=
  match hashes st !! recordKey with Some _ => true | None => false end.

(** Lua's [a % b] is [a - floor(a / b) * b]. *)
Definition luaMod (a b : num) : num :=
  Num.sub a (Num.mul (Num.floor (a / b)) b).

Definition ceil (a : num) : num := inject_Z (Qceiling a).

(** The decision of one strategy arm: outcome and the script's locals
    [count], [deferred], [scheduledSendAt], [strategyData] after the arm;
    [None] when the arm raises a Lua error. *)
Record ArmResult : Type := {
  a_outcome : Outcome;
  a_count : num;
  a_deferred : bool;
  a_scheduledSendAt : num;
  a_strategyData : ScriptData
}.

Definition simpleArm (now : num) (count : num) (deferred : bool)
    (scheduledSendAt : num) (sParam1 sParam2 : num) : ArmResult :=
  let limit := sParam1 in
  let deferInterval := sParam2 in
  if deferred then
    {| a_outcome := Ignored; a_count := count; a_deferred := deferred;
       a_scheduledSendAt := scheduledSendAt; a_strategyData := emptyData |}
  else
    let count := Num.add count 1 in
    if Num.gt count limit then
      {| a_outcome := Deferred; a_count := count; a_deferred := true;
         a_scheduledSendAt := Num.add now deferInterval;
         a_strategyData := emptyData |}
    else
      {| a_outcome := Immediate; a_count := count; a_deferred := deferred;
         a_scheduledSendAt := scheduledSendAt; a_strategyData := emptyData |}.

(** [math.min(bucketSize, tokens + (elapsedMs / 1000) * refillRate)]. *)
Definition refill (bucketSize refillRate tokens lastRefill now : num) : num :=
  let elapsedMs := Num.sub now lastRefill in
  Num.min bucketSize
    (Num.add tokens (Num.mul (Num.div elapsedMs 1000) refillRate)).

Definition tokenBucketArm (isNew : bool) (existing : option Hash) (now : num)
    (count : num) (sParam1 sParam2 : num) : option ArmResult :=
  let bucketSize := sParam1 in
  let refillRate := sParam2 in
  let refilled : option num :=
    match existing with
    | Some h =>
        match (if isNew then None else h_strategyData h) with
        | Some sd =>
            match sd_tokens sd, sd_lastRefill sd with
            | Some tokens, Some lastRefill =>
                Some (refill bucketSize refillRate tokens lastRefill now)
            | _, _ => None
            end
        | None => Some bucketSize
        end
    | None => Some bucketSize
    end in
  match refilled with
  | None => None
  | Some tokens =>
      if Num.ge tokens 1 then
        Some {| a_outcome := Immediate; a_count := Num.add count 1;
                a_deferred := false; a_scheduledSendAt := 0;
                a_strategyData :=
                  {| sd_tokens := Some (Num.sub tokens 1);
                     sd_lastRefill := Some now; sd_currentCount := None;
                     sd_previousCount := None; sd_windowStart := None |} |}
      else
        let timeToNextTokenMs :=
          Num.mul (Num.sub 1 tokens) (Num.div 1000 refillRate) in
        Some {| a_outcome := Deferred; a_count := count; a_deferred := true;
                a_scheduledSendAt := Num.add now (Num.max timeToNextTokenMs 1);
                a_strategyData :=
                  {| sd_tokens := Some tokens; sd_lastRefill := Some now;
                     sd_currentCount := None; sd_previousCount := None;
                     sd_windowStart := None |} |}
  end.

Definition slidingWindowArm (isNew : bool) (existing : option Hash) (now : num)
    (count : num) (scheduledSendAt : num) (sParam1 sParam2 sParam3 : num)
    : ArmResult :=
  let limit := sParam1 in
  let windowSize := sParam2 in
  let deferInterval := sParam3 in
  let sd : option ScriptData :=
    match existing with
    | Some h => if isNew then None else h_strategyData h
    | None => None
    end in
  let currentCount :=
    match sd with Some d => default 0 (sd_currentCount d) | None => 0 end in
  let previousCount :=
    match sd with Some d => default 0 (sd_previousCount d) | None => 0 end in
  let windowStart :=
    match sd with Some d => default now (sd_windowStart d) | None => now end in
  let elapsed := Num.sub now windowStart in
  let slid := Num.ge elapsed windowSize in
  let previousCount :=
    if slid then (if Num.ge elapsed (Num.mul windowSize 2) then 0 else currentCount)
    else previousCount in
  let currentCount := if slid then 0 else currentCount in
  let windowStart :=
    if slid then Num.sub now (luaMod elapsed windowSize) else windowStart in
  let weight := Num.div (Num.sub windowSize (Num.sub now windowStart)) windowSize in
  let estimatedCount := Num.add currentCount (Num.mul previousCount weight) in
  if Num.lt estimatedCount limit then
    {| a_outcome := Immediate; a_count := Num.floor (Num.add estimatedCount 1);
       a_deferred := false; a_scheduledSendAt := 0;
       a_strategyData :=
         {| sd_tokens := None; sd_lastRefill := None;
            sd_currentCount := Some (Num.add currentCount 1);
            sd_previousCount := Some previousCount;
            sd_windowStart := Some windowStart |} |}
  else
    {| a_outcome := Deferred; a_count := count; a_deferred := true;
       a_scheduledSendAt := Num.add now deferInterval;
       a_strategyData :=
         {| sd_tokens := None; sd_lastRefill := None;
            sd_currentCount := Some currentCount;
            sd_previousCount := Some previousCount;
            sd_windowStart := Some windowStart |} |}.

(** The [track] script.  [recordKey] is [KEYS[1]]; the size key and the
    deferred set are the two other components of the state. *)
Definition trackScript (st : State) (recordKey : string)
    (key category id : string) (details : JsValue) (detailsHash : string)
    (now expireTime maxKeys : num) (strategyType : string)
    (sParam1 sParam2 sParam3 : num) (initialConfig : ConfigBlob)
    : ScriptReply * State :=
  let existing := hashes st !! recordKey in
  let isNew0 := match existing with Some _ => false | None => true end in
  let isExpired :=
    match existing with
    | Some h => Num.gt now (h_expiresAt h)
    | None => false
    end in
  let detailsChanged :=
    match existing with
    | Some h => negb (String.eqb (h_detailsHash h) detailsHash)
    | None => false
    end in
  let isNew := isNew0 || isExpired || detailsChanged in
  if isNew && Num.gt maxKeys 0 && Num.ge (inject_Z (sizeCounter st)) maxKeys
     && negb (exists_ st recordKey)
  then (ReplyKeyLimit, st)
  else
    let sizeCounter' :=
      if isNew && negb (exists_ st recordKey)
      then (sizeCounter st + 1)%Z else sizeCounter st in
    let count :=
      match existing with
      | Some h => if isNew then 0 else h_count h
      | None => 0
      end in
    let deferred :=
      match existing with
      | Some h => negb isNew && h_deferred h
      | None => false
      end in
    let scheduledSendAt :=
      match existing with
      | Some h => if isNew then 0 else h_scheduledSendAt h
      | None => 0
      end in
    let arm : option ArmResult :=
      if String.eqb strategyType "simple" then
        Some (simpleArm now count deferred scheduledSendAt sParam1 sParam2)
      else if String.eqb strategyType "token-bucket" then
        tokenBucketArm isNew existing now count sParam1 sParam2
      else if String.eqb strategyType "sliding-window" then
        Some (slidingWindowArm isNew existing now count scheduledSendAt
                sParam1 sParam2 sParam3)
      else
        Some {| a_outcome := Immediate; a_count := count;
                a_deferred := deferred; a_scheduledSendAt := scheduledSendAt;
                a_strategyData := emptyData |} in
    match arm with
    | None =>
        (ReplyError,
         {| hashes := hashes st; expireAt := expireAt st;
            sizeCounter := sizeCounter'; deferredSet := deferredSet st |})
    | Some a =>
        let expiresAt := Num.add now expireTime in
        let config :=
          match existing with
          | Some h => if isNew then initialConfig else h_config h
          | None => initialConfig
          end in
        let hash :=
          {| h_key := key; h_category := category; h_id := id;
             h_details := details; h_detailsHash := detailsHash;
             h_count := a_count a; h_lastEventTime := now;
             h_expiresAt := expiresAt; h_deferred := a_deferred a;
             h_scheduledSendAt := a_scheduledSendAt a;
             h_strategyData := Some (a_strategyData a);
             h_config := config |} in
        (ReplyTracked (a_outcome a) (a_count a) (a_scheduledSendAt a)
           expiresAt config (a_strategyData a),
         {| hashes := <[recordKey := hash]> (hashes st);
            expireAt := <[recordKey := ceil (expiresAt / 1000)]> (expireAt st);
            sizeCounter := sizeCounter';
            deferredSet :=
              if a_deferred a
              then <[key := a_scheduledSendAt a]> (deferredSet st)
              else base.delete key (deferredSet st) |})
    end.

(** The strategy object as [RedisAdapter.track] inspects it: its type tag
    and the four tuning properties it may carry. *)
Record StrategyObject : Type := {
  so_type : string;
  so_limit : option num;
  so_bucketSize : option num;
  so_windowSize : option num;
  so_refillRate : option num
}.

Definition simpleCounter : StrategyObject :=
  {| so_type := "simple"; so_limit := None; so_bucketSize := None;
     so_windowSize := None; so_refillRate := None |}.

Definition tokenBucket (bucketSize refillRate : num) : StrategyObject :=
  {| so_type := "token-bucket"; so_limit := None;
     so_bucketSize := Some bucketSize; so_windowSize := None;
     so_refillRate := Some refillRate |}.

Definition slidingWindow (limit windowSize : num) : StrategyObject :=
  {| so_type := "sliding-window"; so_limit := Some limit;
     so_bucketSize := None; so_windowSize := Some windowSize;
     so_refillRate := None |}.

(** [a ?? b] on two optional properties. *)
Definition coalesce (a b : option num) : option num :=
  match a with Some _ => a | None => b end.

(** [parseInt(s, 10)] on the decimal text of a number. *)
Definition parseInt (a : num) : num := Num.trunc a.

(** [JSON.parse(JSON.stringify(v))] for a value held by a property:
    [JSON.stringify] leaves out a property that holds [undefined] or a
    function ([None]) and writes [NaN] and the infinities as [null].
    [JsFunction] says nothing of what a function computes, so an object
    with a [toJSON] method, which [JSON.stringify] would call, is copied
    here like any other. *)
Fixpoint jsonCopy (v : JsValue) : option JsValue :=
  match v with
  | JsUndefined | JsFunction => None
  | JsNull | JsBoolean _ | JsString _ | JsNum (JsFinite _) => Some v
  | JsNum _ => Some JsNull
  | JsObject props => Some (JsObject (jsonCopyProps props))
  end
with jsonCopyProps (props : JsProps) : JsProps :=
  match props with
  | JsNoProps => JsNoProps
  | JsProp name value rest =>
      match jsonCopy value with
      | Some copy => JsProp name copy (jsonCopyProps rest)
      | None => jsonCopyProps rest
      end
  end.

(** What the [details] field of a hash stands for.  The field holds the
    text [_safeStringify(details)], which [_safeParseJSON] parses when the
    hash is read; a field of [Hash] holds the value read back.
    [_safeStringify] writes ['{}'] for every falsy value and
    [JSON.stringify(details)] otherwise.  For a function
    [JSON.stringify] returns [undefined], no text at all; what the Redis
    client makes of that argument is not in the source, and the field is
    read here like a missing or unparsable one, as [{}]. *)
Definition storedDetails (details : JsValue) : JsValue :=
  if negb (truthy details) then JsObject JsNoProps
  else match jsonCopy details with
       | Some copy => copy
       | None => JsObject JsNoProps
       end.

(** The client side of [track]: parameter resolution, the script call and
    the decoding of its reply, on an open connection.  A failure inside
    the [try] block is rethrown as a plain error. *)
Definition track (strategy : StrategyObject) (st : State) (now : num)
    (k : string) (eventData : EventData) (trackerConfig : TrackerConfig)
    : (Thrown + TrackResult ConfigBlob ScriptData) * State :=
  let recordKey := _getRecordKey k in
  let strategyType := so_type strategy in
  let isSimple := String.eqb strategyType "simple" in
  let sParam1 :=
    if isSimple then Some (tc_limit trackerConfig)
    else coalesce (so_limit strategy) (so_bucketSize strategy) in
  let sParam2 :=
    if isSimple then Some (tc_deferInterval trackerConfig)
    else coalesce (so_windowSize strategy) (so_refillRate strategy) in
  let sParam3 := if isSimple then 0 else tc_deferInterval trackerConfig in
  let initialConfig : ConfigBlob :=
    if isSimple then
      {| cb_limit := Some (tc_limit trackerConfig);
         cb_deferInterval := Some (tc_deferInterval trackerConfig);
         cb_bucketSize := None; cb_refillRate := None; cb_windowSize := None |}
    else if String.eqb strategyType "token-bucket" then
      {| cb_limit := None;
         cb_deferInterval := Some (tc_deferInterval trackerConfig);
         cb_bucketSize := so_bucketSize strategy;
         cb_refillRate := so_refillRate strategy; cb_windowSize := None |}
    else
      {| cb_limit := so_limit strategy;
         cb_deferInterval := Some (tc_deferInterval trackerConfig);
         cb_bucketSize := None; cb_refillRate := None;
         cb_windowSize := so_windowSize strategy |} in
  let failed := Error ("Redis TRACK failed for key " ++ k) in
  match sParam1, sParam2 with
  | Some p1, Some p2 =>
      let '(reply, st') :=
        trackScript st recordKey k (ev_category eventData) (ev_id eventData)
          (storedDetails (ev_details eventData)) (ev_detailsHash eventData)
          now (tc_expireTime trackerConfig) (tc_maxKeys trackerConfig)
          strategyType p1 p2 sParam3 initialConfig in
      match reply with
      | ReplyError => (inl failed, st')
      | ReplyKeyLimit =>
          (inr {| outcome := Ignored; record := None;
                  reason := Some "key_limit_reached" |}, st')
      | ReplyTracked outcome count scheduledSendAtN expiresAtN config strategyData =>
          let scheduledSendAt :=
            if Qeq_bool scheduledSendAtN 0 then None
            else Some (parseInt scheduledSendAtN) in
          let record :=
            {| key := k;
               category := ev_category eventData;
               id := ev_id eventData;
               details := ev_details eventData;
               detailsHash := ev_detailsHash eventData;
               count := parseInt count;
               lastEventTime := now;
               expiresAt := parseInt expiresAtN;
               deferred := match outcome with Deferred => true | _ => false end;
               scheduledSendAt := scheduledSendAt;
               config := config;
               strategyData := strategyData |} in
          (inr {| outcome := outcome; record := Some record; reason := None |},
           st')
      end
  | _, _ => (inl failed, st)
  end.

(** *** The other scripts and the methods built on them *)

(** [ZRANGEBYSCORE deferredSetKey 0 timestamp]: the members whose score
    lies between 0 and [timestamp].  Redis returns them by ascending
    score; here they come in the order of [map_to_list]. *)
Definition inRange (timestamp : num) (member : string * num) : bool :=
  Num.le 0 (snd member) && Num.le (snd member) timestamp.

Definition dueMembers (st : State) (timestamp : num) : list string :=
  List.map fst (List.filter (inRange timestamp) (map_to_list (deferredSet st))).

(** One iteration of the script's loop: [HGETALL], [DEL], [DECR]. *)
Definition popOne (keyPrefix : string)
    (acc : list (string * option Hash) * State) (key : string)
    : list (string * option Hash) * State :=
  let '(results, st) := acc in
  let recordKey := keyPrefix ++ key in
  ((results ++ [(key, hashes st !! recordKey)])%list,
   {| hashes := base.delete recordKey (hashes st);
      expireAt := base.delete recordKey (expireAt st);
      sizeCounter := (sizeCounter st - 1)%Z;
      deferredSet := deferredSet st |}).

(** The [popDueDeferred] script; an [HGETALL] of a missing key is [None]. *)
Definition popDueDeferredScript (st : State) (keyPrefix : string)
    (timestamp : num) : list (string * option Hash) * State :=
  let dueKeys := dueMembers st timestamp in
  match dueKeys with
  | [] => ([], st)
  | _ =>
      let afterZrem :=
        {| hashes := hashes st; expireAt := expireAt st;
           sizeCounter := sizeCounter st;
           deferredSet :=
             fold_left (fun members key => base.delete key members) dueKeys
               (deferredSet st) |} in
      fold_left (popOne keyPrefix) dueKeys ([], afterZrem)
  end.

(** The [acquireKeySlot] script. *)
Definition acquireKeySlotScript (st : State) (recordKey : string)
    (maxKeys : num) : Z :=
  if exists_ st recordKey then 1%Z
  else if Num.ge (inject_Z (sizeCounter st)) maxKeys then 0%Z
  else 1%Z.

(** [_deserialize] on a hash read back from Redis: a hash without a key
    is no record; a schedule of 0 reads as [null]. *)
Definition _deserialize (data : Hash)
    : option (EventRecord ConfigBlob (option ScriptData)) :=
  if String.eqb (h_key data) "" then None
  else
    Some {| key := h_key data;
            category := h_category data;
            id := h_id data;
            details := h_details data;
            detailsHash := h_detailsHash data;
            count := parseInt (h_count data);
            lastEventTime := parseInt (h_lastEventTime data);
            expiresAt := parseInt (h_expiresAt data);
            deferred := h_deferred data;
            scheduledSendAt :=
              if Qeq_bool (h_scheduledSendAt data) 0 then None
              else Some (parseInt (h_scheduledSendAt data));
            config := h_config data;
            strategyData := h_strategyData data |}.

(** The methods below are given on an open connection, where
    [_validateConnection] passes and no command fails. *)
Definition get (st : State) (k : string)
    : option (EventRecord ConfigBlob (option ScriptData)) :=
  hashes st !! _getRecordKey k ≫= _deserialize.

Definition size (st : State) : Z := sizeCounter st.

Definition delete (st : State) (k : string) : State :=
  let recordKey := _getRecordKey k in
  if exists_ st recordKey then
    {| hashes := base.delete recordKey (hashes st);
       expireAt := base.delete recordKey (expireAt st);
       sizeCounter := (sizeCounter st - 1)%Z;
       deferredSet := base.delete k (deferredSet st) |}
  else
    {| hashes := hashes st; expireAt := expireAt st;
       sizeCounter := sizeCounter st;
       deferredSet := base.delete k (deferredSet st) |}.

Definition acquireKeySlot (st : State) (k : string) (maxKeys : num) : bool :=
  Z.eqb (acquireKeySlotScript st (_getRecordKey k) maxKeys) 1.

Definition findDueDeferred (st : State) (timestamp : num)
    : list (EventRecord ConfigBlob (option ScriptData)) :=
  omap (fun key => hashes st !! _getRecordKey key ≫= _deserialize)
       (dueMembers st timestamp).

Definition popDueDeferred (st : State) (timestamp : num)
    : list (EventRecord ConfigBlob (option ScriptData)) * State :=
  let '(rawResults, st') := popDueDeferredScript st KEY_PREFIX timestamp in
  (omap (fun entry => snd entry ≫= _deserialize) rawResults, st').

Definition findAllDeferred (st : State)
    : list (EventRecord ConfigBlob (option ScriptData)) :=
  omap (fun key => hashes st !! _getRecordKey key ≫= _deserialize)
       (List.map fst (map_to_list (deferredSet st))).

(** A hash whose [config] field has been overwritten, as [update] leaves
    it after a change of the config. *)
Definition with_h_config (v : ConfigBlob) (h : Hash) : Hash :=
  {| h_key := h_key h; h_category := h_category h; h_id := h_id h;
     h_details := h_details h; h_detailsHash := h_detailsHash h;
     h_count := h_count h; h_lastEventTime := h_lastEventTime h;
     h_expiresAt := h_expiresAt h; h_deferred := h_deferred h;
     h_scheduledSendAt := h_scheduledSendAt h;
     h_strategyData := h_strategyData h; h_config := v |}.
End RedisAdapter.

(** ** The tracker engine (index.js) *)

Module JsNumberOps.
Definition isNaN (n : JsNumber) : bool :=
  match n with JsNaN => true | _ => false end.

Definition isFinite (n : JsNumber) : bool :=
  match n with JsFinite _ => true | _ => false end.

(** [n < 0]. *)
Definition isNegative (n : JsNumber) : bool :=
  match n with
  | JsFinite q => negb (Qle_bool 0 q)
  | JsNegInf => true
  | JsPosInf | JsNaN => false
  end.

(** [Math.max(c, n)] for a finite constant [c]. *)
Definition maxWith (c : Q) (n : JsNumber) : JsNumber :=
  match n with
  | JsFinite q => JsFinite (if Qle_bool c q then q else c)
  | JsPosInf => JsPosInf
  | JsNegInf => JsFinite c
  | JsNaN => JsNaN
  end.

(** [c <= n]. *)
Definition atLeast (c : Q) (n : JsNumber) : bool :=
  match n with
  | JsFinite q => Qle_bool c q
  | JsPosInf => true
  | JsNegInf | JsNaN => false
  end.

(** [c < n]. *)
Definition above (c : Q) (n : JsNumber) : bool :=
  match n with
  | JsFinite q => negb (Qle_bool q c)
  | JsPosInf => true
  | JsNegInf | JsNaN => false
  end.

(** [n + c] for a finite constant [c]. *)
Definition plus (n : JsNumber) (c : Q) : JsNumber :=
  match n with
  | JsFinite q => JsFinite (Qred (q + c))
  | other => other
  end.

(** [n * c] for a finite constant [c > 0]. *)
Definition scale (n : JsNumber) (c : Q) : JsNumber :=
  match n with
  | JsFinite q => JsFinite (Num.mul q c)
  | other => other
  end.
End JsNumberOps.

Module EventTracker.
Definition DEFAULT_LIMIT : Q := 5.
Definition DEFAULT_DEFER_INTERVAL_MS : Q := 60 * 60 * 1000.
Definition DEFAULT_EXPIRE_TIME_MS : Q := 24 * 60 * 60 * 1000.
Definition DEFAULT_PROCESSING_INTERVAL_MS : Q := 10000.
Definition MIN_PROCESSING_INTERVAL_MS : Q := 10.
Definition DEFAULT_MAX_RETRIES : Q := 3.
Definition DEFAULT_RETRY_DELAY_MS : Q := 1000.

(** *** Construction *)

(** [options.strategy]: absent, an instance of [BaseStrategy] (with its type
    tag), or any other value. *)
Inductive StrategyOption : Type :=
| StrategyAbsent
| StrategyInstance (strategyType : string)
| StrategyOther.

Record Options : Type := {
  o_limit : JsValue;
  o_deferInterval : JsValue;
  o_expireTime : JsValue;
  o_maxKeys : JsValue;
  o_processingInterval : JsValue;
  o_maxRetries : JsValue;
  o_retryDelay : JsValue;
  o_strategy : StrategyOption;
  o_processor : JsValue
}.

(** [new EventTracker()] is called with [options = {}]. *)
Definition noOptions : Options :=
  {| o_limit := JsUndefined; o_deferInterval := JsUndefined;
     o_expireTime := JsUndefined; o_maxKeys := JsUndefined;
     o_processingInterval := JsUndefined; o_maxRetries := JsUndefined;
     o_retryDelay := JsUndefined; o_strategy := StrategyAbsent;
     o_processor := JsUndefined |}.

(** The fields [_validateConfig] walks, in its order. *)
Definition numericFields (options : Options) : list (string * JsValue) :=
  [ ("limit", o_limit options);
    ("deferInterval", o_deferInterval options);
    ("expireTime", o_expireTime options);
    ("maxKeys", o_maxKeys options);
    ("processingInterval", o_processingInterval options);
    ("maxRetries", o_maxRetries options);
    ("retryDelay", o_retryDelay options) ].

(** One iteration of the validation loop. *)
Definition validateField (field : string) (v : JsValue) : option Thrown :=
  match v with
  | JsUndefined => None
  | JsNum n =>
      if JsNumberOps.isNaN n then
        Some (TypeError (field ++ " must be a number."))
      else if JsNumberOps.isNegative n then
        Some (RangeError (field ++ " must be non-negative."))
      else None
  | _ => Some (TypeError (field ++ " must be a number."))
  end.

Fixpoint validateFields (fields : list (string * JsValue)) : option Thrown :=
  match fields with
  | [] => None
  | (field, v) :: rest =>
      match validateField field v with
      | Some thrown => Some thrown
      | None => validateFields rest
      end
  end.

Definition _validateConfig (options : Options) : option Thrown :=
  validateFields (numericFields options).

(** [options.field ?? dflt] for a field that passed validation. *)
Definition orDefault (v : JsValue) (dflt : Q) : JsNumber :=
  match v with
  | JsNum n => n
  | _ => JsFinite dflt
  end.

(** The state the constructor leaves behind. *)
Record Constructed : Type := {
  limit : JsNumber;
  deferInterval : JsNumber;
  expireTime : JsNumber;
  maxKeys : JsNumber;
  strategyType : string;
  processingIntervalMs : JsNumber;
  maxRetries : JsNumber;
  retryDelay : JsNumber;
  hasProcessor : bool
}.

Definition constructor (options : Options) : Thrown + Constructed :=
  match _validateConfig options with
  | Some thrown => inl thrown
  | None =>
      match o_strategy options with
      | StrategyOther =>
          inl (TypeError "strategy must be an instance of BaseStrategy.")
      | chosen =>
          inr {| limit := JsNumberOps.maxWith 0 (orDefault (o_limit options) DEFAULT_LIMIT);
                 deferInterval :=
                   JsNumberOps.maxWith 0
                     (orDefault (o_deferInterval options) DEFAULT_DEFER_INTERVAL_MS);
                 expireTime :=
                   JsNumberOps.maxWith 1
                     (orDefault (o_expireTime options) DEFAULT_EXPIRE_TIME_MS);
                 maxKeys := JsNumberOps.maxWith 0 (orDefault (o_maxKeys options) 0);
                 strategyType :=
                   match chosen with
                   | StrategyInstance tag => tag
                   | _ => "simple"
                   end;
                 processingIntervalMs :=
                   JsNumberOps.maxWith MIN_PROCESSING_INTERVAL_MS
                     (orDefault (o_processingInterval options)
                        DEFAULT_PROCESSING_INTERVAL_MS);
                 maxRetries :=
                   JsNumberOps.maxWith 0
                     (orDefault (o_maxRetries options) DEFAULT_MAX_RETRIES);
                 retryDelay :=
                   JsNumberOps.maxWith 0
                     (orDefault (o_retryDelay options) DEFAULT_RETRY_DELAY_MS);
                 hasProcessor :=
                   String.eqb (typeof (o_processor options)) "function" |}
      end
  end.

(** *** Identity and fingerprint *)

(** The two library calls the hashing helpers rest on: the SHA-256 hex
    digest of a string, and [JSON.stringify(details, sortedKeys)], which
    throws on a cyclic value ([None]). *)
Record Platform : Type := {
  sha256hex : string -> string;
  stableStringify : JsValue -> option string
}.

Definition generateDetailsHash (P : Platform) (details : JsValue) : string :=
  if negb (truthy details)
     || negb (String.eqb (typeof details) "object")
     || Nat.eqb (List.length (objectKeys details)) 0
  then ""
  else match stableStringify P details with
       | Some detailsString => sha256hex P detailsString
       | None => ""
       end.

Definition generateCompositeKey (P : Platform) (category id : JsValue)
    : Thrown + string :=
  match category, id with
  | JsString c, JsString i =>
      if negb (truthy category) || negb (truthy id) then
        inl (Error "category and id cannot be empty.")
      else inr (sha256hex P (c ++ ":" ++ i))
  | _, _ => inl (TypeError "category and id must be strings.")
  end.

(** *** Notifications *)

Section Engine.
Context {C D : Type}.

(** What the processor threw (what its promise rejected with), as far as
    the engine inspects it.  The engine keeps the value for the
    [process_failed] payload and reads [lastError.message] for the final
    error: on [null] and [undefined] that read throws; on any other value
    it yields the text interpolated into the message, which [RaisedValue]
    carries (the message of an [Error], "undefined" for a value that has
    none). *)
Inductive Raised : Type :=
| RaisedNull
| RaisedUndefined
| RaisedValue (message : string).

(** [`${lastError.message}`]; [None] when reading the property throws. *)
Definition messageOf (lastError : Raised) : option string :=
  match lastError with
  | RaisedNull | RaisedUndefined => None
  | RaisedValue message => Some message
  end.

(** The [Error] built after the last failed attempt,
    [`Processor callback failed after ${maxRetries + 1} attempts: ${lastError.message}`],
    kept as its two interpolated parts. *)
Inductive EngineError : Type :=
| ProcessorCallbackFailed (attempts : JsNumber) (lastMessage : string).

(** [this.emit(name, payload)], one constructor per event name. *)
Inductive Emission : Type :=
| EmitOutcome (name : Outcome) (record : option (EventRecord C D))
| EmitIgnored (reason : string) (category id : string) (details : JsValue)
| EmitProcessed (event : EventRecord C D)
| EmitRetry (attempt : nat) (maxRetries : JsNumber) (delay : JsNumber)
            (events : list (EventRecord C D))
| EmitProcessFailed (error : Raised) (events : list (EventRecord C D))
                    (attempts : JsNumber)
| EmitError (error : EngineError).

(** *** trackEvent *)

(** [{ type, data, reason? }]. *)
Record TrackEventResult : Type := {
  type : Outcome;
  data : option (EventRecord C D);
  ignoreReason : option string
}.

(** [trackEvent] over any adapter: [storageTrack key eventData] is
    [this.storage.track(key, eventData, this.config, this.strategy)] on
    the current store, a failed call returning what it throws.  The
    result is what the promise rejects with, or its value together with
    the notifications emitted and the new store. *)
Definition trackEvent {Store : Type} (P : Platform) (storage : Store)
    (storageTrack : string -> EventData -> (Thrown + TrackResult C D) * Store)
    (category id details : JsValue)
    : Thrown + (TrackEventResult * list Emission * Store) :=
  let details :=
    match details with JsUndefined => JsObject JsNoProps | d => d end in
  match generateCompositeKey P category id with
  | inl thrown => inl thrown
  | inr compositeKey =>
      let detailsHash := generateDetailsHash P details in
      let eventData :=
        {| ev_category := asString category; ev_id := asString id;
           ev_details := details; ev_detailsHash := detailsHash |} in
      match storageTrack compositeKey eventData with
      | (inl thrown, _) => inl thrown
      | (inr result, storage') =>
          match outcome result with
          | Ignored =>
              let ignoreReason := default "already_deferred" (reason result) in
              let reasonTruthy :=
                match reason result with
                | Some r => negb (String.eqb r "")
                | None => false
                end in
              inr ({| type := Ignored;
                      data := if reasonTruthy then None else record result;
                      ignoreReason := Some ignoreReason |},
                   [EmitIgnored ignoreReason (asString category)
                      (asString id) details],
                   storage')
          | other =>
              inr ({| type := other; data := record result;
                      ignoreReason := None |},
                   [EmitOutcome other (record result)], storage')
          end
      end
  end.

(** *** processDeferredEvents *)

(** The processor callback: given the index of the call (0 for the first
    attempt) and the batch, it resolves ([None]) or throws. *)
Definition Processor : Type := nat -> list (EventRecord C D) -> option Raised.

(** What one run of [processDeferredEvents] does, in order; [Emit] is a
    call of [this.emit] that returned (listeners return normally). *)
Inductive Effect : Type :=
| Invoke (attempt : nat) (batch : list (EventRecord C D))
| Emit (e : Emission)
| Sleep (delay : JsNumber).

Inductive LoopExit : Type :=
| Succeeded
| Exhausted (lastError : Raised)
| Unfinished.

(** The [for (attempt = 0; attempt <= maxRetries; attempt++)] loop.
    [maxRetries] and [retryDelay] are the numbers the constructor stored:
    zero or more, whole or not, or infinite.  The loop has no bound but
    [maxRetries], so [fuel] bounds the iterations looked at and
    [Unfinished] says the loop was still running.  The delay is
    [retryDelay * Math.pow(2, attempt)]. *)
Fixpoint retryLoop (processor : Processor) (maxRetries : JsNumber)
    (retryDelay : JsNumber) (dueEvents : list (EventRecord C D))
    (fuel attempt : nat) (lastError : Raised) : list Effect * LoopExit :=
  match fuel with
  | O => ([], Unfinished)
  | S fuel' =>
      if JsNumberOps.atLeast (Num.of_nat attempt) maxRetries then
        match processor attempt dueEvents with
        | None =>
            (Invoke attempt dueEvents
               :: map (fun event => Emit (EmitProcessed event)) dueEvents,
             Succeeded)
        | Some error =>
            let backoff :=
              if JsNumberOps.above (Num.of_nat attempt) maxRetries then
                let delay := JsNumberOps.scale retryDelay (Num.pow2 attempt) in
                [Emit (EmitRetry (attempt + 1) maxRetries delay dueEvents);
                 Sleep delay]
              else [] in
            let '(rest, exit) :=
              retryLoop processor maxRetries retryDelay dueEvents fuel'
                (attempt + 1) error in
            (Invoke attempt dueEvents :: (backoff ++ rest)%list, exit)
        end
      else ([], Exhausted lastError)
  end.

(** How the promise of [processDeferredEvents] settles: with the list it
    resolves to, with the error thrown by [emit('error', ...)] when no
    listener is registered for 'error', with the [TypeError] of reading
    [message] off [null] or [undefined], or not within the fuel given. *)
Inductive Settled : Type :=
| Resolved (events : list (EventRecord C D))
| RejectedUnhandled (error : EngineError)
| RejectedTypeError
| Unsettled.

(** [processDeferredEvents] over any adapter, given its [findDueDeferred]
    and [popDueDeferred]; [errorListener] says whether a listener is
    registered for 'error' ([EventEmitter.emit] throws the error when
    none is).  Returns how the promise settles, the effects in order and
    the new store. *)
Definition processDeferredEvents {Store : Type}
    (processor : option Processor) (maxRetries retryDelay : JsNumber)
    (errorListener : bool) (storage : Store)
    (findDueDeferred : Store -> num -> list (EventRecord C D))
    (popDueDeferred : Store -> num -> list (EventRecord C D) * Store)
    (now : num) (fuel : nat) : Settled * list Effect * Store :=
  match processor with
  | None => (Resolved (findDueDeferred storage now), [], storage)
  | Some processor =>
      let '(dueEvents, storage') := popDueDeferred storage now in
      match dueEvents with
      | [] => (Resolved dueEvents, [], storage')
      | _ =>
          let '(effects, exit) :=
            retryLoop processor maxRetries retryDelay dueEvents fuel 0
              RaisedNull in
          match exit with
          | Succeeded => (Resolved dueEvents, effects, storage')
          | Unfinished => (Unsettled, effects, storage')
          | Exhausted lastError =>
              let attempts := JsNumberOps.plus maxRetries 1 in
              let failed :=
                Emit (EmitProcessFailed lastError dueEvents attempts) in
              match messageOf lastError with
              | None =>
                  (RejectedTypeError, (effects ++ [failed])%list, storage')
              | Some message =>
                  let error := ProcessorCallbackFailed attempts message in
                  if errorListener then
                    (Resolved dueEvents,
                     (effects ++ [failed; Emit (EmitError error)])%list,
                     storage')
                  else
                    (RejectedUnhandled error, (effects ++ [failed])%list,
                     storage')
              end
          end
      end
  end.

(** *** updateConfig *)

(** [object.name] on the own properties of an object: [undefined] when the
    property is absent, or when the value is no object. *)
Fixpoint lookupProp (name : string) (props : JsProps) : JsValue :=
  match props with
  | JsNoProps => JsUndefined
  | JsProp n v rest => if String.eqb n name then v else lookupProp name rest
  end.

Definition getProp (v : JsValue) (name : string) : JsValue :=
  match v with
  | JsObject props => lookupProp name props
  | _ => JsUndefined
  end.

(** [v !== undefined && (typeof v !== 'number' || v < 0)]. *)
Definition rejectedSetting (v : JsValue) : bool :=
  match v with
  | JsUndefined => false
  | JsNum n => JsNumberOps.isNegative n
  | _ => true
  end.

(** [updateConfig] over any adapter, given its [update] and [get];
    [mergeConfig old newConfig] is [{ ...record.config, ...newConfig }].
    The result is what the promise rejects with, or its value together
    with the payload of the [config_updated] notification when one is
    emitted, and the new store. *)
Definition updateConfig {Store : Type} (P : Platform) (storage : Store)
    (storageUpdate : Store -> string ->
                     (EventRecord C D -> EventRecord C D) -> bool * Store)
    (storageGet : Store -> string -> option (EventRecord C D))
    (mergeConfig : C -> JsValue -> C)
    (category id newConfig : JsValue)
    : Thrown + (bool * option (option (EventRecord C D)) * Store) :=
  if negb (truthy newConfig) || negb (String.eqb (typeof newConfig) "object")
  then inl (Error "newConfig must be an object.")
  else if rejectedSetting (getProp newConfig "limit")
  then inl (Error "limit must be a non-negative number.")
  else if rejectedSetting (getProp newConfig "deferInterval")
  then inl (Error "deferInterval must be a non-negative number.")
  else
    match generateCompositeKey P category id with
    | inl thrown => inl thrown
    | inr compositeKey =>
        let '(updated, storage') :=
          storageUpdate storage compositeKey
            (fun record =>
               with_config (mergeConfig (config record) newConfig) record) in
        if updated
        then inr (true, Some (storageGet storage' compositeKey), storage')
        else inr (false, None, storage')
    end.
End Engine.

Arguments Emission : clear implicits.
Arguments Effect : clear implicits.
Arguments Settled : clear implicits.
Arguments TrackEventResult : clear implicits.
Arguments Processor : clear implicits.
End EventTracker.

(** ** The engine bound to a store *)

Module InMemoryTracker.
Section Bound.
Context {C D : Type}.
Variable P : EventTracker.Platform.
Variable strategy : BaseStrategy C D.
Variable config : TrackerConfig.

(** [this.storage.track(key, eventData, this.config, this.strategy)]. *)
Definition storageTrack (st : InMemoryAdapter.State C D)
    (nowAdapter nowStrategy : num) (k : string) (eventData : EventData)
    : (Thrown + TrackResult C D) * InMemoryAdapter.State C D :=
  let '(result, st') :=
    InMemoryAdapter.track strategy st nowAdapter nowStrategy k eventData
      config in
  (inr result, st').

Definition trackEvent (st : InMemoryAdapter.State C D)
    (nowAdapter nowStrategy : num) (category id details : JsValue) :=
  EventTracker.trackEvent P st (storageTrack st nowAdapter nowStrategy)
    category id details.

Definition processDeferredEvents
    (processor : option (EventTracker.Processor C D))
    (maxRetries retryDelay : JsNumber) (errorListener : bool)
    (st : InMemoryAdapter.State C D) (now : num) (fuel : nat) :=
  EventTracker.processDeferredEvents processor maxRetries retryDelay
    errorListener st InMemoryAdapter.findDueDeferred
    InMemoryAdapter.popDueDeferred now fuel.

Definition updateConfig (mergeConfig : C -> JsValue -> C)
    (st : InMemoryAdapter.State C D) (category id newConfig : JsValue) :=
  EventTracker.updateConfig P st InMemoryAdapter.update InMemoryAdapter.get
    mergeConfig category id newConfig.
End Bound.
End InMemoryTracker.

Module RedisTracker.
Definition trackEvent (P : EventTracker.Platform)
    (strategy : RedisAdapter.StrategyObject) (config : TrackerConfig)
    (st : RedisAdapter.State) (now : num) (category id details : JsValue) :=
  EventTracker.trackEvent P st
    (fun k eventData => RedisAdapter.track strategy st now k eventData config)
    category id details.
End RedisTracker.

(** ** Runs and specification predicates *)

Module Run.
(** One call of [trackEvent] as seen from outside: the outcome, the reason
    reported, the count in the returned record and the count stored under
    the identity afterwards. *)
Record Observation : Type := {
  seen : Outcome;
  why : option string;
  returnedCount : option num;
  storedCount : option num
}.

Section Sequence.
Context {C D : Type}.
Variable P : EventTracker.Platform.
Variable strategy : BaseStrategy C D.
Variable config : TrackerConfig.

(** Track the same event once per pair of clock readings. *)
Fixpoint observe (st : InMemoryAdapter.State C D)
    (category id details : JsValue) (readings : list (num * num))
    : list (Thrown + Observation) :=
  match readings with
  | [] => []
  | (nowAdapter, nowStrategy) :: rest =>
      match InMemoryTracker.trackEvent P strategy config st nowAdapter
              nowStrategy category id details with
      | inl thrown => [inl thrown]
      | inr (result, _, st') =>
          inr {| seen := EventTracker.type result;
                 why := EventTracker.ignoreReason result;
                 returnedCount := count <$> EventTracker.data result;
                 storedCount :=
                   match EventTracker.generateCompositeKey P category id with
                   | inr k => count <$> InMemoryAdapter.get st' k
                   | inl _ => None
                   end |}
          :: observe st' category id details rest
      end
  end.

(** One call of [adapter.track]: the two clock readings, the key and the
    event. *)
Record Step : Type := {
  nowAdapter : num;
  nowStrategy : num;
  stepKey : string;
  stepEvent : EventData
}.

Definition step (st : InMemoryAdapter.State C D) (s : Step)
    : InMemoryAdapter.State C D :=
  snd (InMemoryAdapter.track strategy st (nowAdapter s) (nowStrategy s)
         (stepKey s) (stepEvent s) config).

Definition run (st : InMemoryAdapter.State C D) (steps : list Step)
    : InMemoryAdapter.State C D :=
  fold_left step steps st.

(** The record stored under [k] is live for the event and carries the
    event's fingerprint: [track] will not reinitialize it. *)
Definition fresh (st : InMemoryAdapter.State C D) (now : num) (k : string)
    (eventData : EventData) : Prop :=
  forall r, InMemoryAdapter.events st !! k = Some r ->
            now <= expiresAt r /\ detailsHash r = ev_detailsHash eventData.

(** No step of the run reinitializes the record of [k]: the run stays
    within one record lifetime. *)
Fixpoint oneLifetime (k : string) (st : InMemoryAdapter.State C D)
    (steps : list Step) : Prop :=
  match steps with
  | [] => True
  | s :: rest =>
      (stepKey s = k -> fresh st (nowAdapter s) k (stepEvent s))
      /\ oneLifetime k (step st s) rest
  end.

(** The already-deferred rule, for the in-process path: an event on a
    live deferred record with the same details is ignored with reason
    [already_deferred], refreshes [expiresAt] and leaves [count] and
    [lastEventTime] alone. *)
Definition alreadyDeferredRule : Prop :=
  forall (st : InMemoryAdapter.State C D) (nowA nowS : num)
         (c i : string) (d : JsValue) (k : string) (r : EventRecord C D),
    EventTracker.generateCompositeKey P (JsString c) (JsString i) = inr k ->
    InMemoryAdapter.events st !! k = Some r ->
    deferred r = true ->
    nowA <= expiresAt r ->
    detailsHash r = EventTracker.generateDetailsHash P d ->
    exists result emitted st' r',
      InMemoryTracker.trackEvent P strategy config st nowA nowS
        (JsString c) (JsString i) d = inr (result, emitted, st')
      /\ EventTracker.type result = Ignored
      /\ EventTracker.ignoreReason result = Some "already_deferred"
      /\ InMemoryAdapter.events st' !! k = Some r'
      /\ count r' = count r
      /\ lastEventTime r' = lastEventTime r
      /\ expiresAt r' == nowS + tc_expireTime config.

(** Monotone count: an accepted event on a record that is not
    reinitialized never lowers the stored count. *)
Definition countNeverDrops : Prop :=
  forall (st : InMemoryAdapter.State C D) (nowA nowS : num) (k : string)
         (eventData : EventData) (r : EventRecord C D)
         (result : TrackResult C D) (st' : InMemoryAdapter.State C D),
    InMemoryAdapter.events st !! k = Some r ->
    fresh st nowA k eventData ->
    InMemoryAdapter.track strategy st nowA nowS k eventData config
      = (result, st') ->
    outcome result <> Ignored ->
    exists r', InMemoryAdapter.events st' !! k = Some r'
               /\ count r <= count r'.

(** The key limit as a rule on every new-or-reinitialized record. *)
Definition keyLimitOnEveryReset : Prop :=
  forall (st : InMemoryAdapter.State C D) (nowA nowS : num) (k : string)
         (eventData : EventData),
    InMemoryAdapter.priorRecord st nowA k eventData = None ->
    0 < tc_maxKeys config ->
    tc_maxKeys config <= Num.of_nat (InMemoryAdapter.size st) ->
    InMemoryAdapter.track strategy st nowA nowS k eventData config
      = ({| outcome := Ignored; record := None;
            reason := Some "key_limit_reached" |}, st).
End Sequence.

Section Retries.
Context {C D : Type}.
Variable maxRetries : JsNumber.
Variable retryDelay : JsNumber.
Variable batch : list (EventRecord C D).

(** The [retry] notification, numbered from 1, and the sleep that follow
    the failure of attempt [k], both with the delay of attempt [k]. *)
Definition backoff (k : nat) : list (EventTracker.Effect C D) :=
  [ EventTracker.Emit
      (EventTracker.EmitRetry (k + 1) maxRetries
         (JsNumberOps.scale retryDelay (Num.pow2 k)) batch);
    EventTracker.Sleep (JsNumberOps.scale retryDelay (Num.pow2 k)) ].

(** A failed attempt that is retried: the call, then the backoff. *)
Definition failedAttempt (k : nat) : list (EventTracker.Effect C D) :=
  EventTracker.Invoke k batch :: backoff k.

(** The last attempt of a run in which every call fails, for a finite
    [maxRetries = q >= 0]: the largest whole number that is at most [q]. *)
Definition lastAttempt (q : Q) : nat := Z.to_nat (Qfloor q).

(** What such a run does up to its last failure: the attempts before the
    last one are retried; the last call is followed by a backoff only when
    [maxRetries] is not a whole number. *)
Definition failedAttempts (q : Q) : list (EventTracker.Effect C D) :=
  (flat_map failedAttempt (seq 0 (lastAttempt q))
   ++ EventTracker.Invoke (lastAttempt q) batch
      :: (if Qle_bool q (Num.of_nat (lastAttempt q)) then []
          else backoff (lastAttempt q)))%list.

(** What a run does when the first [failures] attempts fail and the next
    one succeeds: the retried attempts, the successful call, then one
    [processed] notification per record of the batch, in order. *)
Definition recoveredTrace (failures : nat) : list (EventTracker.Effect C D) :=
  (flat_map failedAttempt (seq 0 failures)
   ++ EventTracker.Invoke failures batch
      :: map (fun event => EventTracker.Emit (EventTracker.EmitProcessed event))
           batch)%list.
End Retries.

(** The number of [process_failed] notifications in a trace. *)
Definition processFailedCount {C D : Type}
    (effects : list (EventTracker.Effect C D)) : nat :=
  List.length
    (List.filter
       (fun effect =>
          match effect with
          | EventTracker.Emit (EventTracker.EmitProcessFailed _ _ _) => true
          | _ => false
          end)
       effects).

(** The number of processor calls in a trace. *)
Definition invocationCount {C D : Type}
    (effects : list (EventTracker.Effect C D)) : nat :=
  List.length
    (List.filter
       (fun effect =>
          match effect with
          | EventTracker.Invoke _ _ => true
          | _ => false
          end)
       effects).

(** The number of [error] notifications in a trace. *)
Definition errorCount {C D : Type}
    (effects : list (EventTracker.Effect C D)) : nat :=
  List.length
    (List.filter
       (fun effect =>
          match effect with
          | EventTracker.Emit (EventTracker.EmitError _) => true
          | _ => false
          end)
       effects).

(** A value that is a non-empty string. *)
Definition nonEmptyString (v : JsValue) : Prop :=
  exists s, v = JsString s /\ s <> "".

(** Rejection with a type error of every call whose category or id is not
    a non-empty string, whatever the adapter. *)
Definition typeErrorOnBadIdentity (P : EventTracker.Platform) : Prop :=
  forall (C D Store : Type) (storage : Store)
         (storageTrack : string -> EventData ->
                         (Thrown + TrackResult C D) * Store)
         (category id details : JsValue),
    ~ (nonEmptyString category /\ nonEmptyString id) ->
    exists message,
      EventTracker.trackEvent P storage storageTrack category id details
        = inl (TypeError message).

(** A supplied option that is not a number: any value but [undefined]
    whose type is not [number], or [NaN]. *)
Definition notANumber (v : JsValue) : Prop :=
  v <> JsUndefined /\ (typeof v <> "number" \/ v = JsNum JsNaN).

(** A number below zero. *)
Definition negativeNumber (v : JsValue) : Prop :=
  exists n, v = JsNum n /\ JsNumberOps.isNegative n = true.

(** An option the validation lets through: absent, or a number that is
    neither [NaN] nor negative. *)
Definition acceptable (v : JsValue) : Prop :=
  v = JsUndefined
  \/ exists n, v = JsNum n /\ JsNumberOps.isNaN n = false
               /\ JsNumberOps.isNegative n = false.

(** An option that is a finite number, zero or more. *)
Definition finiteNonNegative (v : JsValue) : Prop :=
  exists q, v = JsNum (JsFinite q) /\ 0 <= q.

(** Every numeric option an accepted configuration supplies is a finite
    non-negative number. *)
Definition acceptsOnlyFinite : Prop :=
  forall (options : EventTracker.Options) (t : EventTracker.Constructed),
    EventTracker.constructor options = inr t ->
    forall field v, In (field, v) (EventTracker.numericFields options) ->
                    v <> JsUndefined -> finiteNonNegative v.
End Run.

(** ** Worked examples: fixed inputs *)

Module Example.
(** A platform for the worked examples.  The digest is the identity on its
    input, which keeps distinct identities distinct as SHA-256 does on the
    inputs used here; serialization returns a fixed text. *)
Definition platform : EventTracker.Platform :=
  {| EventTracker.sha256hex := fun text => text;
     EventTracker.stableStringify := fun _ => Some "{}" |}.

(** [{ limit: 2, deferInterval: 100, expireTime: 200 }], [maxKeys] at its
    default. *)
Definition trackerConfig : TrackerConfig :=
  {| tc_limit := 2; tc_deferInterval := 100; tc_expireTime := 200;
     tc_maxKeys := 0 |}.

Definition event (hash : string) : EventData :=
  {| ev_category := "auth"; ev_id := "login_fail";
     ev_details := JsObject JsNoProps; ev_detailsHash := hash |}.

(** The same event with [null] for its details. *)
Definition eventWithNull : EventData :=
  {| ev_category := "auth"; ev_id := "login_fail";
     ev_details := JsNull; ev_detailsHash := "" |}.

(** The same tracker with [maxKeys: 1]. *)
Definition limitedConfig : TrackerConfig :=
  {| tc_limit := 2; tc_deferInterval := 100; tc_expireTime := 200;
     tc_maxKeys := 1 |}.

(** The record of [auth:login_fail] once the third event at time 1000 has
    deferred it. *)
Definition deferredRecord : EventRecord SimpleCounterStrategy.Config unit :=
  {| key := "auth:login_fail"; category := "auth"; id := "login_fail";
     details := JsObject JsNoProps; detailsHash := ""; count := 3;
     lastEventTime := 1000; expiresAt := 1200; deferred := true;
     scheduledSendAt := Some 1100;
     config := {| SimpleCounterStrategy.limit := 2;
                  SimpleCounterStrategy.deferInterval := 100 |};
     strategyData := tt |}.

(** A store holding that record and nothing else. *)
Definition deferredStore : InMemoryAdapter.State SimpleCounterStrategy.Config unit :=
  InMemoryAdapter.set InMemoryAdapter.empty "auth:login_fail" deferredRecord.

(** The record of [auth:login_fail] after two events at time 1000, with the
    given details fingerprint. *)
Definition activeRecord (hash : string)
    : EventRecord SimpleCounterStrategy.Config unit :=
  {| key := "auth:login_fail"; category := "auth"; id := "login_fail";
     details := JsObject JsNoProps; detailsHash := hash; count := 2;
     lastEventTime := 1000; expiresAt := 1200; deferred := false;
     scheduledSendAt := None;
     config := {| SimpleCounterStrategy.limit := 2;
                  SimpleCounterStrategy.deferInterval := 100 |};
     strategyData := tt |}.

Definition activeStore (hash : string)
    : InMemoryAdapter.State SimpleCounterStrategy.Config unit :=
  InMemoryAdapter.set InMemoryAdapter.empty "auth:login_fail" (activeRecord hash).

(** The same identity in Redis: the hash the track script has written for
    the second of two events at time 1000, under the given strategy state. *)
Definition activeHash (hash : string) (isDeferred : bool)
    (data : RedisAdapter.ScriptData) (blob : RedisAdapter.ConfigBlob)
    : RedisAdapter.Hash :=
  {| RedisAdapter.h_key := "auth:login_fail";
     RedisAdapter.h_category := "auth";
     RedisAdapter.h_id := "login_fail";
     RedisAdapter.h_details := JsObject JsNoProps;
     RedisAdapter.h_detailsHash := hash;
     RedisAdapter.h_count := 2;
     RedisAdapter.h_lastEventTime := 1000;
     RedisAdapter.h_expiresAt := 1200;
     RedisAdapter.h_deferred := isDeferred;
     RedisAdapter.h_scheduledSendAt := if isDeferred then 1100 else 0;
     RedisAdapter.h_strategyData := Some data;
     RedisAdapter.h_config := blob |}.

Definition redisStore (h : RedisAdapter.Hash) : RedisAdapter.State :=
  {| RedisAdapter.hashes := {[ "event-tracker:auth:login_fail" := h ]};
     RedisAdapter.expireAt := {[ "event-tracker:auth:login_fail" := 2 ]};
     RedisAdapter.sizeCounter := 1;
     RedisAdapter.deferredSet :=
       if RedisAdapter.h_deferred h
       then {[ "auth:login_fail" := RedisAdapter.h_scheduledSendAt h ]}
       else ∅ |}.

Definition simpleBlob : RedisAdapter.ConfigBlob :=
  {| RedisAdapter.cb_limit := Some 2;
     RedisAdapter.cb_deferInterval := Some 100;
     RedisAdapter.cb_bucketSize := None;
     RedisAdapter.cb_refillRate := None;
     RedisAdapter.cb_windowSize := None |}.

(** A tracker with a sliding window of one event per second. *)
Definition slidingConfig : TrackerConfig :=
  {| tc_limit := 5; tc_deferInterval := 500; tc_expireTime := 5000;
     tc_maxKeys := 0 |}.

(** Its record of [auth:login_fail], stored under the composite key [k],
    after an event at time 0 (immediate) and one at time 10 (deferred). *)
Definition slidingDeferredRecord (k : string)
    : EventRecord SlidingWindowStrategy.Config SlidingWindowStrategy.Data :=
  {| key := k; category := "auth"; id := "login_fail";
     details := JsObject JsNoProps; detailsHash := ""; count := 1;
     lastEventTime := 10; expiresAt := 5010; deferred := true;
     scheduledSendAt := Some 510;
     config := {| SlidingWindowStrategy.limit := 1;
                  SlidingWindowStrategy.windowSize := 1000;
                  SlidingWindowStrategy.deferInterval := 500 |};
     strategyData := {| SlidingWindowStrategy.currentCount := 1;
                        SlidingWindowStrategy.previousCount := 0;
                        SlidingWindowStrategy.windowStart := 0 |} |}.

Definition slidingDeferredStore (k : string)
    : InMemoryAdapter.State SlidingWindowStrategy.Config SlidingWindowStrategy.Data :=
  InMemoryAdapter.set InMemoryAdapter.empty k (slidingDeferredRecord k).

(** A token-bucket record ([bucketSize] 5, 10 tokens per second) holding the
    given tokens, last refilled at time 1000, deferred or not. *)
Definition bucketRecord (left : num) (isDeferred : bool)
    : EventRecord TokenBucketStrategy.Config TokenBucketStrategy.Data :=
  {| key := "auth:login_fail"; category := "auth"; id := "login_fail";
     details := JsObject JsNoProps; detailsHash := ""; count := 2;
     lastEventTime := 1000; expiresAt := 1200; deferred := isDeferred;
     scheduledSendAt := if isDeferred then Some 1100 else None;
     config := {| TokenBucketStrategy.bucketSize := 5;
                  TokenBucketStrategy.refillRate := 10;
                  TokenBucketStrategy.deferInterval := 100 |};
     strategyData := {| TokenBucketStrategy.tokens := left;
                        TokenBucketStrategy.lastRefill := 1000 |} |}.

Definition bucketBlob : RedisAdapter.ConfigBlob :=
  {| RedisAdapter.cb_limit := None;
     RedisAdapter.cb_deferInterval := Some 100;
     RedisAdapter.cb_bucketSize := Some 5;
     RedisAdapter.cb_refillRate := Some 10;
     RedisAdapter.cb_windowSize := None |}.

Definition bucketData (left : num) : RedisAdapter.ScriptData :=
  {| RedisAdapter.sd_tokens := Some left;
     RedisAdapter.sd_lastRefill := Some 1000;
     RedisAdapter.sd_currentCount := None;
     RedisAdapter.sd_previousCount := None;
     RedisAdapter.sd_windowStart := None |}.

Definition strategyEvent : StrategyEvent :=
  {| se_compositeKey := "auth:login_fail"; se_data := event "" |}.

(** The sliding-window record of [auth:login_fail] (limit 10 per second)
    after three events at time 0. *)
Definition slidingActiveRecord
    : EventRecord SlidingWindowStrategy.Config SlidingWindowStrategy.Data :=
  {| key := "auth:login_fail"; category := "auth"; id := "login_fail";
     details := JsObject JsNoProps; detailsHash := ""; count := 3;
     lastEventTime := 0; expiresAt := 5000; deferred := false;
     scheduledSendAt := None;
     config := {| SlidingWindowStrategy.limit := 10;
                  SlidingWindowStrategy.windowSize := 1000;
                  SlidingWindowStrategy.deferInterval := 500 |};
     strategyData := {| SlidingWindowStrategy.currentCount := 3;
                        SlidingWindowStrategy.previousCount := 0;
                        SlidingWindowStrategy.windowStart := 0 |} |}.

Definition slidingActiveStore
    : InMemoryAdapter.State SlidingWindowStrategy.Config SlidingWindowStrategy.Data :=
  InMemoryAdapter.set InMemoryAdapter.empty "auth:login_fail"
    slidingActiveRecord.

(** A call of [track] for [auth:login_fail] with both clock readings at
    [now]. *)
Definition stepAt (now : num) : Run.Step :=
  {| Run.nowAdapter := now; Run.nowStrategy := now;
     Run.stepKey := "auth:login_fail"; Run.stepEvent := event "" |}.

Definition bucketStore (left : num)
    : InMemoryAdapter.State TokenBucketStrategy.Config TokenBucketStrategy.Data :=
  InMemoryAdapter.set InMemoryAdapter.empty "auth:login_fail"
    (bucketRecord left false).

(** [new EventTracker({ limit, processingInterval })]. *)
Definition options (limit processingInterval : JsValue) : EventTracker.Options :=
  {| EventTracker.o_limit := limit;
     EventTracker.o_deferInterval := JsUndefined;
     EventTracker.o_expireTime := JsUndefined;
     EventTracker.o_maxKeys := JsUndefined;
     EventTracker.o_processingInterval := processingInterval;
     EventTracker.o_maxRetries := JsUndefined;
     EventTracker.o_retryDelay := JsUndefined;
     EventTracker.o_strategy := EventTracker.StrategyAbsent;
     EventTracker.o_processor := JsUndefined |}.

(** [{ ...config, ...newConfig }] for the config snapshot of the simple
    counter and a [newConfig] whose settings are finite numbers. *)
Definition mergeSimple (config : SimpleCounterStrategy.Config)
    (newConfig : JsValue) : SimpleCounterStrategy.Config :=
  {| SimpleCounterStrategy.limit :=
       match EventTracker.getProp newConfig "limit" with
       | JsNum (JsFinite q) => q
       | _ => SimpleCounterStrategy.limit config
       end;
     SimpleCounterStrategy.deferInterval :=
       match EventTracker.getProp newConfig "deferInterval" with
       | JsNum (JsFinite q) => q
       | _ => SimpleCounterStrategy.deferInterval config
       end |}.

(** [{ limit: 7 }]. *)
Definition raisedLimit : JsValue :=
  JsObject (JsProp "limit" (JsNum (JsFinite 7)) JsNoProps).
End Example.

(** ** Sessions on the in-memory adapter *)

Module Session.
Section Calls.
Context {C D : Type}.
Variable strategy : BaseStrategy C D.
Variable config : TrackerConfig.

(** The calls that change an [InMemoryAdapter]; [CallPurgeExpired] is one
    tick of the purge loop. *)
Inductive Call : Type :=
| CallSet (k : string) (r : EventRecord C D)
| CallDelete (k : string)
| CallUpdate (k : string) (updateFn : EventRecord C D -> EventRecord C D)
| CallTrack (nowAdapter nowStrategy : num) (k : string) (eventData : EventData)
| CallPopDueDeferred (timestamp : num)
| CallPurgeExpired (now : num).

Definition perform (st : InMemoryAdapter.State C D) (c : Call)
    : InMemoryAdapter.State C D :=
  match c with
  | CallSet k r => InMemoryAdapter.set st k r
  | CallDelete k => InMemoryAdapter.delete st k
  | CallUpdate k updateFn => snd (InMemoryAdapter.update st k updateFn)
  | CallTrack nowAdapter nowStrategy k eventData =>
      snd (InMemoryAdapter.track strategy st nowAdapter nowStrategy k
             eventData config)
  | CallPopDueDeferred timestamp =>
      snd (InMemoryAdapter.popDueDeferred st timestamp)
  | CallPurgeExpired now => InMemoryAdapter.purgeExpired st now
  end.

(** The adapter after a sequence of calls on a new instance. *)
Definition session (calls : list Call) : InMemoryAdapter.State C D :=
  fold_left perform calls InMemoryAdapter.empty.

(** The calls the tracker engine makes: everything but a direct [set]. *)
Definition byTracker (c : Call) : bool :=
  match c with CallSet _ _ => false | _ => true end.
End Calls.

Arguments Call : clear implicits.
End Session.

(** ** Calls of [track] in flight together

    [InMemoryAdapter.track] gives up control at [await this._acquireLock(key)]
    and again at [await strategy.track(...)].  By the second [await] it
    has read the store, applied the key limit and had the strategy compute
    the next record; the write to [this.events] follows when it resumes.
    The lock is per key, so calls on different keys that were started
    together (without awaiting one before starting the next) each reach the
    second [await] before any of them writes. *)

Module InFlight.
Section Calls.
Context {C D : Type}.
Variable strategy : BaseStrategy C D.
Variable config : TrackerConfig.

(** What a call holds at [await strategy.track(...)]: it has returned
    already, refused by the key limit, or it has the outcome and the record
    it is going to write. *)
Inductive Decision : Type :=
| Refused
| Decided (outcome : Outcome) (updatedRecord : EventRecord C D).

(** [track] from the lock to [await strategy.track(...)]. *)
Definition decide (st : InMemoryAdapter.State C D)
    (nowAdapter nowStrategy : num) (k : string) (eventData : EventData)
    : Decision :=
  let record := InMemoryAdapter.priorRecord st nowAdapter k eventData in
  if match record with Some _ => false | None => true end
     && Num.gt (tc_maxKeys config) 0
     && Num.ge (Num.of_nat (InMemoryAdapter.size st)) (tc_maxKeys config)
     && negb (InMemoryAdapter.has st k)
  then Refused
  else
    let '(outcome, updatedRecord) :=
      track config nowStrategy record
        {| se_compositeKey := k; se_data := eventData |} in
    Decided outcome updatedRecord.

(** [track] from there on: "save back to memory", on the store as it is
    by then. *)
Definition write (st : InMemoryAdapter.State C D) (k : string)
    (decision : Decision) : TrackResult C D * InMemoryAdapter.State C D :=
  match decision with
  | Refused =>
      ({| outcome := Ignored; record := None;
          reason := Some "key_limit_reached" |}, st)
  | Decided outcome updatedRecord =>
      ({| outcome := outcome; record := Some updatedRecord; reason := None |},
       InMemoryAdapter.set st k updatedRecord)
  end.

(** The arguments of one call and its two clock readings. *)
Record Started : Type := {
  nowAdapter : num;
  nowStrategy : num;
  startedKey : string;
  startedEvent : EventData
}.

Definition decideCall (st : InMemoryAdapter.State C D) (call : Started)
    : Decision :=
  decide st (nowAdapter call) (nowStrategy call) (startedKey call)
    (startedEvent call).

(** Calls on different keys started together: each decides on the store
    as it was when they started, then the writes follow in the order of
    the calls.  The results are in that order too. *)
Definition together (st : InMemoryAdapter.State C D) (calls : list Started)
    : list (TrackResult C D) * InMemoryAdapter.State C D :=
  (map (fun call => fst (write st (startedKey call) (decideCall st call)))
     calls,
   fold_left
     (fun stored call =>
        snd (write stored (startedKey call) (decideCall st call)))
     calls st).
End Calls.

Arguments Decision : clear implicits.
End InFlight.

(** ** One record under consecutive events *)

Module Replay.
Section Strategy.
Context {C D : Type}.
Variable strategy : BaseStrategy C D.
Variable tracker : TrackerConfig.
Variable eventData : StrategyEvent.

(** [strategy.track] called once per clock reading for the same event,
    each call on the record the call before returned: what the adapter
    does for one identity while the record neither expires nor changes
    its details. *)
Fixpoint replay (prior : option (EventRecord C D)) (readings : list num)
    : list Outcome * option (EventRecord C D) :=
  match readings with
  | [] => ([], prior)
  | now :: rest =>
      let '(outcome, updatedRecord) := track tracker now prior eventData in
      let '(outcomes, final) := replay (Some updatedRecord) rest in
      (outcome :: outcomes, final)
  end.
End Strategy.
End Replay.

(** ** What every strategy promises the adapter *)

Module Contract.
Section Step.
Context {C D : Type}.

(** The identity of a record: the fields no strategy rewrites on an
    existing record. *)
Definition sameIdentity (p r : EventRecord C D) : Prop :=
  key r = key p /\ category r = category p /\ id r = id p
  /\ details r = details p /\ detailsHash r = detailsHash p
  /\ config r = config p.

(** One call [strategy.track(prior, eventData)] at time [now] that returned
    [outcome] and [r]. *)
Definition kept (tracker : TrackerConfig) (now : num)
    (prior : option (EventRecord C D)) (eventData : StrategyEvent)
    (outcome : Outcome) (r : EventRecord C D) : Prop :=
  expiresAt r == now + tc_expireTime tracker
  /\ (deferred r = true <-> outcome <> Immediate)
  /\ (outcome = Deferred -> exists s, scheduledSendAt r = Some s)
  /\ (outcome <> Ignored -> lastEventTime r = now)
  /\ (outcome = Ignored ->
      exists p, prior = Some p /\ deferred p = true
                /\ count r = count p /\ lastEventTime r = lastEventTime p
                /\ scheduledSendAt r = scheduledSendAt p)
  /\ (forall p, prior = Some p -> sameIdentity p r)
  /\ (prior = None ->
      key r = se_compositeKey eventData
      /\ category r = ev_category (se_data eventData)
      /\ id r = ev_id (se_data eventData)
      /\ details r = ev_details (se_data eventData)
      /\ detailsHash r = ev_detailsHash (se_data eventData)
      /\ count r = 1).
End Step.
End Contract.

(** ** Sessions on the Redis adapter *)

Module RedisSession.
(** The calls that run a script or a transaction against the keyspace.
    Redis expiring a key on its own is not among them. *)
Inductive Call : Type :=
| CallTrack (strategy : RedisAdapter.StrategyObject) (now : num) (k : string)
            (eventData : EventData) (trackerConfig : TrackerConfig)
| CallPopDueDeferred (timestamp : num)
| CallDelete (k : string).

Definition perform (st : RedisAdapter.State) (c : Call) : RedisAdapter.State :=
  match c with
  | CallTrack strategy now k eventData trackerConfig =>
      snd (RedisAdapter.track strategy st now k eventData trackerConfig)
  | CallPopDueDeferred timestamp =>
      snd (RedisAdapter.popDueDeferred st timestamp)
  | CallDelete k => RedisAdapter.delete st k
  end.

(** The keyspace after a sequence of calls on an empty database. *)
Definition session (calls : list Call) : RedisAdapter.State :=
  fold_left perform calls RedisAdapter.empty.
End RedisSession.

(** ** The two adapters side by side *)

Module Agreement.
(** One tracked event: the clock reading, the composite key and the event. *)
Record Event : Type := {
  at_ : num;
  eventKey : string;
  eventData : EventData
}.

Section SimpleCounter.
Variable trackerConfig : TrackerConfig.

(** The answers of [InMemoryAdapter.track] with a [SimpleCounterStrategy]
    to a sequence of events, the adapter and the strategy reading the same
    clock. *)
Fixpoint inMemoryAnswers
    (st : InMemoryAdapter.State SimpleCounterStrategy.Config unit)
    (events : list Event)
    : list (TrackResult SimpleCounterStrategy.Config unit) :=
  match events with
  | [] => []
  | e :: rest =>
      let '(result, st') :=
        InMemoryAdapter.track SimpleCounterStrategy.strategy st (at_ e) (at_ e)
          (eventKey e) (eventData e) trackerConfig in
      result :: inMemoryAnswers st' rest
  end.

(** The answers of [RedisAdapter.track] with the same strategy to the same
    events. *)
Fixpoint redisAnswers (st : RedisAdapter.State) (events : list Event)
    : list (Thrown + TrackResult RedisAdapter.ConfigBlob RedisAdapter.ScriptData) :=
  match events with
  | [] => []
  | e :: rest =>
      let '(result, st') :=
        RedisAdapter.track RedisAdapter.simpleCounter st (at_ e) (eventKey e)
          (eventData e) trackerConfig in
      result :: redisAnswers st' rest
  end.
End SimpleCounter.

(** Two answers that tell the caller the same: outcome, reason, and the
    count of the returned record. *)
Definition sameAnswer {C D C' D' : Type} (a : TrackResult C D)
    (b : Thrown + TrackResult C' D') : Prop :=
  match b with
  | inl _ => False
  | inr b =>
      outcome a = outcome b /\ reason a = reason b
      /\ match record a, record b with
         | Some r, Some r' => count r == count r'
         | None, None => True
         | _, _ => False
         end
  end.

(** A record of the in-memory adapter and the hash of the same identity in
    Redis that the simple counter cannot tell apart. *)
Definition alike (trackerConfig : TrackerConfig)
    (r : EventRecord SimpleCounterStrategy.Config unit)
    (h : RedisAdapter.Hash) : Prop :=
  (exists n : nat, count r == Num.of_nat n)
  /\ count r == RedisAdapter.h_count h
  /\ deferred r = RedisAdapter.h_deferred h
  /\ expiresAt r == RedisAdapter.h_expiresAt h
  /\ detailsHash r = RedisAdapter.h_detailsHash h
  /\ SimpleCounterStrategy.limit (config r) == tc_limit trackerConfig.

(** The two stores hold the same identities in the same condition. *)
Definition inStep (trackerConfig : TrackerConfig)
    (stM : InMemoryAdapter.State SimpleCounterStrategy.Config unit)
    (stR : RedisAdapter.State) : Prop :=
  RedisAdapter.sizeCounter stR = Z.of_nat (InMemoryAdapter.size stM)
  /\ forall k : string,
       match InMemoryAdapter.events stM !! k,
             RedisAdapter.hashes stR !! RedisAdapter._getRecordKey k with
       | Some r, Some h => alike trackerConfig r h
       | None, None => True
       | _, _ => False
       end.
End Agreement.

(** ** How far a record is from its limit *)

Module Capacity.
(** The store holds fewer than [maxKeys + 1] keys. *)
Definition bounded {C D : Type} (config : TrackerConfig)
    (st : InMemoryAdapter.State C D) : Prop :=
  Num.of_nat (InMemoryAdapter.size st) < tc_maxKeys config + 1.

(** Simple counter: [c] events have been counted on the record and none
    was deferred; no record yet means no event yet. *)
Definition counted (limit : nat)
    (prior : option (EventRecord SimpleCounterStrategy.Config unit))
    (c : nat) : Prop :=
  match prior with
  | None => c = 0%nat
  | Some r => deferred r = false /\ count r == Num.of_nat c
              /\ SimpleCounterStrategy.limit (config r) == Num.of_nat limit
  end.

(** Token bucket: the record was last refilled at [now] and holds [left]
    tokens of a bucket of size [bucket]. *)
Definition holds (bucket : nat) (now : num)
    (r : EventRecord TokenBucketStrategy.Config TokenBucketStrategy.Data)
    (left : Q) : Prop :=
  TokenBucketStrategy.tokens (strategyData r) == left
  /\ TokenBucketStrategy.lastRefill (strategyData r) = now
  /\ TokenBucketStrategy.bucketSize (config r) == Num.of_nat bucket.

(** Sliding window: the record's window began at [start], holds [c]
    events and has no previous window to weigh in. *)
Definition filled (limit : nat) (windowSize start : num)
    (r : EventRecord SlidingWindowStrategy.Config SlidingWindowStrategy.Data)
    (c : nat) : Prop :=
  SlidingWindowStrategy.currentCount (strategyData r) == Num.of_nat c
  /\ SlidingWindowStrategy.previousCount (strategyData r) == 0
  /\ SlidingWindowStrategy.windowStart (strategyData r) = start
  /\ SlidingWindowStrategy.limit (config r) == Num.of_nat limit
  /\ SlidingWindowStrategy.windowSize (config r) = windowSize.
End Capacity.

(** ** Invariants of the stores *)

Module Invariant.
(** The secondary index of the in-memory adapter is in step with the
    records: a key is in [deferredKeys] exactly when a record is stored
    under it and that record is deferred. *)
Definition indexed {C D : Type} (st : InMemoryAdapter.State C D) : Prop :=
  forall k : string,
    k ∈ InMemoryAdapter.deferredKeys st
    <-> exists r, InMemoryAdapter.events st !! k = Some r /\ deferred r = true.

(** The bookkeeping keys of the Redis adapter are in step with the record
    hashes: the size counter is the number of hashes, and a key is a
    member of the deferred set, with its schedule as score, exactly when
    its hash says deferred. *)
Definition mirrored (st : RedisAdapter.State) : Prop :=
  RedisAdapter.sizeCounter st = Z.of_nat (size (RedisAdapter.hashes st))
  /\ forall (k : string) (s : num),
       RedisAdapter.deferredSet st !! k = Some s
       <-> exists h,
             RedisAdapter.hashes st !! RedisAdapter._getRecordKey k = Some h
             /\ RedisAdapter.h_deferred h = true
             /\ RedisAdapter.h_scheduledSendAt h = s.
End Invariant.

(** * Properties *)

(** ** Arithmetic of [num] *)

Lemma add_spec (a b : num) : Num.add a b == a + b.
Proof. unfold Num.add. apply Qred_correct. Qed.

Lemma sub_spec (a b : num) : Num.sub a b == a - b.
Proof. unfold Num.sub. apply Qred_correct. Qed.

Lemma mul_spec (a b : num) : Num.mul a b == a * b.
Proof. unfold Num.mul. apply Qred_correct. Qed.

Lemma div_spec (a b : num) : Num.div a b == a / b.
Proof. unfold Num.div. apply Qred_correct. Qed.

Lemma orZero_spec (a : num) : Num.orZero a == a.
Proof.
  unfold Num.orZero. destruct (Qeq_bool a 0) eqn:E; [|reflexivity].
  apply Qeq_bool_eq in E. symmetry. exact E.
Qed.

Lemma gt_false_iff (a b : num) : Num.gt a b = false <-> a <= b.
Proof.
  unfold Num.gt. rewrite negb_false_iff. apply Qle_bool_iff.
Qed.

Lemma gt_true_iff (a b : num) : Num.gt a b = true <-> b < a.
Proof.
  unfold Num.gt. rewrite negb_true_iff. split.
  - intros E. apply Qnot_le_lt. intros H. apply Qle_bool_iff in H. congruence.
  - intros H. destruct (Qle_bool a b) eqn:E; [|reflexivity].
    apply Qle_bool_iff in E. exfalso. exact (Qlt_not_le _ _ H E).
Qed.

Lemma ge_true_iff (a b : num) : Num.ge a b = true <-> b <= a.
Proof. unfold Num.ge. apply Qle_bool_iff. Qed.

Lemma ge_false_iff (a b : num) : Num.ge a b = false <-> a < b.
Proof.
  unfold Num.ge. split.
  - intros E. apply Qnot_le_lt. intros H. apply Qle_bool_iff in H. congruence.
  - intros H. destruct (Qle_bool b a) eqn:E; [|reflexivity].
    apply Qle_bool_iff in E. exfalso. exact (Qlt_not_le _ _ H E).
Qed.

Lemma lt_true_iff (a b : num) : Num.lt a b = true <-> a < b.
Proof. unfold Num.lt. apply (gt_true_iff b a). Qed.

Lemma min_spec (a b : num) : Num.min a b == Qmin a b.
Proof.
  unfold Num.min. destruct (Qle_bool a b) eqn:E.
  - apply Qle_bool_iff in E. symmetry. apply Q.min_l. exact E.
  - symmetry. apply Q.min_r. apply Qlt_le_weak. apply (gt_true_iff a b).
    unfold Num.gt. rewrite E. reflexivity.
Qed.

Lemma max_spec (a b : num) : Num.max a b == Qmax a b.
Proof.
  unfold Num.max. destruct (Qle_bool a b) eqn:E.
  - apply Qle_bool_iff in E. symmetry. apply Q.max_r. exact E.
  - symmetry. apply Q.max_l. apply Qlt_le_weak. apply (gt_true_iff a b).
    unfold Num.gt. rewrite E. reflexivity.
Qed.

Lemma pow2_spec (k : nat) : Num.pow2 k == 2 ^ Z.of_nat k.
Proof.
  unfold Num.pow2. rewrite Zpower_Qpower by lia. reflexivity.
Qed.

Lemma count_step_le (c : num) : c <= Num.add c 1.
Proof. rewrite add_spec. lra. Qed.

(** ** Identity validation in [trackEvent] *)

Lemma generateCompositeKey_not_string (P : EventTracker.Platform)
    (category id : JsValue) :
  typeof category <> "string" \/ typeof id <> "string" ->
  EventTracker.generateCompositeKey P category id
    = inl (TypeError "category and id must be strings.").
Proof.
  intros [H | H]; destruct category, id; simpl in *;
    try reflexivity; exfalso; apply H; reflexivity.
Qed.

Lemma generateCompositeKey_empty (P : EventTracker.Platform) (c i : string) :
  c = "" \/ i = "" ->
  EventTracker.generateCompositeKey P (JsString c) (JsString i)
    = inl (Error "category and id cannot be empty.").
Proof.
  intros [-> | ->]; simpl.
  - reflexivity.
  - destruct (negb (negb (String.eqb c ""))); reflexivity.
Qed.

Lemma generateCompositeKey_ok (P : EventTracker.Platform) (c i : string) :
  c <> "" -> i <> "" ->
  EventTracker.generateCompositeKey P (JsString c) (JsString i)
    = inr (EventTracker.sha256hex P (c ++ ":" ++ i)).
Proof.
  intros Hc Hi. unfold EventTracker.generateCompositeKey. simpl.
  apply String.eqb_neq in Hc, Hi. rewrite Hc, Hi. reflexivity.
Qed.

(** C9, as stated, fails, whatever the digest: an empty category is
    rejected with a plain [Error], which is not a type error. *)
Lemma empty_category_is_not_a_type_error :
  ~ exists P, Run.typeErrorOnBadIdentity P.
Proof.
  intros [P H].
  destruct (H unit unit unit tt
              (fun _ _ => (inl (Error "unreachable"), tt))
              (JsString "") (JsString "id") JsUndefined) as [message E].
  - intros [[s [Es Hs]] _]. injection Es as <-. apply Hs. reflexivity.
  - discriminate E.
Qed.

(** C9 (amended).  A call to [trackEvent] whose category or id is not a
    string is rejected with a type error; a call whose category and id are
    strings, one of them empty, is rejected with a plain error.  In both
    cases the adapter is not reached. *)
Theorem trackEvent_rejects_bad_identity
    (P : EventTracker.Platform) (C D Store : Type) (storage : Store)
    (storageTrack : string -> EventData -> (Thrown + TrackResult C D) * Store)
    (category id details : JsValue) :
  (typeof category <> "string" \/ typeof id <> "string" ->
   EventTracker.trackEvent P storage storageTrack category id details
     = inl (TypeError "category and id must be strings."))
  /\ (forall c i, category = JsString c -> id = JsString i ->
      c = "" \/ i = "" ->
      EventTracker.trackEvent P storage storageTrack category id details
        = inl (Error "category and id cannot be empty.")).
Proof.
  split.
  - intros H. unfold EventTracker.trackEvent.
    rewrite (generateCompositeKey_not_string P category id H). reflexivity.
  - intros c i -> -> H. unfold EventTracker.trackEvent.
    rewrite (generateCompositeKey_empty P c i H). reflexivity.
Qed.

Lemma trackEvent_rejects_bad_identity_witness :
  EventTracker.trackEvent Example.platform tt
      (fun _ _ => (@inl Thrown (TrackResult unit unit) (Error "unreachable"), tt))
      JsNull (JsString "id") JsUndefined
    = inl (TypeError "category and id must be strings.")
  /\ EventTracker.trackEvent Example.platform tt
      (fun _ _ => (@inl Thrown (TrackResult unit unit) (Error "unreachable"), tt))
      (JsString "cat") (JsString "") JsUndefined
    = inl (Error "category and id cannot be empty.").
Proof.
  split.
  - apply (proj1 (trackEvent_rejects_bad_identity Example.platform unit unit
                    unit tt _ JsNull (JsString "id") JsUndefined)).
    left. simpl. discriminate.
  - apply (proj2 (trackEvent_rejects_bad_identity Example.platform unit unit
                    unit tt _ (JsString "cat") (JsString "") JsUndefined)
             "cat" "").
    + reflexivity.
    + reflexivity.
    + right. reflexivity.
Defined.

(** ** Constructor validation *)

Lemma validateField_acceptable (field : string) (v : JsValue) :
  Run.acceptable v -> EventTracker.validateField field v = None.
Proof.
  intros [-> | [n [-> [Hnan Hneg]]]]; simpl.
  - reflexivity.
  - rewrite Hnan, Hneg. reflexivity.
Qed.

Lemma validateField_notANumber (field : string) (v : JsValue) :
  Run.notANumber v ->
  EventTracker.validateField field v
    = Some (TypeError (field ++ " must be a number.")).
Proof.
  intros [Hdef [Hty | ->]].
  - destruct v; simpl in *; try reflexivity.
    + exfalso. apply Hdef. reflexivity.
    + exfalso. apply Hty. reflexivity.
  - reflexivity.
Qed.

Lemma validateField_negative (field : string) (v : JsValue) :
  Run.negativeNumber v ->
  EventTracker.validateField field v
    = Some (RangeError (field ++ " must be non-negative.")).
Proof.
  intros [n [-> Hneg]]. simpl. rewrite Hneg.
  destruct n; simpl in *; try reflexivity; discriminate.
Qed.

Lemma validateField_None (field : string) (v : JsValue) :
  EventTracker.validateField field v = None -> Run.acceptable v.
Proof.
  destruct v as [| | b | n | s | | props]; simpl; try discriminate.
  - intros _. left. reflexivity.
  - destruct (JsNumberOps.isNaN n) eqn:Hnan; [discriminate|].
    destruct (JsNumberOps.isNegative n) eqn:Hneg; [discriminate|].
    intros _. right. exists n. auto.
Qed.

Lemma validateFields_skip (pre : list (string * JsValue)) (field : string)
    (v : JsValue) (post : list (string * JsValue)) :
  Forall (fun fv => Run.acceptable (snd fv)) pre ->
  EventTracker.validateFields (pre ++ (field, v) :: post)
    = match EventTracker.validateField field v with
      | Some thrown => Some thrown
      | None => EventTracker.validateFields post
      end.
Proof.
  induction pre as [| [f w] pre IH]; intros Hpre; simpl.
  - reflexivity.
  - inversion Hpre as [| ? ? Hw Hrest]; subst. simpl in Hw.
    rewrite (validateField_acceptable f w Hw). apply IH. exact Hrest.
Qed.

Lemma validateFields_None (fields : list (string * JsValue)) :
  EventTracker.validateFields fields = None <->
  Forall (fun fv => Run.acceptable (snd fv)) fields.
Proof.
  induction fields as [| [f w] fields IH]; simpl.
  - split; [constructor | reflexivity].
  - destruct (EventTracker.validateField f w) eqn:E.
    + split; [discriminate|]. intros H. inversion H as [| ? ? Hw _]; subst.
      simpl in Hw. rewrite (validateField_acceptable f w Hw) in E. discriminate.
    + rewrite IH. split.
      * intros H. constructor; [apply (validateField_None f w E) | exact H].
      * intros H. inversion H; subst. assumption.
Qed.

Lemma maxWith_atLeast (c : Q) (n : JsNumber) :
  JsNumberOps.isNaN n = false ->
  JsNumberOps.atLeast c (JsNumberOps.maxWith c n) = true.
Proof.
  destruct n as [q | | |]; simpl; intros H; try reflexivity; try discriminate.
  - destruct (Qle_bool c q) eqn:E; [exact E|]. apply Qle_bool_iff. apply Qle_refl.
  - apply Qle_bool_iff. apply Qle_refl.
Qed.

Lemma orDefault_not_NaN (v : JsValue) (dflt : Q) :
  Run.acceptable v -> JsNumberOps.isNaN (EventTracker.orDefault v dflt) = false.
Proof.
  intros [-> | [n [-> [Hnan _]]]]; simpl; [reflexivity | exact Hnan].
Qed.

(** C8, as stated, fails: positive infinity passes the validation, so an
    accepted option need not be finite. *)
Lemma infinite_limit_is_accepted : ~ Run.acceptsOnlyFinite.
Proof.
  intros H.
  pose (options := Example.options (JsNum JsPosInf) JsUndefined).
  destruct (EventTracker.constructor options) as [thrown | t] eqn:E.
  - vm_compute in E. discriminate E.
  - destruct (H options t E "limit" (JsNum JsPosInf)) as [q [Hq _]].
    + left. reflexivity.
    + discriminate.
    + discriminate Hq.
Qed.

(** C8 (amended).  The constructor checks the seven numeric options in
    order: the first supplied option that is not a number (any non-number
    value, or NaN) makes it throw a type error naming the field, the first
    one that is negative a range error; an accepted configuration has every
    numeric option absent or a number that is neither NaN nor negative
    (positive infinity included), and its processing interval is
    [max(10, processingInterval ?? 10000)], hence at least 10 ms.  Every
    such configuration with a valid strategy is accepted. *)
Theorem constructor_validates_and_clamps (options : EventTracker.Options) :
  (forall pre field v post,
      EventTracker.numericFields options = (pre ++ (field, v) :: post)%list ->
      Forall (fun fv => Run.acceptable (snd fv)) pre ->
      (Run.notANumber v ->
       EventTracker.constructor options
         = inl (TypeError (field ++ " must be a number.")))
      /\ (Run.negativeNumber v ->
          EventTracker.constructor options
            = inl (RangeError (field ++ " must be non-negative."))))
  /\ (forall t,
        EventTracker.constructor options = inr t ->
        Forall (fun fv => Run.acceptable (snd fv))
               (EventTracker.numericFields options)
        /\ EventTracker.processingIntervalMs t
           = JsNumberOps.maxWith 10
               (EventTracker.orDefault
                  (EventTracker.o_processingInterval options) 10000)
        /\ JsNumberOps.atLeast 10 (EventTracker.processingIntervalMs t) = true)
  /\ (Forall (fun fv => Run.acceptable (snd fv))
             (EventTracker.numericFields options) ->
      EventTracker.o_strategy options <> EventTracker.StrategyOther ->
      exists t, EventTracker.constructor options = inr t).
Proof.
  split; [| split].
  - intros pre field v post Hfields Hpre.
    unfold EventTracker.constructor, EventTracker._validateConfig.
    rewrite Hfields, (validateFields_skip pre field v post Hpre).
    split; intros Hv.
    + rewrite (validateField_notANumber field v Hv). reflexivity.
    + rewrite (validateField_negative field v Hv). reflexivity.
  - intros t Ht. unfold EventTracker.constructor in Ht.
    destruct (EventTracker._validateConfig options) eqn:Ev; [discriminate|].
    apply validateFields_None in Ev.
    assert (Hpi : Run.acceptable (EventTracker.o_processingInterval options)).
    { unfold EventTracker.numericFields in Ev.
      repeat (apply Forall_cons_iff in Ev; destruct Ev as [? Ev]). assumption. }
    split; [exact Ev|].
    destruct (EventTracker.o_strategy options); try discriminate;
      injection Ht as <-; simpl; (split; [reflexivity |]);
      apply maxWith_atLeast; apply orDefault_not_NaN; exact Hpi.
  - intros Hall Hstrategy. unfold EventTracker.constructor.
    apply validateFields_None in Hall.
    unfold EventTracker._validateConfig. rewrite Hall.
    destruct (EventTracker.o_strategy options); try (eexists; reflexivity).
    exfalso. apply Hstrategy. reflexivity.
Qed.

Lemma constructor_validates_and_clamps_witness :
  EventTracker.constructor (Example.options (JsString "5") JsUndefined)
    = inl (TypeError "limit must be a number.")
  /\ EventTracker.constructor
       (Example.options (JsNum (JsFinite (-1))) JsUndefined)
     = inl (RangeError "limit must be non-negative.")
  /\ exists t,
       EventTracker.constructor
         (Example.options JsUndefined (JsNum (JsFinite 0))) = inr t
       /\ EventTracker.processingIntervalMs t = JsFinite 10.
Proof.
  split; [| split].
  - apply (proj1 (proj1 (constructor_validates_and_clamps
                           (Example.options (JsString "5") JsUndefined))
                    [] "limit" (JsString "5") _ eq_refl (List.Forall_nil _))).
    split; [discriminate | left; simpl; discriminate].
  - apply (proj2 (proj1 (constructor_validates_and_clamps
                           (Example.options (JsNum (JsFinite (-1))) JsUndefined))
                    [] "limit" (JsNum (JsFinite (-1))) _ eq_refl (List.Forall_nil _))).
    exists (JsFinite (-1)). split; reflexivity.
  - destruct (EventTracker.constructor
                (Example.options JsUndefined (JsNum (JsFinite 0))))
      as [thrown | t] eqn:E; [vm_compute in E; discriminate E|].
    exists t. split; [reflexivity|].
    rewrite (proj1 (proj2 (proj1 (proj2 (constructor_validates_and_clamps
               (Example.options JsUndefined (JsNum (JsFinite 0))))) t E))).
    reflexivity.
Defined.

(** ** The in-memory adapter: how [track] treats the prior record *)

Section InMemoryTrack.
Context {C D : Type}.
Variable strategy : BaseStrategy C D.
Variable config : TrackerConfig.
Implicit Type st : InMemoryAdapter.State C D.
Implicit Type r : EventRecord C D.

Lemma priorRecord_absent st now k eventData :
  InMemoryAdapter.events st !! k = None ->
  InMemoryAdapter.priorRecord st now k eventData = None.
Proof. intros H. unfold InMemoryAdapter.priorRecord. rewrite H. reflexivity. Qed.

Lemma priorRecord_fresh st now k eventData r :
  InMemoryAdapter.events st !! k = Some r ->
  now <= expiresAt r ->
  detailsHash r = ev_detailsHash eventData ->
  InMemoryAdapter.priorRecord st now k eventData = Some r.
Proof.
  intros H Hlive Hhash. unfold InMemoryAdapter.priorRecord. rewrite H.
  apply gt_false_iff in Hlive. rewrite Hlive, Hhash, String.eqb_refl.
  reflexivity.
Qed.

Lemma priorRecord_stale st now k eventData r :
  InMemoryAdapter.events st !! k = Some r ->
  expiresAt r < now \/ detailsHash r <> ev_detailsHash eventData ->
  InMemoryAdapter.priorRecord st now k eventData = None.
Proof.
  intros H Hstale. unfold InMemoryAdapter.priorRecord. rewrite H.
  destruct Hstale as [Hexp | Hchg].
  - apply gt_true_iff in Hexp. rewrite Hexp. reflexivity.
  - apply String.eqb_neq in Hchg. rewrite Hchg, orb_true_r. reflexivity.
Qed.

(** The prior record is dropped exactly when it is expired or carries
    another fingerprint. *)
Lemma priorRecord_dropped_iff st now k eventData r :
  InMemoryAdapter.events st !! k = Some r ->
  (InMemoryAdapter.priorRecord st now k eventData = None
   <-> expiresAt r < now \/ detailsHash r <> ev_detailsHash eventData).
Proof.
  intros H. split.
  - intros Hnone.
    destruct (Qlt_le_dec (expiresAt r) now) as [Hexp | Hlive]; [left; exact Hexp|].
    destruct (string_dec (detailsHash r) (ev_detailsHash eventData))
      as [Hsame | Hchg]; [| right; exact Hchg].
    rewrite (priorRecord_fresh st now k eventData r H Hlive Hsame) in Hnone.
    discriminate.
  - apply priorRecord_stale. exact H.
Qed.

(** With a stored record under the key, the key limit never applies: the
    strategy runs on the prior record, or on none when it was dropped. *)
Lemma track_stored st nowA nowS k eventData r :
  InMemoryAdapter.events st !! k = Some r ->
  InMemoryAdapter.track strategy st nowA nowS k eventData config
  = let sr := track config nowS (InMemoryAdapter.priorRecord st nowA k eventData)
                {| se_compositeKey := k; se_data := eventData |} in
    ({| outcome := fst sr; record := Some (snd sr); reason := None |},
     InMemoryAdapter.set st k (snd sr)).
Proof.
  intros H. unfold InMemoryAdapter.track, InMemoryAdapter.has. rewrite H.
  rewrite andb_false_r. simpl.
  destruct (track config nowS _ _) as [o u]. reflexivity.
Qed.

(** A key that is not stored is refused when the store is full. *)
Lemma track_key_limit st nowA nowS k eventData :
  InMemoryAdapter.events st !! k = None ->
  0 < tc_maxKeys config ->
  tc_maxKeys config <= Num.of_nat (InMemoryAdapter.size st) ->
  InMemoryAdapter.track strategy st nowA nowS k eventData config
  = ({| outcome := Ignored; record := None;
        reason := Some "key_limit_reached" |}, st).
Proof.
  intros H Hpos Hfull. unfold InMemoryAdapter.track, InMemoryAdapter.has.
  rewrite (priorRecord_absent st nowA k eventData H), H.
  apply gt_true_iff in Hpos. apply ge_true_iff in Hfull.
  rewrite Hpos, Hfull. reflexivity.
Qed.

(** A key that is not stored is created when the limit is off or not
    reached. *)
Lemma track_new_key st nowA nowS k eventData :
  InMemoryAdapter.events st !! k = None ->
  tc_maxKeys config <= 0
  \/ Num.of_nat (InMemoryAdapter.size st) < tc_maxKeys config ->
  InMemoryAdapter.track strategy st nowA nowS k eventData config
  = let sr := track config nowS None
                {| se_compositeKey := k; se_data := eventData |} in
    ({| outcome := fst sr; record := Some (snd sr); reason := None |},
     InMemoryAdapter.set st k (snd sr)).
Proof.
  intros H Hroom. unfold InMemoryAdapter.track.
  rewrite (priorRecord_absent st nowA k eventData H).
  assert (E : Num.gt (tc_maxKeys config) 0
              && Num.ge (Num.of_nat (InMemoryAdapter.size st)) (tc_maxKeys config)
              = false).
  { destruct Hroom as [Hoff | Hfree].
    - apply gt_false_iff in Hoff. rewrite Hoff. reflexivity.
    - apply ge_false_iff in Hfree. rewrite Hfree. apply andb_false_r. }
  simpl. rewrite E. simpl.
  destruct (track config nowS None _) as [o u]. reflexivity.
Qed.

Lemma set_lookup_same st k r :
  InMemoryAdapter.events (InMemoryAdapter.set st k r) !! k = Some r.
Proof. simpl. apply lookup_insert_eq. Qed.

Lemma set_lookup_other st k k' r :
  k <> k' ->
  InMemoryAdapter.events (InMemoryAdapter.set st k r) !! k'
  = InMemoryAdapter.events st !! k'.
Proof. intros H. simpl. apply lookup_insert_ne. exact H. Qed.

(** A step on another key leaves the record of [k] alone. *)
Lemma track_other_key st nowA nowS k k' eventData :
  k' <> k ->
  InMemoryAdapter.events
    (snd (InMemoryAdapter.track strategy st nowA nowS k' eventData config)) !! k
  = InMemoryAdapter.events st !! k.
Proof.
  intros Hne. unfold InMemoryAdapter.track.
  destruct (_ && _ && _ && _); [reflexivity|].
  destruct (track config nowS _ _) as [o u]. simpl.
  apply lookup_insert_ne. exact Hne.
Qed.
End InMemoryTrack.

Lemma detailsHash_default (P : EventTracker.Platform) (d : JsValue) :
  EventTracker.generateDetailsHash P
    (match d with JsUndefined => JsObject JsNoProps | other => other end)
  = EventTracker.generateDetailsHash P d.
Proof. destruct d; reflexivity. Qed.

(** [trackEvent] on a valid identity is the adapter's [track] on the
    composite key, repackaged. *)
Lemma trackEvent_valid_identity {C D Store : Type} (P : EventTracker.Platform)
    (storage : Store)
    (storageTrack : string -> EventData -> (Thrown + TrackResult C D) * Store)
    (c i : string) (d : JsValue) :
  c <> "" -> i <> "" ->
  EventTracker.trackEvent P storage storageTrack (JsString c) (JsString i) d
  = let details :=
      match d with JsUndefined => JsObject JsNoProps | other => other end in
    match storageTrack (EventTracker.sha256hex P (c ++ ":" ++ i))
            {| ev_category := c; ev_id := i; ev_details := details;
               ev_detailsHash := EventTracker.generateDetailsHash P d |} with
    | (inl thrown, _) => inl thrown
    | (inr result, storage') =>
        match outcome result with
        | Ignored =>
            inr ({| EventTracker.type := Ignored;
                    EventTracker.data :=
                      if match reason result with
                         | Some text => negb (String.eqb text "")
                         | None => false
                         end
                      then None else record result;
                    EventTracker.ignoreReason :=
                      Some (default "already_deferred" (reason result)) |},
                 [EventTracker.EmitIgnored
                    (default "already_deferred" (reason result)) c i details],
                 storage')
        | other =>
            inr ({| EventTracker.type := other;
                    EventTracker.data := record result;
                    EventTracker.ignoreReason := None |},
                 [EventTracker.EmitOutcome other (record result)], storage')
        end
    end.
Proof.
  intros Hc Hi. unfold EventTracker.trackEvent.
  rewrite (generateCompositeKey_ok P c i Hc Hi), detailsHash_default.
  reflexivity.
Qed.

(** ** The payload of an ignored event *)

(** C10.  When [trackEvent] returns type [ignored], [data] depends on the
    cause.  Whatever the adapter: without a reason from the adapter the
    result carries the adapter's record and the reason [already_deferred];
    with the reason [key_limit_reached] it carries no record.  With the
    in-memory adapter and the simple counter: an event on a live deferred
    record with the same details returns that record with [expiresAt]
    refreshed to the strategy's clock reading plus [expireTime], which is
    also what is stored; an event on an absent key of a full store returns
    [null] data and leaves the store as it was. *)
Theorem ignored_data_depends_on_cause
    (P : EventTracker.Platform) (config : TrackerConfig)
    (c i : string) (d : JsValue) :
  c <> "" -> i <> "" ->
  (forall (C D Store : Type) (storage storage' : Store)
          (storageTrack : string -> EventData ->
                          (Thrown + TrackResult C D) * Store)
          (result : TrackResult C D),
      storageTrack (EventTracker.sha256hex P (c ++ ":" ++ i))
        {| ev_category := c; ev_id := i;
           ev_details :=
             match d with JsUndefined => JsObject JsNoProps | other => other end;
           ev_detailsHash := EventTracker.generateDetailsHash P d |}
        = (inr result, storage') ->
      outcome result = Ignored ->
      exists answer emitted,
        EventTracker.trackEvent P storage storageTrack (JsString c) (JsString i) d
          = inr (answer, emitted, storage')
        /\ EventTracker.type answer = Ignored
        /\ (reason result = None ->
            EventTracker.data answer = record result
            /\ EventTracker.ignoreReason answer = Some "already_deferred")
        /\ (reason result = Some "key_limit_reached" ->
            EventTracker.data answer = None
            /\ EventTracker.ignoreReason answer = Some "key_limit_reached"))
  /\ (forall (st : InMemoryAdapter.State SimpleCounterStrategy.Config unit)
             (nowA nowS : num) (r : EventRecord SimpleCounterStrategy.Config unit),
      InMemoryAdapter.events st !! EventTracker.sha256hex P (c ++ ":" ++ i)
        = Some r ->
      deferred r = true ->
      nowA <= expiresAt r ->
      detailsHash r = EventTracker.generateDetailsHash P d ->
      exists emitted st' r',
        InMemoryTracker.trackEvent P SimpleCounterStrategy.strategy config st
          nowA nowS (JsString c) (JsString i) d
          = inr ({| EventTracker.type := Ignored;
                    EventTracker.data := Some r';
                    EventTracker.ignoreReason := Some "already_deferred" |},
                 emitted, st')
        /\ r' = with_expiresAt (Num.add nowS (Num.orZero (tc_expireTime config))) r
        /\ expiresAt r' == nowS + tc_expireTime config
        /\ InMemoryAdapter.events st' !! EventTracker.sha256hex P (c ++ ":" ++ i)
           = Some r')
  /\ (forall (C D : Type) (strategy : BaseStrategy C D)
             (st : InMemoryAdapter.State C D) (nowA nowS : num),
      InMemoryAdapter.events st !! EventTracker.sha256hex P (c ++ ":" ++ i)
        = None ->
      0 < tc_maxKeys config ->
      tc_maxKeys config <= Num.of_nat (InMemoryAdapter.size st) ->
      exists emitted,
        InMemoryTracker.trackEvent P strategy config st nowA nowS
          (JsString c) (JsString i) d
          = inr ({| EventTracker.type := Ignored;
                    EventTracker.data := None;
                    EventTracker.ignoreReason := Some "key_limit_reached" |},
                 emitted, st)).
Proof.
  intros Hc Hi. split; [| split].
  - intros C D Store storage storage' storageTrack result Htrack Hignored.
    rewrite (trackEvent_valid_identity P storage storageTrack c i d Hc Hi).
    cbv zeta. rewrite Htrack, Hignored.
    eexists. eexists. split; [reflexivity|]. simpl.
    split; [reflexivity|]. split; intros ->; simpl; split; reflexivity.
  - intros st nowA nowS r Hstored Hdeferred Hlive Hhash.
    unfold InMemoryTracker.trackEvent.
    rewrite (trackEvent_valid_identity P st _ c i d Hc Hi). cbv zeta.
    unfold InMemoryTracker.storageTrack.
    rewrite (track_stored SimpleCounterStrategy.strategy config st nowA nowS
               _ _ r Hstored).
    rewrite (priorRecord_fresh st nowA _ _ r Hstored Hlive); [| exact Hhash].
    cbv zeta. simpl. unfold SimpleCounterStrategy.track. rewrite Hdeferred.
    simpl. eexists. eexists. eexists. split; [reflexivity|].
    split; [reflexivity|]. split.
    + simpl. rewrite add_spec, orZero_spec. reflexivity.
    + apply lookup_insert_eq.
  - intros C D strategy st nowA nowS Habsent Hpos Hfull.
    unfold InMemoryTracker.trackEvent.
    rewrite (trackEvent_valid_identity P st _ c i d Hc Hi). cbv zeta.
    unfold InMemoryTracker.storageTrack.
    rewrite (track_key_limit strategy config st nowA nowS _ _ Habsent Hpos Hfull).
    simpl. eexists. reflexivity.
Qed.

Lemma ignored_data_depends_on_cause_witness :
  (exists emitted st',
      InMemoryTracker.trackEvent Example.platform SimpleCounterStrategy.strategy
        Example.limitedConfig Example.deferredStore 1003 1003
        (JsString "auth") (JsString "login_fail") JsUndefined
      = inr ({| EventTracker.type := Ignored;
                EventTracker.data :=
                  Some (with_expiresAt 1203 Example.deferredRecord);
                EventTracker.ignoreReason := Some "already_deferred" |},
             emitted, st'))
  /\ (exists emitted,
        InMemoryTracker.trackEvent Example.platform SimpleCounterStrategy.strategy
          Example.limitedConfig Example.deferredStore 1003 1003
          (JsString "auth") (JsString "other") JsUndefined
        = inr ({| EventTracker.type := Ignored;
                  EventTracker.data := None;
                  EventTracker.ignoreReason := Some "key_limit_reached" |},
               emitted, Example.deferredStore)).
Proof.
  split.
  - assert (Hc : "auth" <> "") by discriminate.
    assert (Hi : "login_fail" <> "") by discriminate.
    destruct (proj1 (proj2 (ignored_data_depends_on_cause Example.platform
                Example.limitedConfig "auth" "login_fail" JsUndefined Hc Hi))
                Example.deferredStore 1003 1003 Example.deferredRecord)
      as (emitted & st' & r' & E & Hr' & _).
    + vm_compute. reflexivity.
    + reflexivity.
    + unfold Qle. simpl. lia.
    + reflexivity.
    + exists emitted, st'. rewrite E, Hr'. reflexivity.
  - assert (Hc : "auth" <> "") by discriminate.
    assert (Hi : "other" <> "") by discriminate.
    apply (proj2 (proj2 (ignored_data_depends_on_cause Example.platform
             Example.limitedConfig "auth" "other" JsUndefined Hc Hi))
             SimpleCounterStrategy.Config unit SimpleCounterStrategy.strategy
             Example.deferredStore 1003 1003).
    + vm_compute. reflexivity.
    + unfold Qlt. simpl. lia.
    + vm_compute. discriminate.
Defined.

(** ** The key limit *)

Lemma trackScript_key_limit (st : RedisAdapter.State) (recordKey : string)
    (k category id : string) (details : JsValue) (detailsHash : string)
    (now expireTime maxKeys : num) (strategyType : string)
    (sParam1 sParam2 sParam3 : num) (initialConfig : RedisAdapter.ConfigBlob) :
  RedisAdapter.hashes st !! recordKey = None ->
  0 < maxKeys ->
  maxKeys <= inject_Z (RedisAdapter.sizeCounter st) ->
  RedisAdapter.trackScript st recordKey k category id details detailsHash now
    expireTime maxKeys strategyType sParam1 sParam2 sParam3 initialConfig
  = (RedisAdapter.ReplyKeyLimit, st).
Proof.
  intros Habsent Hpos Hfull.
  unfold RedisAdapter.trackScript, RedisAdapter.exists_. rewrite Habsent.
  apply gt_true_iff in Hpos. apply ge_true_iff in Hfull.
  rewrite Hpos, Hfull. reflexivity.
Qed.

Lemma trackScript_stored_not_refused (st : RedisAdapter.State)
    (recordKey : string) (h : RedisAdapter.Hash)
    (k category id : string) (details : JsValue) (detailsHash : string)
    (now expireTime maxKeys : num) (strategyType : string)
    (sParam1 sParam2 sParam3 : num) (initialConfig : RedisAdapter.ConfigBlob) :
  RedisAdapter.hashes st !! recordKey = Some h ->
  fst (RedisAdapter.trackScript st recordKey k category id details detailsHash
         now expireTime maxKeys strategyType sParam1 sParam2 sParam3
         initialConfig)
  <> RedisAdapter.ReplyKeyLimit.
Proof.
  intros Hstored.
  unfold RedisAdapter.trackScript, RedisAdapter.exists_. rewrite Hstored.
  rewrite andb_false_r.
  match goal with |- context [match ?arm with Some _ => _ | None => _ end] =>
    destruct arm end; simpl; discriminate.
Qed.

(** C5, as stated, fails: a stored record whose details changed is
    reinitialized although the store is full. *)
Lemma reset_of_stored_key_ignores_limit :
  ~ Run.keyLimitOnEveryReset SimpleCounterStrategy.strategy Example.limitedConfig.
Proof.
  intros H.
  specialize (H (Example.activeStore "a") 1001 1001 "auth:login_fail"
                (Example.event "b")).
  assert (E : InMemoryAdapter.track SimpleCounterStrategy.strategy
                (Example.activeStore "a") 1001 1001 "auth:login_fail"
                (Example.event "b") Example.limitedConfig
              = ({| outcome := Ignored; record := None;
                    reason := Some "key_limit_reached" |},
                 Example.activeStore "a")).
  { apply H.
    - vm_compute. reflexivity.
    - unfold Qlt. simpl. lia.
    - vm_compute. discriminate. }
  vm_compute in E. discriminate E.
Qed.

(** C5 (amended).  When no record is stored under the key and the size of
    the store is at least [maxKeys > 0], [track] returns outcome [ignored]
    with reason [key_limit_reached] and a null record and leaves the store
    unchanged, in the in-memory adapter and in the track script alike.  A
    stored record keeps its slot: whether it is used as it is or
    reinitialized (expired, details changed), the strategy decides and the
    key limit is not consulted. *)
Theorem key_limit_refuses_only_absent_keys
    (config : TrackerConfig) (k : string) (eventData : EventData) :
  (forall (C D : Type) (strategy : BaseStrategy C D)
          (st : InMemoryAdapter.State C D) (nowA nowS : num),
      InMemoryAdapter.events st !! k = None ->
      0 < tc_maxKeys config ->
      tc_maxKeys config <= Num.of_nat (InMemoryAdapter.size st) ->
      InMemoryAdapter.track strategy st nowA nowS k eventData config
      = ({| outcome := Ignored; record := None;
            reason := Some "key_limit_reached" |}, st))
  /\ (forall (C D : Type) (strategy : BaseStrategy C D)
             (st : InMemoryAdapter.State C D) (nowA nowS : num)
             (r : EventRecord C D),
      InMemoryAdapter.events st !! k = Some r ->
      InMemoryAdapter.track strategy st nowA nowS k eventData config
      = ({| outcome :=
              fst (track config nowS
                     (InMemoryAdapter.priorRecord st nowA k eventData)
                     {| se_compositeKey := k; se_data := eventData |});
            record :=
              Some (snd (track config nowS
                           (InMemoryAdapter.priorRecord st nowA k eventData)
                           {| se_compositeKey := k; se_data := eventData |}));
            reason := None |},
         InMemoryAdapter.set st k
           (snd (track config nowS
                   (InMemoryAdapter.priorRecord st nowA k eventData)
                   {| se_compositeKey := k; se_data := eventData |}))))
  /\ (forall (st : RedisAdapter.State) (now : num) (strategyType : string)
             (sParam1 sParam2 sParam3 : num)
             (initialConfig : RedisAdapter.ConfigBlob),
      RedisAdapter.hashes st !! RedisAdapter._getRecordKey k = None ->
      0 < tc_maxKeys config ->
      tc_maxKeys config <= inject_Z (RedisAdapter.sizeCounter st) ->
      RedisAdapter.trackScript st (RedisAdapter._getRecordKey k) k
        (ev_category eventData) (ev_id eventData) (ev_details eventData)
        (ev_detailsHash eventData) now (tc_expireTime config)
        (tc_maxKeys config) strategyType sParam1 sParam2 sParam3 initialConfig
      = (RedisAdapter.ReplyKeyLimit, st))
  /\ (forall (st : RedisAdapter.State) (now : num) (strategyType : string)
             (sParam1 sParam2 sParam3 : num)
             (initialConfig : RedisAdapter.ConfigBlob) (h : RedisAdapter.Hash),
      RedisAdapter.hashes st !! RedisAdapter._getRecordKey k = Some h ->
      fst (RedisAdapter.trackScript st (RedisAdapter._getRecordKey k) k
             (ev_category eventData) (ev_id eventData) (ev_details eventData)
             (ev_detailsHash eventData) now (tc_expireTime config)
             (tc_maxKeys config) strategyType sParam1 sParam2 sParam3
             initialConfig)
      <> RedisAdapter.ReplyKeyLimit).
Proof.
  split; [| split; [| split]].
  - intros C D strategy st nowA nowS. apply track_key_limit.
  - intros C D strategy st nowA nowS r Hstored.
    rewrite (track_stored strategy config st nowA nowS k eventData r Hstored).
    reflexivity.
  - intros st now strategyType p1 p2 p3 blob. apply trackScript_key_limit.
  - intros st now strategyType p1 p2 p3 blob h.
    apply trackScript_stored_not_refused.
Qed.

Lemma key_limit_refuses_only_absent_keys_witness :
  InMemoryAdapter.track SimpleCounterStrategy.strategy (Example.activeStore "a")
    1001 1001 "auth:other" (Example.event "a") Example.limitedConfig
  = ({| outcome := Ignored; record := None;
        reason := Some "key_limit_reached" |}, Example.activeStore "a")
  /\ outcome
       (fst (InMemoryAdapter.track SimpleCounterStrategy.strategy
               (Example.activeStore "a") 1001 1001 "auth:login_fail"
               (Example.event "b") Example.limitedConfig))
     = Immediate
  /\ RedisAdapter.trackScript
       (Example.redisStore
          (Example.activeHash "a" false RedisAdapter.emptyData Example.simpleBlob))
       "event-tracker:auth:other" "auth:other" "auth" "login_fail"
       (JsObject JsNoProps) "a" 1001 200 1 "simple" 2 100 0 Example.simpleBlob
     = (RedisAdapter.ReplyKeyLimit,
        Example.redisStore
          (Example.activeHash "a" false RedisAdapter.emptyData Example.simpleBlob)).
Proof.
  split; [| split].
  - apply (proj1 (key_limit_refuses_only_absent_keys Example.limitedConfig
                    "auth:other" (Example.event "a"))).
    + vm_compute. reflexivity.
    + unfold Qlt. simpl. lia.
    + vm_compute. discriminate.
  - rewrite (proj1 (proj2 (key_limit_refuses_only_absent_keys
               Example.limitedConfig "auth:login_fail" (Example.event "b")))
               _ _ SimpleCounterStrategy.strategy (Example.activeStore "a")
               1001 1001 (Example.activeRecord "a")).
    + vm_compute. reflexivity.
    + vm_compute. reflexivity.
  - apply (proj1 (proj2 (proj2 (key_limit_refuses_only_absent_keys
             Example.limitedConfig "auth:other" (Example.event "a"))))
             (Example.redisStore
                (Example.activeHash "a" false RedisAdapter.emptyData
                   Example.simpleBlob))
             1001 "simple" 2 100 0 Example.simpleBlob).
    + vm_compute. reflexivity.
    + unfold Qlt. simpl. lia.
    + vm_compute. discriminate.
Defined.

(** ** Events on an already deferred record *)

(** The store of the sliding-window example is the one two tracked events
    produce. *)
Lemma slidingDeferredStore_reached :
  Run.run (SlidingWindowStrategy.strategy 1 1000) Example.slidingConfig
    InMemoryAdapter.empty [Example.stepAt 0; Example.stepAt 10]
  = Example.slidingDeferredStore "auth:login_fail".
Proof. vm_compute. reflexivity. Qed.

(** [trackEvent] through the in-memory adapter on a live stored record with
    the same details: the strategy decides, its record is returned and
    stored. *)
Lemma trackEvent_on_live_record {C D : Type} (P : EventTracker.Platform)
    (strategy : BaseStrategy C D) (config : TrackerConfig)
    (st : InMemoryAdapter.State C D) (nowA nowS : num) (c i : string)
    (d : JsValue) (r : EventRecord C D) (sr : Outcome * EventRecord C D) :
  c <> "" -> i <> "" ->
  InMemoryAdapter.events st !! EventTracker.sha256hex P (c ++ ":" ++ i) = Some r ->
  nowA <= expiresAt r ->
  detailsHash r = EventTracker.generateDetailsHash P d ->
  sr = track config nowS (Some r)
         {| se_compositeKey := EventTracker.sha256hex P (c ++ ":" ++ i);
            se_data :=
              {| ev_category := c; ev_id := i;
                 ev_details :=
                   match d with
                   | JsUndefined => JsObject JsNoProps
                   | other => other
                   end;
                 ev_detailsHash := EventTracker.generateDetailsHash P d |} |} ->
  exists emitted,
    InMemoryTracker.trackEvent P strategy config st nowA nowS
      (JsString c) (JsString i) d
    = inr ({| EventTracker.type := fst sr;
              EventTracker.data := Some (snd sr);
              EventTracker.ignoreReason :=
                match fst sr with
                | Ignored => Some "already_deferred"
                | _ => None
                end |},
           emitted,
           InMemoryAdapter.set st (EventTracker.sha256hex P (c ++ ":" ++ i))
             (snd sr)).
Proof.
  intros Hc Hi Hstored Hlive Hhash Hsr.
  unfold InMemoryTracker.trackEvent.
  rewrite (trackEvent_valid_identity P st _ c i d Hc Hi). cbv zeta.
  unfold InMemoryTracker.storageTrack.
  rewrite (track_stored strategy config st nowA nowS _ _ r Hstored).
  rewrite (priorRecord_fresh st nowA _ _ r Hstored Hlive); [| exact Hhash].
  cbv zeta. rewrite <- Hsr.
  destruct sr as [o u]. destruct o; simpl; eexists; reflexivity.
Qed.

(** C2, as stated, fails for the sliding window, whatever the digest: an
    event on its deferred record is evaluated again and comes back
    [deferred], not [ignored]. *)
Lemma sliding_window_has_no_already_deferred_rule :
  ~ exists P,
      Run.alreadyDeferredRule P (SlidingWindowStrategy.strategy 1 1000)
        Example.slidingConfig.
Proof.
  intros [P H].
  assert (Hc : "auth" <> "") by discriminate.
  assert (Hi : "login_fail" <> "") by discriminate.
  pose (k := EventTracker.sha256hex P ("auth" ++ ":" ++ "login_fail")).
  assert (Hstored :
    InMemoryAdapter.events (Example.slidingDeferredStore k) !! k
    = Some (Example.slidingDeferredRecord k)) by apply set_lookup_same.
  assert (Hlive : 20 <= expiresAt (Example.slidingDeferredRecord k))
    by (unfold Qle; simpl; lia).
  destruct (H (Example.slidingDeferredStore k) 20 20 "auth" "login_fail"
              JsUndefined k (Example.slidingDeferredRecord k)
              (generateCompositeKey_ok P "auth" "login_fail" Hc Hi)
              Hstored eq_refl Hlive eq_refl)
    as (result & emitted & st' & r' & E & Htype & _).
  destruct (trackEvent_on_live_record P (SlidingWindowStrategy.strategy 1 1000)
              Example.slidingConfig (Example.slidingDeferredStore k) 20 20
              "auth" "login_fail" JsUndefined (Example.slidingDeferredRecord k)
              _ Hc Hi Hstored Hlive eq_refl eq_refl)
    as (emitted' & E').
  rewrite E' in E. injection E as <- _ _.
  revert Htype. vm_compute. discriminate.
Qed.

Lemma trackScript_simple_deferred (st : RedisAdapter.State)
    (recordKey k category id : string) (details : JsValue) (dh : string)
    (now expireTime maxKeys sParam1 sParam2 sParam3 : num)
    (initialConfig : RedisAdapter.ConfigBlob) (h : RedisAdapter.Hash) :
  RedisAdapter.hashes st !! recordKey = Some h ->
  RedisAdapter.h_deferred h = true ->
  now <= RedisAdapter.h_expiresAt h ->
  RedisAdapter.h_detailsHash h = dh ->
  RedisAdapter.trackScript st recordKey k category id details dh now expireTime
    maxKeys "simple" sParam1 sParam2 sParam3 initialConfig
  = (RedisAdapter.ReplyTracked Ignored (RedisAdapter.h_count h)
       (RedisAdapter.h_scheduledSendAt h) (Num.add now expireTime)
       (RedisAdapter.h_config h) RedisAdapter.emptyData,
     {| RedisAdapter.hashes :=
          <[recordKey :=
              {| RedisAdapter.h_key := k;
                 RedisAdapter.h_category := category;
                 RedisAdapter.h_id := id;
                 RedisAdapter.h_details := details;
                 RedisAdapter.h_detailsHash := dh;
                 RedisAdapter.h_count := RedisAdapter.h_count h;
                 RedisAdapter.h_lastEventTime := now;
                 RedisAdapter.h_expiresAt := Num.add now expireTime;
                 RedisAdapter.h_deferred := true;
                 RedisAdapter.h_scheduledSendAt := RedisAdapter.h_scheduledSendAt h;
                 RedisAdapter.h_strategyData := Some RedisAdapter.emptyData;
                 RedisAdapter.h_config := RedisAdapter.h_config h |}]>
            (RedisAdapter.hashes st);
        RedisAdapter.expireAt :=
          <[recordKey := RedisAdapter.ceil (Num.add now expireTime / 1000)]>
            (RedisAdapter.expireAt st);
        RedisAdapter.sizeCounter := RedisAdapter.sizeCounter st;
        RedisAdapter.deferredSet :=
          <[k := RedisAdapter.h_scheduledSendAt h]> (RedisAdapter.deferredSet st) |}).
Proof.
  intros Hstored Hdeferred Hlive Hhash.
  unfold RedisAdapter.trackScript, RedisAdapter.exists_. rewrite Hstored.
  apply gt_false_iff in Hlive. rewrite Hlive, Hhash, String.eqb_refl.
  simpl. unfold RedisAdapter.simpleArm. rewrite Hdeferred. reflexivity.
Qed.

(** C2 (amended).  Under the simple counter strategy, an event on a live,
    already deferred record with unchanged details is ignored with reason
    [already_deferred], refreshes [expiresAt] to the clock reading plus
    [expireTime] and leaves [count] unchanged, both through the in-memory
    adapter and through the track script; through the in-memory adapter
    [lastEventTime] is unchanged as well. *)
Theorem simple_counter_ignores_events_on_deferred_record
    (P : EventTracker.Platform) (config : TrackerConfig)
    (c i : string) (d : JsValue) :
  c <> "" -> i <> "" ->
  (forall (st : InMemoryAdapter.State SimpleCounterStrategy.Config unit)
          (nowA nowS : num) (r : EventRecord SimpleCounterStrategy.Config unit),
      InMemoryAdapter.events st !! EventTracker.sha256hex P (c ++ ":" ++ i)
        = Some r ->
      deferred r = true ->
      nowA <= expiresAt r ->
      detailsHash r = EventTracker.generateDetailsHash P d ->
      exists result emitted st' r',
        InMemoryTracker.trackEvent P SimpleCounterStrategy.strategy config st
          nowA nowS (JsString c) (JsString i) d = inr (result, emitted, st')
        /\ EventTracker.type result = Ignored
        /\ EventTracker.ignoreReason result = Some "already_deferred"
        /\ InMemoryAdapter.events st' !! EventTracker.sha256hex P (c ++ ":" ++ i)
           = Some r'
        /\ count r' = count r
        /\ lastEventTime r' = lastEventTime r
        /\ expiresAt r' == nowS + tc_expireTime config)
  /\ (forall (st : RedisAdapter.State) (now : num) (h : RedisAdapter.Hash),
      RedisAdapter.hashes st
        !! RedisAdapter._getRecordKey (EventTracker.sha256hex P (c ++ ":" ++ i))
        = Some h ->
      RedisAdapter.h_deferred h = true ->
      now <= RedisAdapter.h_expiresAt h ->
      RedisAdapter.h_detailsHash h = EventTracker.generateDetailsHash P d ->
      exists result emitted st' h',
        RedisTracker.trackEvent P RedisAdapter.simpleCounter config st now
          (JsString c) (JsString i) d = inr (result, emitted, st')
        /\ EventTracker.type result = Ignored
        /\ EventTracker.ignoreReason result = Some "already_deferred"
        /\ RedisAdapter.hashes st'
             !! RedisAdapter._getRecordKey
                  (EventTracker.sha256hex P (c ++ ":" ++ i))
           = Some h'
        /\ RedisAdapter.h_count h' = RedisAdapter.h_count h
        /\ RedisAdapter.h_deferred h' = true
        /\ RedisAdapter.h_expiresAt h' == now + tc_expireTime config).
Proof.
  intros Hc Hi. split.
  - intros st nowA nowS r Hstored Hdeferred Hlive Hhash.
    unfold InMemoryTracker.trackEvent.
    rewrite (trackEvent_valid_identity P st _ c i d Hc Hi). cbv zeta.
    unfold InMemoryTracker.storageTrack.
    rewrite (track_stored SimpleCounterStrategy.strategy config st nowA nowS
               _ _ r Hstored).
    rewrite (priorRecord_fresh st nowA _ _ r Hstored Hlive); [| exact Hhash].
    cbv zeta. simpl. unfold SimpleCounterStrategy.track. rewrite Hdeferred.
    simpl. do 4 eexists. split; [reflexivity|]. simpl.
    split; [reflexivity|]. split; [reflexivity|].
    split; [apply lookup_insert_eq|]. simpl.
    split; [reflexivity|]. split; [reflexivity|].
    rewrite add_spec, orZero_spec. reflexivity.
  - intros st now h Hstored Hdeferred Hlive Hhash.
    unfold RedisTracker.trackEvent.
    rewrite (trackEvent_valid_identity P st _ c i d Hc Hi). cbv zeta.
    unfold RedisAdapter.track. simpl.
    rewrite (trackScript_simple_deferred st _ _ _ _ _ _ now _ _ _ _ _ _ h
               Hstored Hdeferred Hlive Hhash).
    simpl. do 4 eexists. split; [reflexivity|]. simpl.
    split; [reflexivity|]. split; [reflexivity|].
    split; [apply lookup_insert_eq|]. simpl.
    split; [reflexivity|]. split; [reflexivity|].
    apply add_spec.
Qed.

Lemma simple_counter_ignores_events_on_deferred_record_witness :
  (exists result emitted st' r',
      InMemoryTracker.trackEvent Example.platform SimpleCounterStrategy.strategy
        Example.trackerConfig Example.deferredStore 1003 1003
        (JsString "auth") (JsString "login_fail") JsUndefined
      = inr (result, emitted, st')
      /\ EventTracker.type result = Ignored
      /\ EventTracker.ignoreReason result = Some "already_deferred"
      /\ InMemoryAdapter.events st' !! "auth:login_fail" = Some r'
      /\ count r' = 3
      /\ lastEventTime r' = 1000
      /\ expiresAt r' == 1003 + 200)
  /\ (exists result emitted st' h',
        RedisTracker.trackEvent Example.platform RedisAdapter.simpleCounter
          Example.trackerConfig
          (Example.redisStore
             (Example.activeHash "" true RedisAdapter.emptyData
                Example.simpleBlob))
          1003 (JsString "auth") (JsString "login_fail") JsUndefined
        = inr (result, emitted, st')
        /\ EventTracker.type result = Ignored
        /\ EventTracker.ignoreReason result = Some "already_deferred"
        /\ RedisAdapter.hashes st' !! "event-tracker:auth:login_fail" = Some h'
        /\ RedisAdapter.h_count h' = 2
        /\ RedisAdapter.h_deferred h' = true
        /\ RedisAdapter.h_expiresAt h' == 1003 + 200).
Proof.
  assert (Hc : "auth" <> "") by discriminate.
  assert (Hi : "login_fail" <> "") by discriminate.
  split.
  - apply (proj1 (simple_counter_ignores_events_on_deferred_record
                    Example.platform Example.trackerConfig "auth" "login_fail"
                    JsUndefined Hc Hi)
             Example.deferredStore 1003 1003 Example.deferredRecord).
    + vm_compute. reflexivity.
    + reflexivity.
    + unfold Qle. simpl. lia.
    + reflexivity.
  - apply (proj2 (simple_counter_ignores_events_on_deferred_record
                    Example.platform Example.trackerConfig "auth" "login_fail"
                    JsUndefined Hc Hi)
             (Example.redisStore
                (Example.activeHash "" true RedisAdapter.emptyData
                   Example.simpleBlob))
             1003
             (Example.activeHash "" true RedisAdapter.emptyData
                Example.simpleBlob)).
    + vm_compute. reflexivity.
    + reflexivity.
    + unfold Qle. simpl. lia.
    + reflexivity.
Defined.

(** ** One observed call of [trackEvent] on the in-memory adapter *)

(** When the key is new and the key limit is off, or the stored record is
    live with the same details, the strategy decides on [prior] and its
    record is both returned and stored. *)
Lemma observe_step {C D : Type} (P : EventTracker.Platform)
    (strategy : BaseStrategy C D) (config : TrackerConfig)
    (st : InMemoryAdapter.State C D) (c i : string) (d : JsValue)
    (nowA nowS : num) (rest : list (num * num))
    (prior : option (EventRecord C D)) :
  c <> "" -> i <> "" ->
  (InMemoryAdapter.events st !! EventTracker.sha256hex P (c ++ ":" ++ i) = None
   /\ tc_maxKeys config <= 0 /\ prior = None)
  \/ (exists r,
        InMemoryAdapter.events st !! EventTracker.sha256hex P (c ++ ":" ++ i)
          = Some r
        /\ nowA <= expiresAt r
        /\ detailsHash r = EventTracker.generateDetailsHash P d
        /\ prior = Some r) ->
  Run.observe P strategy config st (JsString c) (JsString i) d
    ((nowA, nowS) :: rest)
  = let sr :=
      track config nowS prior
        {| se_compositeKey := EventTracker.sha256hex P (c ++ ":" ++ i);
           se_data :=
             {| ev_category := c; ev_id := i;
                ev_details :=
                  match d with
                  | JsUndefined => JsObject JsNoProps
                  | other => other
                  end;
                ev_detailsHash := EventTracker.generateDetailsHash P d |} |} in
    inr {| Run.seen := fst sr;
           Run.why := match fst sr with
                      | Ignored => Some "already_deferred"
                      | _ => None
                      end;
           Run.returnedCount := Some (count (snd sr));
           Run.storedCount := Some (count (snd sr)) |}
    :: Run.observe P strategy config
         (InMemoryAdapter.set st (EventTracker.sha256hex P (c ++ ":" ++ i))
            (snd sr))
         (JsString c) (JsString i) d rest.
Proof.
  intros Hc Hi Hprior. cbv zeta.
  set (k := EventTracker.sha256hex P (c ++ ":" ++ i)) in *.
  assert (Htrack :
    InMemoryAdapter.track strategy st nowA nowS k
      {| ev_category := c; ev_id := i;
         ev_details :=
           match d with JsUndefined => JsObject JsNoProps | other => other end;
         ev_detailsHash := EventTracker.generateDetailsHash P d |} config
    = let sr := track config nowS prior
                  {| se_compositeKey := k;
                     se_data :=
                       {| ev_category := c; ev_id := i;
                          ev_details :=
                            match d with
                            | JsUndefined => JsObject JsNoProps
                            | other => other
                            end;
                          ev_detailsHash :=
                            EventTracker.generateDetailsHash P d |} |} in
      ({| outcome := fst sr; record := Some (snd sr); reason := None |},
       InMemoryAdapter.set st k (snd sr))).
  { destruct Hprior as [(Habsent & Hoff & ->) | (r & Hstored & Hlive & Hhash & ->)].
    - apply track_new_key; [exact Habsent | left; exact Hoff].
    - rewrite (track_stored strategy config st nowA nowS k _ r Hstored).
      rewrite (priorRecord_fresh st nowA k _ r Hstored Hlive); [| exact Hhash].
      reflexivity. }
  cbv zeta in Htrack.
  unfold Run.observe; fold (Run.observe P strategy config).
  unfold InMemoryTracker.trackEvent.
  rewrite (trackEvent_valid_identity P st _ c i d Hc Hi). cbv zeta.
  fold k. unfold InMemoryTracker.storageTrack. rewrite Htrack.
  rewrite (generateCompositeKey_ok P c i Hc Hi). fold k.
  destruct (track config nowS prior _) as [o u].
  cbn [fst snd outcome record reason].
  assert (Hget : InMemoryAdapter.get (InMemoryAdapter.set st k u) k = Some u)
    by apply set_lookup_same.
  destruct o; cbn [outcome record reason EventTracker.type EventTracker.data
                   EventTracker.ignoreReason default fmap option_fmap option_map];
    rewrite Hget; reflexivity.
Qed.

(** ** The simple counter scenario *)

(** C1.  With the simple counter strategy and [limit = 2],
    [deferInterval = 100], [expireTime = 200], four events with the same
    category, id and details, each arriving before the record of the
    previous one has expired, yield the outcomes immediate, immediate,
    deferred, ignored (reason [already_deferred]) in that order; both the
    returned and the stored counts are 1, 2, 3, 3.  The clock readings of
    the adapter ([a1] .. [a4]) and of the strategy ([s1] .. [s4]) are
    arbitrary otherwise. *)
Theorem simple_counter_defers_after_limit
    (P : EventTracker.Platform) (c i : string) (d : JsValue)
    (a1 s1 a2 s2 a3 s3 a4 s4 : num) :
  c <> "" -> i <> "" ->
  a2 <= s1 + 200 -> a3 <= s2 + 200 -> a4 <= s3 + 200 ->
  Run.observe P SimpleCounterStrategy.strategy Example.trackerConfig
    InMemoryAdapter.empty (JsString c) (JsString i) d
    [(a1, s1); (a2, s2); (a3, s3); (a4, s4)]
  = [ inr {| Run.seen := Immediate; Run.why := None;
             Run.returnedCount := Some 1; Run.storedCount := Some 1 |};
      inr {| Run.seen := Immediate; Run.why := None;
             Run.returnedCount := Some 2; Run.storedCount := Some 2 |};
      inr {| Run.seen := Deferred; Run.why := None;
             Run.returnedCount := Some 3; Run.storedCount := Some 3 |};
      inr {| Run.seen := Ignored; Run.why := Some "already_deferred";
             Run.returnedCount := Some 3; Run.storedCount := Some 3 |} ].
Proof.
  intros Hc Hi H2 H3 H4.
  set (k := EventTracker.sha256hex P (c ++ ":" ++ i)).
  set (sev := {| se_compositeKey := k;
                 se_data :=
                   {| ev_category := c; ev_id := i;
                      ev_details :=
                        match d with
                        | JsUndefined => JsObject JsNoProps
                        | other => other
                        end;
                      ev_detailsHash := EventTracker.generateDetailsHash P d |} |}).
  set (r1 := snd (SimpleCounterStrategy.track Example.trackerConfig s1 None sev)).
  set (r2 := snd (SimpleCounterStrategy.track Example.trackerConfig s2 (Some r1) sev)).
  set (r3 := snd (SimpleCounterStrategy.track Example.trackerConfig s3 (Some r2) sev)).
  set (r4 := snd (SimpleCounterStrategy.track Example.trackerConfig s4 (Some r3) sev)).
  assert (E1 : SimpleCounterStrategy.track Example.trackerConfig s1 None sev
               = (Immediate, r1)) by reflexivity.
  assert (E2 : SimpleCounterStrategy.track Example.trackerConfig s2 (Some r1) sev
               = (Immediate, r2)) by reflexivity.
  assert (E3 : SimpleCounterStrategy.track Example.trackerConfig s3 (Some r2) sev
               = (Deferred, r3)) by reflexivity.
  assert (E4 : SimpleCounterStrategy.track Example.trackerConfig s4 (Some r3) sev
               = (Ignored, r4)) by reflexivity.
  assert (X1 : expiresAt r1 == s1 + 200).
  { change (expiresAt r1) with (Num.add s1 200). apply add_spec. }
  assert (X2 : expiresAt r2 == s2 + 200).
  { change (expiresAt r2) with (Num.add s2 200). apply add_spec. }
  assert (X3 : expiresAt r3 == s3 + 200).
  { change (expiresAt r3) with (Num.add s3 200). apply add_spec. }
  rewrite (observe_step P SimpleCounterStrategy.strategy Example.trackerConfig
             InMemoryAdapter.empty c i d a1 s1 _ None Hc Hi).
  2:{ left. split; [apply lookup_empty|]. split; [|reflexivity].
      unfold Qle. simpl. lia. }
  cbv zeta. fold k. fold sev.
  change (track Example.trackerConfig s1 None sev)
    with (SimpleCounterStrategy.track Example.trackerConfig s1 None sev).
  rewrite E1. cbn [fst snd].
  rewrite (observe_step P SimpleCounterStrategy.strategy Example.trackerConfig
             _ c i d a2 s2 _ (Some r1) Hc Hi).
  2:{ right. exists r1. fold k. rewrite set_lookup_same.
      split; [reflexivity|]. split; [rewrite X1; exact H2|].
      split; reflexivity. }
  cbv zeta. fold k. fold sev.
  change (track Example.trackerConfig s2 (Some r1) sev)
    with (SimpleCounterStrategy.track Example.trackerConfig s2 (Some r1) sev).
  rewrite E2. cbn [fst snd].
  rewrite (observe_step P SimpleCounterStrategy.strategy Example.trackerConfig
             _ c i d a3 s3 _ (Some r2) Hc Hi).
  2:{ right. exists r2. fold k. rewrite set_lookup_same.
      split; [reflexivity|]. split; [rewrite X2; exact H3|].
      split; reflexivity. }
  cbv zeta. fold k. fold sev.
  change (track Example.trackerConfig s3 (Some r2) sev)
    with (SimpleCounterStrategy.track Example.trackerConfig s3 (Some r2) sev).
  rewrite E3. cbn [fst snd].
  rewrite (observe_step P SimpleCounterStrategy.strategy Example.trackerConfig
             _ c i d a4 s4 _ (Some r3) Hc Hi).
  2:{ right. exists r3. fold k. rewrite set_lookup_same.
      split; [reflexivity|]. split; [rewrite X3; exact H4|].
      split; reflexivity. }
  cbv zeta. fold k. fold sev.
  change (track Example.trackerConfig s4 (Some r3) sev)
    with (SimpleCounterStrategy.track Example.trackerConfig s4 (Some r3) sev).
  rewrite E4. cbn [fst snd].
  reflexivity.
Qed.

Lemma simple_counter_defers_after_limit_witness :
  Run.observe Example.platform SimpleCounterStrategy.strategy
    Example.trackerConfig InMemoryAdapter.empty
    (JsString "auth") (JsString "login_fail") JsUndefined
    [(1000, 1000); (1001, 1001); (1002, 1002); (1003, 1003)]
  = [ inr {| Run.seen := Immediate; Run.why := None;
             Run.returnedCount := Some 1; Run.storedCount := Some 1 |};
      inr {| Run.seen := Immediate; Run.why := None;
             Run.returnedCount := Some 2; Run.storedCount := Some 2 |};
      inr {| Run.seen := Deferred; Run.why := None;
             Run.returnedCount := Some 3; Run.storedCount := Some 3 |};
      inr {| Run.seen := Ignored; Run.why := Some "already_deferred";
             Run.returnedCount := Some 3; Run.storedCount := Some 3 |} ].
Proof.
  apply (simple_counter_defers_after_limit Example.platform "auth" "login_fail"
           JsUndefined 1000 1000 1001 1001 1002 1002 1003 1003).
  - discriminate.
  - discriminate.
  - unfold Qle. simpl. lia.
  - unfold Qle. simpl. lia.
  - unfold Qle. simpl. lia.
Defined.

(** ** The token bucket on an existing record *)

Lemma token_refill_spec (config : TokenBucketStrategy.Config)
    (data : TokenBucketStrategy.Data) (now : num) :
  TokenBucketStrategy.refill config data now
  == Qmin (TokenBucketStrategy.bucketSize config)
          (TokenBucketStrategy.tokens data
           + (now - TokenBucketStrategy.lastRefill data) / 1000
             * TokenBucketStrategy.refillRate config).
Proof.
  unfold TokenBucketStrategy.refill, TokenBucketStrategy.MS_PER_SECOND.
  rewrite min_spec, add_spec, mul_spec, div_spec, sub_spec. reflexivity.
Qed.

Lemma script_refill_spec (bucketSize refillRate tokens lastRefill now : num) :
  RedisAdapter.refill bucketSize refillRate tokens lastRefill now
  == Qmin bucketSize (tokens + (now - lastRefill) / 1000 * refillRate).
Proof.
  unfold RedisAdapter.refill.
  rewrite min_spec, add_spec, mul_spec, div_spec, sub_spec. reflexivity.
Qed.

Lemma next_token_delay_spec (now tokens refillRate : num) :
  Num.add now
    (Num.max (Num.mul (Num.sub 1 tokens) (Num.div 1000 refillRate)) 1)
  == now + Qmax 1 ((1 - tokens) * (1000 / refillRate)).
Proof.
  rewrite add_spec, max_spec, mul_spec, sub_spec, div_spec, Q.max_comm.
  reflexivity.
Qed.



(** ** The stored count along a run *)

Lemma slidingActiveStore_reached :
  Run.run (SlidingWindowStrategy.strategy 10 1000) Example.slidingConfig
    InMemoryAdapter.empty
    [Example.stepAt 0; Example.stepAt 0; Example.stepAt 0]
  = Example.slidingActiveStore.
Proof. vm_compute. reflexivity. Qed.

(** C6, as stated, fails for the sliding window: after three events at time
    0 the stored count is 3; the next event, at time 2500 and well before
    the record expires, is immediate and stores count 1. *)
Lemma sliding_window_count_drops :
  ~ Run.countNeverDrops (SlidingWindowStrategy.strategy 10 1000)
      Example.slidingConfig.
Proof.
  intros H.
  destruct (InMemoryAdapter.track (SlidingWindowStrategy.strategy 10 1000)
              Example.slidingActiveStore 2500 2500 "auth:login_fail"
              (Example.event "") Example.slidingConfig)
    as [result st'] eqn:E.
  destruct (H Example.slidingActiveStore 2500 2500 "auth:login_fail"
              (Example.event "") Example.slidingActiveRecord result st')
    as (r' & Hr' & Hle).
  - vm_compute. reflexivity.
  - intros r0 Hr0. vm_compute in Hr0. injection Hr0 as <-.
    split; [unfold Qle; simpl; lia | reflexivity].
  - exact E.
  - vm_compute in E. injection E as <- _. discriminate.
  - vm_compute in E. injection E as _ <-.
    vm_compute in Hr'. injection Hr' as <-.
    revert Hle. unfold Qle. simpl. lia.
Qed.

Section CountAlongRun.
Context {C D : Type}.
Variable strategy : BaseStrategy C D.
Variable config : TrackerConfig.

(** What a strategy must satisfy: on an existing record it never lowers
    [count]. *)
Hypothesis strategy_keeps_count :
  forall (now : num) (r : EventRecord C D) (eventData : StrategyEvent),
    count r <= count (snd (track config now (Some r) eventData)).

Lemma step_count_monotone (k : string) (st : InMemoryAdapter.State C D)
    (s : Run.Step) (r : EventRecord C D) :
  InMemoryAdapter.events st !! k = Some r ->
  (Run.stepKey s = k -> Run.fresh st (Run.nowAdapter s) k (Run.stepEvent s)) ->
  exists r', InMemoryAdapter.events (Run.step strategy config st s) !! k = Some r'
             /\ count r <= count r'.
Proof.
  intros Hstored Hfresh. unfold Run.step.
  destruct (string_dec (Run.stepKey s) k) as [Hk | Hk].
  - destruct (Hfresh Hk r Hstored) as [Hlive Hhash].
    rewrite Hk.
    rewrite (track_stored strategy config st _ _ k _ r Hstored).
    rewrite (priorRecord_fresh st _ k _ r Hstored Hlive Hhash).
    cbv zeta. cbn [snd]. rewrite set_lookup_same.
    eexists. split; [reflexivity|]. apply strategy_keeps_count.
  - rewrite (track_other_key strategy config st _ _ k _ _ Hk).
    exists r. split; [exact Hstored | apply Qle_refl].
Qed.

Lemma run_count_monotone (k : string) (steps : list Run.Step) :
  forall (st : InMemoryAdapter.State C D) (r : EventRecord C D),
    InMemoryAdapter.events st !! k = Some r ->
    Run.oneLifetime strategy config k st steps ->
    exists r', InMemoryAdapter.events (Run.run strategy config st steps) !! k
               = Some r'
               /\ count r <= count r'.
Proof.
  induction steps as [| s steps IH]; intros st r Hstored Hlife.
  - exists r. split; [exact Hstored | apply Qle_refl].
  - destruct Hlife as [Hfresh Hrest].
    destruct (step_count_monotone k st s r Hstored Hfresh) as (r1 & Hr1 & Hle1).
    destruct (IH _ r1 Hr1 Hrest) as (r' & Hr' & Hle').
    exists r'. split; [exact Hr' | exact (Qle_trans _ _ _ Hle1 Hle')].
Qed.

Lemma oneLifetime_app (k : string) (before after : list Run.Step) :
  forall st : InMemoryAdapter.State C D,
    Run.oneLifetime strategy config k st (before ++ after) ->
    Run.oneLifetime strategy config k st before
    /\ Run.oneLifetime strategy config k (Run.run strategy config st before) after.
Proof.
  induction before as [| s before IH]; intros st Hlife.
  - split; [exact I | exact Hlife].
  - destruct Hlife as [Hfresh Hrest]. destruct (IH _ Hrest) as [Hb Ha].
    split; [split; assumption | exact Ha].
Qed.

(** Between any two points of a run that stays within one record lifetime,
    the stored count does not decrease. *)
Lemma count_monotone_between (k : string) (before after : list Run.Step)
    (st : InMemoryAdapter.State C D) (r : EventRecord C D) :
  InMemoryAdapter.events st !! k = Some r ->
  Run.oneLifetime strategy config k st (before ++ after) ->
  exists r1 r2,
    InMemoryAdapter.events (Run.run strategy config st before) !! k = Some r1
    /\ InMemoryAdapter.events (Run.run strategy config st (before ++ after)) !! k
       = Some r2
    /\ count r <= count r1
    /\ count r1 <= count r2.
Proof.
  intros Hstored Hlife. destruct (oneLifetime_app k before after st Hlife) as [Hb Ha].
  destruct (run_count_monotone k before st r Hstored Hb) as (r1 & Hr1 & Hle1).
  destruct (run_count_monotone k after _ r1 Hr1 Ha) as (r2 & Hr2 & Hle2).
  exists r1, r2. unfold Run.run in *. rewrite fold_left_app.
  repeat split; assumption.
Qed.
End CountAlongRun.

Lemma simple_keeps_count (config : TrackerConfig) (now : num)
    (r : EventRecord SimpleCounterStrategy.Config unit)
    (eventData : StrategyEvent) :
  count r <= count (snd (SimpleCounterStrategy.track config now (Some r) eventData)).
Proof.
  unfold SimpleCounterStrategy.track.
  destruct (deferred r); [apply Qle_refl|].
  unfold SimpleCounterStrategy.checkLimit.
  destruct (Num.gt _ _); simpl; apply count_step_le.
Qed.

Lemma token_bucket_keeps_count (bucketSize refillRate : num)
    (config : TrackerConfig) (now : num)
    (r : EventRecord TokenBucketStrategy.Config TokenBucketStrategy.Data)
    (eventData : StrategyEvent) :
  count r <= count (snd (TokenBucketStrategy.track bucketSize refillRate config
                           now (Some r) eventData)).
Proof.
  unfold TokenBucketStrategy.track. cbv zeta.
  destruct (Num.ge _ _); simpl; [apply count_step_le | apply Qle_refl].
Qed.

(** C6 (amended).  Under the simple counter and the token bucket strategy,
    for every identity [k] and every sequence of [track] calls (on any
    identities) during which the record of [k] is not reinitialized, the
    stored count of [k] never decreases: it is at least the initial count
    after any prefix of the sequence, and at least that after the whole
    sequence.  Ignored events are covered too; they leave the count
    unchanged. *)
Theorem count_is_monotone_within_lifetime
    (config : TrackerConfig) (k : string) :
  (forall (before after : list Run.Step)
          (st : InMemoryAdapter.State SimpleCounterStrategy.Config unit)
          (r : EventRecord SimpleCounterStrategy.Config unit),
      InMemoryAdapter.events st !! k = Some r ->
      Run.oneLifetime SimpleCounterStrategy.strategy config k st (before ++ after) ->
      exists r1 r2,
        InMemoryAdapter.events
          (Run.run SimpleCounterStrategy.strategy config st before) !! k = Some r1
        /\ InMemoryAdapter.events
             (Run.run SimpleCounterStrategy.strategy config st (before ++ after))
             !! k = Some r2
        /\ count r <= count r1
        /\ count r1 <= count r2)
  /\ (forall (bucketSize refillRate : num) (before after : list Run.Step)
             (st : InMemoryAdapter.State TokenBucketStrategy.Config
                     TokenBucketStrategy.Data)
             (r : EventRecord TokenBucketStrategy.Config TokenBucketStrategy.Data),
      InMemoryAdapter.events st !! k = Some r ->
      Run.oneLifetime (TokenBucketStrategy.strategy bucketSize refillRate)
        config k st (before ++ after) ->
      exists r1 r2,
        InMemoryAdapter.events
          (Run.run (TokenBucketStrategy.strategy bucketSize refillRate) config
             st before) !! k = Some r1
        /\ InMemoryAdapter.events
             (Run.run (TokenBucketStrategy.strategy bucketSize refillRate)
                config st (before ++ after)) !! k = Some r2
        /\ count r <= count r1
        /\ count r1 <= count r2).
Proof.
  split.
  - intros before after st r.
    apply (count_monotone_between SimpleCounterStrategy.strategy config
             (simple_keeps_count config)).
  - intros bucketSize refillRate before after st r.
    apply (count_monotone_between
             (TokenBucketStrategy.strategy bucketSize refillRate) config
             (token_bucket_keeps_count bucketSize refillRate config)).
Qed.

(** Freshness of a concrete store for a concrete event, by evaluation. *)
Ltac fresh_by_evaluation :=
  let r0 := fresh "r0" in
  let Hr0 := fresh "Hr0" in
  intros _ r0 Hr0; vm_compute in Hr0; injection Hr0 as <-;
  split; [unfold Qle; simpl; lia | reflexivity].

Lemma count_is_monotone_within_lifetime_witness :
  (exists r1 r2,
      InMemoryAdapter.events
        (Run.run SimpleCounterStrategy.strategy Example.trackerConfig
           (Example.activeStore "") [Example.stepAt 1001])
        !! "auth:login_fail" = Some r1
      /\ InMemoryAdapter.events
           (Run.run SimpleCounterStrategy.strategy Example.trackerConfig
              (Example.activeStore "")
              ([Example.stepAt 1001] ++ [Example.stepAt 1002]))
           !! "auth:login_fail" = Some r2
      /\ 2 <= count r1
      /\ count r1 <= count r2)
  /\ (exists r1 r2,
        InMemoryAdapter.events
          (Run.run (TokenBucketStrategy.strategy 5 10) Example.trackerConfig
             (Example.bucketStore 1) [Example.stepAt 1000])
          !! "auth:login_fail" = Some r1
        /\ InMemoryAdapter.events
             (Run.run (TokenBucketStrategy.strategy 5 10) Example.trackerConfig
                (Example.bucketStore 1)
                ([Example.stepAt 1000] ++ [Example.stepAt 1000]))
             !! "auth:login_fail" = Some r2
        /\ 2 <= count r1
        /\ count r1 <= count r2).
Proof.
  split.
  - apply (proj1 (count_is_monotone_within_lifetime Example.trackerConfig
                    "auth:login_fail")
             [Example.stepAt 1001] [Example.stepAt 1002]
             (Example.activeStore "") (Example.activeRecord "")).
    + vm_compute. reflexivity.
    + simpl. split; [fresh_by_evaluation|]. split; [fresh_by_evaluation | exact I].
  - apply (proj2 (count_is_monotone_within_lifetime Example.trackerConfig
                    "auth:login_fail")
             5 10 [Example.stepAt 1000] [Example.stepAt 1000]
             (Example.bucketStore 1) (Example.bucketRecord 1 false)).
    + vm_compute. reflexivity.
    + simpl. split; [fresh_by_evaluation|]. split; [fresh_by_evaluation | exact I].
Defined.

(** ** Processor failure: retries, backoff and the final report *)

(** C7: the code at the failing input.  A processor whose promise rejects
    with [null] on every attempt, on a tracker with [maxRetries = 2],
    [retryDelay = 10], a listener for 'error' and one due record.  The
    three attempts and the two backoffs (delays 10 and 20) take place and
    [process_failed] is emitted with the thrown value, the batch and
    [attempts = 3]; building the message of the final error then reads
    [message] off [null], so the call rejects with that [TypeError] and no
    [error] notification follows.  When the processor throws a value that
    carries a message, the same run ends with [process_failed] followed by
    [error] and resolves to the batch.  Either way the record has left the
    store. *)
Theorem null_rejection_is_not_followed_by_error :
  let batch := [Example.deferredRecord] in
  let attempts :=
    [ EventTracker.Invoke 0 batch;
      EventTracker.Emit (EventTracker.EmitRetry 1 (JsFinite 2) (JsFinite 10) batch);
      EventTracker.Sleep (JsFinite 10);
      EventTracker.Invoke 1 batch;
      EventTracker.Emit (EventTracker.EmitRetry 2 (JsFinite 2) (JsFinite 20) batch);
      EventTracker.Sleep (JsFinite 20);
      EventTracker.Invoke 2 batch ] in
  InMemoryTracker.processDeferredEvents
    (Some (fun _ _ => Some EventTracker.RaisedNull))
    (JsFinite 2) (JsFinite 10) true Example.deferredStore 1150 8
  = (EventTracker.RejectedTypeError,
     (attempts
      ++ [ EventTracker.Emit
             (EventTracker.EmitProcessFailed EventTracker.RaisedNull batch
                (JsFinite 3)) ])%list,
     InMemoryAdapter.empty)
  /\ Run.errorCount
       (snd (fst (InMemoryTracker.processDeferredEvents
                    (Some (fun _ _ => Some EventTracker.RaisedNull))
                    (JsFinite 2) (JsFinite 10) true Example.deferredStore 1150 8)))
     = 0%nat
  /\ InMemoryTracker.processDeferredEvents
       (Some (fun _ _ => Some (EventTracker.RaisedValue "boom")))
       (JsFinite 2) (JsFinite 10) true Example.deferredStore 1150 8
     = (EventTracker.Resolved batch,
        (attempts
         ++ [ EventTracker.Emit
                (EventTracker.EmitProcessFailed
                   (EventTracker.RaisedValue "boom") batch (JsFinite 3));
              EventTracker.Emit
                (EventTracker.EmitError
                   (EventTracker.ProcessorCallbackFailed (JsFinite 3)
                      "boom")) ])%list,
        InMemoryAdapter.empty).
Proof.
  cbv zeta. repeat split; vm_compute; reflexivity.
Qed.

(** ** Reinitialization of a stale record *)

Lemma simple_first_count (config : TrackerConfig) (now : num)
    (eventData : StrategyEvent) :
  count (snd (SimpleCounterStrategy.track config now None eventData)) = 1.
Proof.
  unfold SimpleCounterStrategy.track, SimpleCounterStrategy.checkLimit.
  destruct (Num.gt _ _); reflexivity.
Qed.

(** In the in-memory adapter the freshness rule holds as the specification
    states it, for the three strategies: a stored record that is expired or
    carries another fingerprint is replaced by a record with count 1, and a
    live record with the same fingerprint is handed to the strategy. *)
Lemma stale_record_restarts_at_one_in_memory
    (config : TrackerConfig) (nowA nowS : num) (k : string)
    (eventData : EventData) :
  (forall (st : InMemoryAdapter.State SimpleCounterStrategy.Config unit) r,
      InMemoryAdapter.events st !! k = Some r ->
      expiresAt r < nowA \/ detailsHash r <> ev_detailsHash eventData ->
      exists r',
        record (fst (InMemoryAdapter.track SimpleCounterStrategy.strategy st
                       nowA nowS k eventData config)) = Some r'
        /\ count r' = 1)
  /\ (forall bucketSize refillRate
             (st : InMemoryAdapter.State TokenBucketStrategy.Config
                     TokenBucketStrategy.Data) r,
      InMemoryAdapter.events st !! k = Some r ->
      expiresAt r < nowA \/ detailsHash r <> ev_detailsHash eventData ->
      exists r',
        record (fst (InMemoryAdapter.track
                       (TokenBucketStrategy.strategy bucketSize refillRate) st
                       nowA nowS k eventData config)) = Some r'
        /\ count r' = 1)
  /\ (forall limit windowSize
             (st : InMemoryAdapter.State SlidingWindowStrategy.Config
                     SlidingWindowStrategy.Data) r,
      InMemoryAdapter.events st !! k = Some r ->
      expiresAt r < nowA \/ detailsHash r <> ev_detailsHash eventData ->
      exists r',
        record (fst (InMemoryAdapter.track
                       (SlidingWindowStrategy.strategy limit windowSize) st
                       nowA nowS k eventData config)) = Some r'
        /\ count r' = 1).
Proof.
  split; [| split].
  - intros st r Hstored Hstale.
    rewrite (track_stored SimpleCounterStrategy.strategy config st nowA nowS k
               eventData r Hstored).
    rewrite (priorRecord_stale st nowA k eventData r Hstored Hstale).
    cbv zeta. cbn [fst record]. eexists. split; [reflexivity|].
    apply simple_first_count.
  - intros bucketSize refillRate st r Hstored Hstale.
    rewrite (track_stored (TokenBucketStrategy.strategy bucketSize refillRate)
               config st nowA nowS k eventData r Hstored).
    rewrite (priorRecord_stale st nowA k eventData r Hstored Hstale).
    cbv zeta. cbn [fst record]. eexists. split; reflexivity.
  - intros limit windowSize st r Hstored Hstale.
    rewrite (track_stored (SlidingWindowStrategy.strategy limit windowSize)
               config st nowA nowS k eventData r Hstored).
    rewrite (priorRecord_stale st nowA k eventData r Hstored Hstale).
    cbv zeta. cbn [fst record]. eexists. split; reflexivity.
Qed.

(** The simple arm of the track script restarts a stale hash at count 1. *)
Lemma stale_hash_restarts_at_one_simple (st : RedisAdapter.State)
    (recordKey k category id : string) (details : JsValue) (dh : string)
    (now expireTime maxKeys sParam1 sParam2 sParam3 : num)
    (initialConfig : RedisAdapter.ConfigBlob) (h : RedisAdapter.Hash) :
  RedisAdapter.hashes st !! recordKey = Some h ->
  RedisAdapter.h_expiresAt h < now \/ RedisAdapter.h_detailsHash h <> dh ->
  exists h',
    RedisAdapter.hashes
      (snd (RedisAdapter.trackScript st recordKey k category id details dh now
              expireTime maxKeys "simple" sParam1 sParam2 sParam3
              initialConfig)) !! recordKey = Some h'
    /\ RedisAdapter.h_count h' = 1.
Proof.
  intros Hstored Hstale.
  assert (Hnew : Num.gt now (RedisAdapter.h_expiresAt h)
                 || negb (String.eqb (RedisAdapter.h_detailsHash h) dh) = true).
  { destruct Hstale as [Hexp | Hchg].
    - apply gt_true_iff in Hexp. rewrite Hexp. reflexivity.
    - apply String.eqb_neq in Hchg. rewrite Hchg. apply orb_true_r. }
  unfold RedisAdapter.trackScript, RedisAdapter.exists_. rewrite Hstored.
  cbv beta iota zeta. cbn [orb]. rewrite Hnew.
  cbn [andb orb negb]. rewrite andb_false_r.
  change (String.eqb "simple" "simple") with true. cbv beta iota.
  cbn [snd RedisAdapter.hashes]. rewrite lookup_insert_eq.
  eexists. split; [reflexivity|]. cbn [RedisAdapter.h_count].
  unfold RedisAdapter.simpleArm. change (Num.add 0 1) with 1.
  destruct (Num.gt 1 sParam1); reflexivity.
Qed.

(** C3: the code at the failing input.  A tracker on the Redis adapter with
    a sliding window of [limit = 0] receives an event for a new identity and
    then one with changed details.  The track script treats the stored
    record as absent, yet its sliding-window arm defers without assigning
    [count]: the reinitialized record is stored and returned with count 0.
    The in-memory adapter, given the same strategy and events, restarts the
    record at count 1. *)
Theorem script_reset_stores_count_zero :
  exists r1 st1 r2 st2 h2,
    RedisAdapter.track (RedisAdapter.slidingWindow 0 1000) RedisAdapter.empty
      1000 "auth:login_fail" (Example.event "a") Example.slidingConfig
    = (inr {| outcome := Deferred; record := Some r1; reason := None |}, st1)
    /\ RedisAdapter.track (RedisAdapter.slidingWindow 0 1000) st1
         1001 "auth:login_fail" (Example.event "b") Example.slidingConfig
       = (inr {| outcome := Deferred; record := Some r2; reason := None |}, st2)
    /\ count r2 = 0
    /\ RedisAdapter.hashes st2 !! "event-tracker:auth:login_fail" = Some h2
    /\ RedisAdapter.h_count h2 = 0
    /\ RedisAdapter.h_detailsHash h2 = "b"
    /\ exists q1 m1 q2 m2,
         InMemoryAdapter.track (SlidingWindowStrategy.strategy 0 1000)
           InMemoryAdapter.empty 1000 1000 "auth:login_fail"
           (Example.event "a") Example.slidingConfig
         = ({| outcome := Immediate; record := Some q1; reason := None |}, m1)
         /\ InMemoryAdapter.track (SlidingWindowStrategy.strategy 0 1000) m1
              1001 1001 "auth:login_fail" (Example.event "b")
              Example.slidingConfig
            = ({| outcome := Immediate; record := Some q2; reason := None |}, m2)
         /\ count q2 = 1.
Proof.
  do 5 eexists.
  split; [vm_compute; reflexivity|].
  split; [vm_compute; reflexivity|].
  split; [reflexivity|].
  split; [vm_compute; reflexivity|].
  split; [reflexivity|]. split; [reflexivity|].
  do 4 eexists.
  split; [vm_compute; reflexivity|].
  split; [vm_compute; reflexivity|].
  reflexivity.
Qed.

(** * Further properties of the code *)

(** ** The in-memory adapter: index, round trips, harvesting *)

Section InMemoryStore.
Context {C D : Type}.
Implicit Type st : InMemoryAdapter.State C D.
Implicit Type r : EventRecord C D.

Lemma indexed_empty : Invariant.indexed (@InMemoryAdapter.empty C D).
Proof.
  intros k. simpl. split.
  - intros H. exfalso. revert H. apply not_elem_of_empty.
  - intros (r & H & _). rewrite lookup_empty in H. discriminate.
Qed.

Lemma indexed_set st k r :
  Invariant.indexed st -> Invariant.indexed (InMemoryAdapter.set st k r).
Proof.
  intros Hinv k'. unfold InMemoryAdapter.set, InMemoryAdapter.indexDeferred.
  cbn [InMemoryAdapter.events InMemoryAdapter.deferredKeys].
  destruct (decide (k = k')) as [<- | Hne].
  - rewrite lookup_insert_eq. destruct (deferred r) eqn:Hd.
    + split; [intros _; exists r; auto|].
      intros _. apply elem_of_union_l, elem_of_singleton. reflexivity.
    + rewrite elem_of_difference, elem_of_singleton. split.
      * intros [_ Hk]. contradiction.
      * intros (r' & Hr' & Hd'). injection Hr' as <-. congruence.
  - rewrite lookup_insert_ne by exact Hne. rewrite <- (Hinv k').
    destruct (deferred r).
    + rewrite elem_of_union, elem_of_singleton. split; [|auto].
      intros [Hk | Hk]; [congruence | exact Hk].
    + rewrite elem_of_difference, elem_of_singleton. split; [tauto|].
      intros Hk. split; [exact Hk | congruence].
Qed.

Lemma indexed_delete st k :
  Invariant.indexed st -> Invariant.indexed (InMemoryAdapter.delete st k).
Proof.
  intros Hinv k'. unfold InMemoryAdapter.delete.
  cbn [InMemoryAdapter.events InMemoryAdapter.deferredKeys].
  rewrite elem_of_difference, elem_of_singleton.
  destruct (decide (k = k')) as [<- | Hne].
  - rewrite lookup_delete_eq. split.
    + intros [_ Hk]. contradiction.
    + intros (r' & Hr' & _). discriminate.
  - rewrite lookup_delete_ne by exact Hne. rewrite <- (Hinv k').
    split; [tauto|]. intros Hk. split; [exact Hk | congruence].
Qed.

Lemma indexed_fold_delete (keys : list string) :
  forall st, Invariant.indexed st ->
             Invariant.indexed (fold_left InMemoryAdapter.delete keys st).
Proof.
  induction keys as [| k keys IH]; intros st Hinv; [exact Hinv|].
  simpl. apply IH. apply indexed_delete. exact Hinv.
Qed.

Lemma indexed_update st k (updateFn : EventRecord C D -> EventRecord C D) :
  Invariant.indexed st ->
  Invariant.indexed (snd (InMemoryAdapter.update st k updateFn)).
Proof.
  intros Hinv. unfold InMemoryAdapter.update.
  destruct (InMemoryAdapter.events st !! k); [apply indexed_set|]; exact Hinv.
Qed.

Lemma indexed_track (strategy : BaseStrategy C D) st nowA nowS k eventData config :
  Invariant.indexed st ->
  Invariant.indexed
    (snd (InMemoryAdapter.track strategy st nowA nowS k eventData config)).
Proof.
  intros Hinv. unfold InMemoryAdapter.track.
  destruct (_ && _ && _ && _); [exact Hinv|].
  destruct (track config nowS _ _) as [o u]. apply indexed_set. exact Hinv.
Qed.

Lemma indexed_purgeExpired st now :
  Invariant.indexed st -> Invariant.indexed (InMemoryAdapter.purgeExpired st now).
Proof.
  intros Hinv k. unfold InMemoryAdapter.purgeExpired.
  cbn [InMemoryAdapter.events InMemoryAdapter.deferredKeys].
  rewrite elem_of_filter, (Hinv k). unfold InMemoryAdapter.keySurvives. split.
  - intros (Hs & r & Hr & Hd). rewrite Hr in Hs. exists r. split; [|exact Hd].
    apply map_lookup_filter_Some. split; [exact Hr | exact Hs].
  - intros (r & Hr & Hd). apply map_lookup_filter_Some in Hr as [Hr Hs].
    split; [rewrite Hr; exact Hs | exists r; auto].
Qed.

(** What folding [delete] over a list of keys leaves. *)
Lemma fold_delete_events (keys : list string) :
  forall st k,
    InMemoryAdapter.events (fold_left InMemoryAdapter.delete keys st) !! k
    = if bool_decide (k ∈ keys) then None else InMemoryAdapter.events st !! k.
Proof.
  induction keys as [| a keys IH]; intros st k.
  - rewrite bool_decide_eq_false_2 by apply not_elem_of_nil. reflexivity.
  - simpl. rewrite IH. cbn [InMemoryAdapter.delete InMemoryAdapter.events].
    destruct (decide (k ∈ keys)) as [Hin | Hout].
    + rewrite !bool_decide_eq_true_2; [reflexivity | | exact Hin].
      apply elem_of_cons. right. exact Hin.
    + rewrite (bool_decide_eq_false_2 _ Hout).
      destruct (decide (k = a)) as [-> | Hne].
      * rewrite bool_decide_eq_true_2 by apply list_elem_of_here.
        apply lookup_delete_eq.
      * rewrite bool_decide_eq_false_2.
        -- apply lookup_delete_ne. congruence.
        -- intros [? | ?]%elem_of_cons; contradiction.
Qed.

Lemma fold_delete_keys (keys : list string) :
  forall st k,
    k ∈ InMemoryAdapter.deferredKeys (fold_left InMemoryAdapter.delete keys st)
    <-> k ∈ InMemoryAdapter.deferredKeys st /\ k ∉ keys.
Proof.
  induction keys as [| a keys IH]; intros st k.
  - split; [intros H; split; [exact H | apply not_elem_of_nil] | tauto].
  - simpl. rewrite IH. cbn [InMemoryAdapter.delete InMemoryAdapter.deferredKeys].
    rewrite elem_of_difference, elem_of_singleton, not_elem_of_cons. tauto.
Qed.

Lemma fold_delete_size (keys : list string) :
  forall st,
    NoDup keys ->
    (forall k, k ∈ keys -> is_Some (InMemoryAdapter.events st !! k)) ->
    (InMemoryAdapter.size (fold_left InMemoryAdapter.delete keys st)
     + List.length keys = InMemoryAdapter.size st)%nat.
Proof.
  induction keys as [| a keys IH]; intros st Hnodup Hpresent.
  - simpl. lia.
  - apply NoDup_cons in Hnodup as [Hfresh Hnodup]. simpl.
    assert (Ha : is_Some (InMemoryAdapter.events st !! a))
      by (apply Hpresent; apply list_elem_of_here).
    destruct Ha as [ra Ha].
    assert (Hsize : InMemoryAdapter.size st
                    = S (InMemoryAdapter.size (InMemoryAdapter.delete st a))).
    { unfold InMemoryAdapter.size. cbn [InMemoryAdapter.delete InMemoryAdapter.events].
      rewrite <- (insert_delete_id (InMemoryAdapter.events st) a ra Ha) at 1.
      apply map_size_insert_None. apply lookup_delete_eq. }
    rewrite Hsize, <- (IH (InMemoryAdapter.delete st a) Hnodup); [lia|].
    intros k Hk. cbn [InMemoryAdapter.delete InMemoryAdapter.events].
    rewrite lookup_delete_ne; [apply Hpresent; apply elem_of_cons; auto|].
    intros ->. contradiction.
Qed.

Lemma dueKeys_spec st timestamp k :
  k ∈ InMemoryAdapter.dueKeys st timestamp
  <-> k ∈ InMemoryAdapter.deferredKeys st
      /\ exists r, InMemoryAdapter.events st !! k = Some r
                   /\ isDue timestamp r = true.
Proof.
  unfold InMemoryAdapter.dueKeys.
  rewrite list_elem_of_In, List.filter_In, <- list_elem_of_In, elem_of_elements.
  split.
  - intros [Hk Hdue]. split; [exact Hk|].
    destruct (InMemoryAdapter.events st !! k) as [r|]; [|discriminate].
    exists r. auto.
  - intros [Hk (r & Hr & Hdue)]. rewrite Hr. auto.
Qed.

Lemma dueKeys_NoDup st timestamp : NoDup (InMemoryAdapter.dueKeys st timestamp).
Proof.
  unfold InMemoryAdapter.dueKeys. apply NoDup_ListNoDup.
  apply List.NoDup_filter. apply NoDup_ListNoDup. apply NoDup_elements.
Qed.

Lemma omap_lookup_length (m : gmap string (EventRecord C D)) (keys : list string) :
  (forall k, k ∈ keys -> is_Some (m !! k)) ->
  List.length (omap (fun k => m !! k) keys) = List.length keys.
Proof.
  induction keys as [| a keys IH]; intros Hpresent; [reflexivity|].
  simpl. destruct (Hpresent a (list_elem_of_here _ _)) as [ra Ha].
  rewrite Ha. simpl. f_equal. apply IH.
  intros k Hk. apply Hpresent. apply elem_of_cons. auto.
Qed.
End InMemoryStore.

Lemma isDue_later {C D : Type} (r : EventRecord C D) (t t' : num) :
  t' <= t -> isDue t' r = true -> isDue t r = true.
Proof.
  intros Hle. unfold isDue.
  destruct (deferred r); [|discriminate]. cbn [andb].
  destruct (scheduledSendAt r) as [s|]; [|discriminate].
  destruct (negb (Qeq_bool s 0)); [|discriminate]. cbn [andb].
  unfold Num.ge. rewrite !Qle_bool_iff. intros Hs.
  apply (Qle_trans _ t'); assumption.
Qed.

Lemma filter_none {A : Type} (f : A -> bool) (l : list A) :
  (forall x, In x l -> f x = false) -> List.filter f l = [].
Proof.
  induction l as [| a l IH]; intros Hall; [reflexivity|].
  simpl. rewrite (Hall a (or_introl eq_refl)). apply IH.
  intros x Hx. apply Hall. right. exact Hx.
Qed.

Lemma dueKeys_after_pop {C D : Type} (st : InMemoryAdapter.State C D)
    (t t' : num) :
  t' <= t ->
  InMemoryAdapter.dueKeys (snd (InMemoryAdapter.popDueDeferred st t)) t' = [].
Proof.
  intros Hle. unfold InMemoryAdapter.dueKeys at 1. apply filter_none.
  intros k Hk. apply list_elem_of_In, elem_of_elements in Hk.
  cbn [InMemoryAdapter.popDueDeferred snd] in Hk |- *.
  apply fold_delete_keys in Hk as [Hk Hnot].
  rewrite fold_delete_events, (bool_decide_eq_false_2 _ Hnot).
  destruct (InMemoryAdapter.events st !! k) as [r|] eqn:Hr; [|reflexivity].
  destruct (isDue t' r) eqn:Hdue; [|reflexivity].
  exfalso. apply Hnot. apply dueKeys_spec. split; [exact Hk|].
  exists r. split; [exact Hr|]. exact (isDue_later r t t' Hle Hdue).
Qed.

Lemma indexed_perform {C D : Type} (strategy : BaseStrategy C D)
    (config : TrackerConfig) (st : InMemoryAdapter.State C D)
    (c : Session.Call C D) :
  Invariant.indexed st -> Invariant.indexed (Session.perform strategy config st c).
Proof.
  intros Hinv. destruct c; cbn [Session.perform].
  - apply indexed_set. exact Hinv.
  - apply indexed_delete. exact Hinv.
  - apply indexed_update. exact Hinv.
  - apply indexed_track. exact Hinv.
  - apply indexed_fold_delete. exact Hinv.
  - apply indexed_purgeExpired. exact Hinv.
Qed.

Lemma indexed_fold_perform {C D : Type} (strategy : BaseStrategy C D)
    (config : TrackerConfig) (calls : list (Session.Call C D)) :
  forall st, Invariant.indexed st ->
             Invariant.indexed (fold_left (Session.perform strategy config) calls st).
Proof.
  induction calls as [| c calls IH]; intros st Hinv; [exact Hinv|].
  simpl. apply IH. apply indexed_perform. exact Hinv.
Qed.

(** X1.  The secondary index of the in-memory adapter never goes out of
    step: after any sequence of [set], [delete], [update], [track],
    [popDueDeferred] and [purgeExpired] calls on a new adapter, a key is in
    [deferredKeys] exactly when a record is stored under it and that record
    is deferred. *)
Theorem deferred_index_mirrors_records {C D : Type}
    (strategy : BaseStrategy C D) (config : TrackerConfig)
    (calls : list (Session.Call C D)) (k : string) :
  k ∈ InMemoryAdapter.deferredKeys (Session.session strategy config calls)
  <-> exists r,
        InMemoryAdapter.get (Session.session strategy config calls) k = Some r
        /\ deferred r = true.
Proof.
  apply (indexed_fold_perform strategy config calls InMemoryAdapter.empty).
  apply indexed_empty.
Qed.

Lemma indexed_deferredStore : Invariant.indexed Example.deferredStore.
Proof. apply indexed_set. apply indexed_empty. Qed.

Lemma dueKeys_present {C D : Type} (st : InMemoryAdapter.State C D)
    (t : num) (k : string) :
  k ∈ InMemoryAdapter.dueKeys st t -> is_Some (InMemoryAdapter.events st !! k).
Proof.
  intros Hk. apply dueKeys_spec in Hk as (_ & r & Hr & _). exists r. exact Hr.
Qed.

(** X2.  While the index mirrors the records, [findAllDeferred] returns
    exactly the stored records that are deferred, one entry per deferred
    key. *)
Theorem findAllDeferred_returns_the_deferred_records {C D : Type}
    (st : InMemoryAdapter.State C D) :
  Invariant.indexed st ->
  (forall r, r ∈ InMemoryAdapter.findAllDeferred st
             <-> exists k, InMemoryAdapter.get st k = Some r
                           /\ deferred r = true)
  /\ List.length (InMemoryAdapter.findAllDeferred st)
     = size (InMemoryAdapter.deferredKeys st).
Proof.
  intros Hinv. unfold InMemoryAdapter.findAllDeferred, InMemoryAdapter.get.
  split.
  - intros r. rewrite list_elem_of_omap. split.
    + intros (k & Hk & Hr). exists k. split; [exact Hr|].
      apply elem_of_elements, Hinv in Hk as (r' & Hr' & Hd). congruence.
    + intros (k & Hr & Hd). exists k. split; [|exact Hr].
      apply elem_of_elements, Hinv. exists r. auto.
  - rewrite omap_lookup_length; [reflexivity|].
    intros k Hk. apply elem_of_elements, Hinv in Hk as (r & Hr & _).
    exists r. exact Hr.
Qed.

Lemma findAllDeferred_returns_the_deferred_records_witness :
  Invariant.indexed Example.deferredStore
  /\ List.length (InMemoryAdapter.findAllDeferred Example.deferredStore)
     = size (InMemoryAdapter.deferredKeys Example.deferredStore).
Proof.
  split; [exact indexed_deferredStore|].
  exact (proj2 (findAllDeferred_returns_the_deferred_records
                  Example.deferredStore indexed_deferredStore)).
Defined.

(** X3.  [popDueDeferred] returns what [findDueDeferred] shows at the same
    timestamp, and leaves nothing due: at that timestamp or any earlier
    one, a second look finds no record and a second pop returns the empty
    list and changes nothing. *)
Theorem popDueDeferred_leaves_nothing_due {C D : Type}
    (st : InMemoryAdapter.State C D) (t t' : num) :
  t' <= t ->
  fst (InMemoryAdapter.popDueDeferred st t) = InMemoryAdapter.findDueDeferred st t
  /\ InMemoryAdapter.findDueDeferred
       (snd (InMemoryAdapter.popDueDeferred st t)) t' = []
  /\ InMemoryAdapter.popDueDeferred
       (snd (InMemoryAdapter.popDueDeferred st t)) t'
     = ([], snd (InMemoryAdapter.popDueDeferred st t)).
Proof.
  intros Hle. split; [reflexivity|].
  pose proof (dueKeys_after_pop st t t' Hle) as Hnone. split.
  - unfold InMemoryAdapter.findDueDeferred. rewrite Hnone. reflexivity.
  - unfold InMemoryAdapter.popDueDeferred at 1. rewrite Hnone. reflexivity.
Qed.

Lemma popDueDeferred_leaves_nothing_due_witness :
  1150 <= 1150
  /\ InMemoryAdapter.findDueDeferred
       (snd (InMemoryAdapter.popDueDeferred Example.deferredStore 1150)) 1150
     = [].
Proof.
  assert (H : 1150 <= 1150) by (apply Qle_refl).
  split; [exact H|].
  exact (proj1 (proj2 (popDueDeferred_leaves_nothing_due
                         Example.deferredStore 1150 1150 H))).
Defined.

(** X4.  [popDueDeferred] removes exactly what it returns.  While the index
    mirrors the records: every stored record that is deferred and due (a
    non-zero schedule at or before the timestamp) is returned and its key
    is gone afterwards; every returned record was such a record; a record
    that is not due stays as it was; and the size drops by the length of
    the returned list. *)
Theorem popDueDeferred_removes_exactly_the_batch {C D : Type}
    (st : InMemoryAdapter.State C D) (t : num) :
  Invariant.indexed st ->
  (forall k r, InMemoryAdapter.get st k = Some r -> isDue t r = true ->
               r ∈ fst (InMemoryAdapter.popDueDeferred st t)
               /\ InMemoryAdapter.get
                    (snd (InMemoryAdapter.popDueDeferred st t)) k = None)
  /\ (forall r, r ∈ fst (InMemoryAdapter.popDueDeferred st t) ->
                exists k, InMemoryAdapter.get st k = Some r
                          /\ isDue t r = true)
  /\ (forall k r, InMemoryAdapter.get st k = Some r -> isDue t r = false ->
                  InMemoryAdapter.get
                    (snd (InMemoryAdapter.popDueDeferred st t)) k = Some r)
  /\ (InMemoryAdapter.size (snd (InMemoryAdapter.popDueDeferred st t))
      + List.length (fst (InMemoryAdapter.popDueDeferred st t))
      = InMemoryAdapter.size st)%nat.
Proof.
  intros Hinv. unfold InMemoryAdapter.get.
  cbn [InMemoryAdapter.popDueDeferred fst snd].
  split; [| split; [| split]].
  - intros k r Hr Hdue.
    assert (Hk : k ∈ InMemoryAdapter.dueKeys st t).
    { apply dueKeys_spec. split; [| exists r; auto].
      apply Hinv. exists r. split; [exact Hr|].
      unfold isDue in Hdue. destruct (deferred r); [reflexivity|discriminate]. }
    split.
    + apply list_elem_of_omap. exists k. auto.
    + rewrite fold_delete_events, bool_decide_eq_true_2 by exact Hk.
      reflexivity.
  - intros r Hr. apply list_elem_of_omap in Hr as (k & Hk & Hr).
    exists k. split; [exact Hr|].
    apply dueKeys_spec in Hk as (_ & r' & Hr' & Hdue). congruence.
  - intros k r Hr Hdue. rewrite fold_delete_events, bool_decide_eq_false_2.
    + exact Hr.
    + intros Hk. apply dueKeys_spec in Hk as (_ & r' & Hr' & Hdue').
      congruence.
  - rewrite omap_lookup_length by (intros k; apply dueKeys_present).
    apply fold_delete_size.
    + apply dueKeys_NoDup.
    + intros k. apply dueKeys_present.
Qed.

Lemma popDueDeferred_removes_exactly_the_batch_witness :
  Invariant.indexed Example.deferredStore
  /\ (InMemoryAdapter.size
        (snd (InMemoryAdapter.popDueDeferred Example.deferredStore 1150%Q))
      + List.length
          (fst (InMemoryAdapter.popDueDeferred Example.deferredStore 1150%Q))
      = InMemoryAdapter.size Example.deferredStore)%nat.
Proof.
  split; [exact indexed_deferredStore|].
  exact (proj2 (proj2 (proj2 (popDueDeferred_removes_exactly_the_batch
                                Example.deferredStore 1150
                                indexed_deferredStore)))).
Defined.

Lemma survives_iff {C D : Type} (now : num) (r : EventRecord C D) :
  InMemoryAdapter.survives now r = true <-> now <= expiresAt r.
Proof.
  unfold InMemoryAdapter.survives, Num.gt. rewrite negb_involutive.
  apply Qle_bool_iff.
Qed.

Lemma purgeExpired_lookup {C D : Type} (st : InMemoryAdapter.State C D)
    (now : num) (k : string) (r : EventRecord C D) :
  InMemoryAdapter.events (InMemoryAdapter.purgeExpired st now) !! k = Some r
  <-> InMemoryAdapter.events st !! k = Some r /\ now <= expiresAt r.
Proof.
  cbn [InMemoryAdapter.purgeExpired InMemoryAdapter.events].
  rewrite map_lookup_filter_Some, <- survives_iff. cbn [snd].
  destruct (InMemoryAdapter.survives now r); simpl; intuition congruence.
Qed.

(** X5.  [purgeExpired] drops a record exactly when its [expiresAt] lies
    before the purge time and keeps every other record unchanged; the
    store never grows; and for a [track] whose clock reading is not before
    the purge, the prior record it works from is the same with and without
    the purge: a purged record would have been reinitialized anyway. *)
Theorem purgeExpired_drops_only_expired_records {C D : Type}
    (st : InMemoryAdapter.State C D) (now now' : num) (k : string)
    (eventData : EventData) :
  now <= now' ->
  (forall r, InMemoryAdapter.get (InMemoryAdapter.purgeExpired st now) k = Some r
             <-> InMemoryAdapter.get st k = Some r /\ now <= expiresAt r)
  /\ InMemoryAdapter.priorRecord (InMemoryAdapter.purgeExpired st now) now' k
       eventData
     = InMemoryAdapter.priorRecord st now' k eventData
  /\ (InMemoryAdapter.size (InMemoryAdapter.purgeExpired st now)
      <= InMemoryAdapter.size st)%nat.
Proof.
  intros Hle. split; [| split].
  - intros r. apply purgeExpired_lookup.
  - unfold InMemoryAdapter.priorRecord.
    destruct (InMemoryAdapter.events st !! k) as [r|] eqn:Hr.
    + destruct (InMemoryAdapter.survives now r) eqn:Hs.
      * rewrite (proj2 (purgeExpired_lookup st now k r)); [reflexivity|].
        split; [exact Hr | apply survives_iff; exact Hs].
      * assert (Hgone : InMemoryAdapter.events
                          (InMemoryAdapter.purgeExpired st now) !! k = None).
        { destruct (InMemoryAdapter.events
                      (InMemoryAdapter.purgeExpired st now) !! k) as [r'|] eqn:Hr';
            [|reflexivity].
          apply purgeExpired_lookup in Hr' as [Hr' Hlive].
          assert (r' = r) by congruence. subst r'.
          apply survives_iff in Hlive. congruence. }
        rewrite Hgone.
        assert (Hexpired : Num.gt now' (expiresAt r) = true).
        { apply gt_true_iff. apply Qlt_le_trans with (y := now); [|exact Hle].
          apply Qnot_le_lt. intros Hlive. apply survives_iff in Hlive.
          congruence. }
        rewrite Hexpired. reflexivity.
    + destruct (InMemoryAdapter.events
                  (InMemoryAdapter.purgeExpired st now) !! k) as [r'|] eqn:Hr';
        [|reflexivity].
      apply purgeExpired_lookup in Hr' as [Hr' _]. congruence.
  - unfold InMemoryAdapter.size.
    cbn [InMemoryAdapter.purgeExpired InMemoryAdapter.events].
    apply map_size_filter.
Qed.

Lemma purgeExpired_drops_only_expired_records_witness :
  1300 <= 1400
  /\ InMemoryAdapter.get
       (InMemoryAdapter.purgeExpired Example.deferredStore 1300)
       "auth:login_fail" = None
  /\ InMemoryAdapter.priorRecord
       (InMemoryAdapter.purgeExpired Example.deferredStore 1300) 1400
       "auth:login_fail" (Example.event "")
     = InMemoryAdapter.priorRecord Example.deferredStore 1400
         "auth:login_fail" (Example.event "").
Proof.
  assert (H : 1300 <= 1400) by (apply Qle_bool_iff; reflexivity).
  split; [exact H|]. split.
  - destruct (InMemoryAdapter.get
                (InMemoryAdapter.purgeExpired Example.deferredStore 1300)
                "auth:login_fail") as [r|] eqn:Hr; [|reflexivity].
    apply (proj1 (purgeExpired_drops_only_expired_records
                    Example.deferredStore 1300 1400 "auth:login_fail"
                    (Example.event "") H)) in Hr as [Hr Hlive].
    vm_compute in Hr. injection Hr as <-. exfalso.
    apply Qle_bool_iff in Hlive. vm_compute in Hlive. discriminate.
  - exact (proj1 (proj2 (purgeExpired_drops_only_expired_records
                           Example.deferredStore 1300 1400 "auth:login_fail"
                           (Example.event "") H))).
Defined.

(** ** The key limit along a session *)

Lemma of_nat_S (n : nat) : Num.of_nat (S n) == Num.of_nat n + 1.
Proof.
  unfold Num.of_nat. rewrite Nat2Z.inj_succ, <- Z.add_1_r, inject_Z_plus.
  reflexivity.
Qed.

Lemma of_nat_le (n m : nat) : (n <= m)%nat -> Num.of_nat n <= Num.of_nat m.
Proof.
  intros Hle. unfold Num.of_nat. rewrite <- Zle_Qle. lia.
Qed.

Lemma of_nat_le_inv (n m : nat) : Num.of_nat n < Num.of_nat m + 1 -> (n <= m)%nat.
Proof.
  unfold Num.of_nat. intros Hlt.
  change 1 with (inject_Z 1) in Hlt.
  rewrite <- inject_Z_plus, <- Zlt_Qlt in Hlt. lia.
Qed.

Section KeyLimit.
Context {C D : Type}.
Variable strategy : BaseStrategy C D.
Variable config : TrackerConfig.
Implicit Type st : InMemoryAdapter.State C D.

Local Abbreviation bounded := (Capacity.bounded config).

Lemma bounded_shrink st st' :
  (InMemoryAdapter.size st' <= InMemoryAdapter.size st)%nat ->
  bounded st -> bounded st'.
Proof.
  unfold Capacity.bounded. intros Hle Hb.
  apply Qle_lt_trans with (y := Num.of_nat (InMemoryAdapter.size st));
    [apply of_nat_le; exact Hle | exact Hb].
Qed.

Lemma set_size_stored st k r r' :
  InMemoryAdapter.events st !! k = Some r ->
  InMemoryAdapter.size (InMemoryAdapter.set st k r') = InMemoryAdapter.size st.
Proof.
  intros Hr. unfold InMemoryAdapter.size.
  cbn [InMemoryAdapter.set InMemoryAdapter.events].
  rewrite map_size_insert, Hr. reflexivity.
Qed.

Lemma set_size_new st k r' :
  InMemoryAdapter.events st !! k = None ->
  InMemoryAdapter.size (InMemoryAdapter.set st k r')
  = S (InMemoryAdapter.size st).
Proof.
  intros Hr. unfold InMemoryAdapter.size.
  cbn [InMemoryAdapter.set InMemoryAdapter.events].
  rewrite map_size_insert, Hr. reflexivity.
Qed.

Lemma delete_size_le st k :
  (InMemoryAdapter.size (InMemoryAdapter.delete st k)
   <= InMemoryAdapter.size st)%nat.
Proof.
  unfold InMemoryAdapter.size.
  cbn [InMemoryAdapter.delete InMemoryAdapter.events].
  rewrite map_size_delete.
  destruct (InMemoryAdapter.events st !! k); simpl; lia.
Qed.

Lemma bounded_track st nowA nowS k eventData :
  0 < tc_maxKeys config ->
  bounded st ->
  bounded (snd (InMemoryAdapter.track strategy st nowA nowS k eventData config)).
Proof.
  intros Hpos Hb. unfold InMemoryAdapter.track.
  destruct (_ && _ && _ && _) eqn:Hrefuse; [exact Hb|].
  destruct (track config nowS _ _) as [o u]. cbn [snd].
  destruct (InMemoryAdapter.events st !! k) as [r|] eqn:Hr.
  - apply (bounded_shrink st); [|exact Hb].
    rewrite (set_size_stored st k r u Hr). lia.
  - unfold Capacity.bounded. rewrite (set_size_new st k u Hr), of_nat_S.
    unfold InMemoryAdapter.priorRecord, InMemoryAdapter.has in Hrefuse.
    rewrite Hr in Hrefuse. cbn [andb negb] in Hrefuse.
    assert (Hgt : Num.gt (tc_maxKeys config) 0 = true)
      by (apply gt_true_iff; exact Hpos).
    rewrite Hgt in Hrefuse. cbn [andb] in Hrefuse.
    rewrite andb_true_r in Hrefuse. apply ge_false_iff in Hrefuse.
    apply Qplus_lt_le_compat; [exact Hrefuse | apply Qle_refl].
Qed.

Lemma bounded_perform st (c : Session.Call C D) :
  0 < tc_maxKeys config ->
  Session.byTracker c = true ->
  bounded st -> bounded (Session.perform strategy config st c).
Proof.
  intros Hpos Hc Hb. destruct c; cbn [Session.perform]; try discriminate.
  - apply (bounded_shrink st); [apply delete_size_le | exact Hb].
  - unfold InMemoryAdapter.update.
    destruct (InMemoryAdapter.events st !! k) as [r|] eqn:Hr; [|exact Hb].
    apply (bounded_shrink st); [|exact Hb].
    cbn [snd]. rewrite (set_size_stored st k r _ Hr). lia.
  - apply bounded_track; assumption.
  - apply (bounded_shrink st); [|exact Hb].
    cbn [InMemoryAdapter.popDueDeferred snd].
    pose proof (fold_delete_size (InMemoryAdapter.dueKeys st timestamp) st
                  (dueKeys_NoDup st timestamp)
                  (fun k => dueKeys_present st timestamp k)).
    lia.
  - apply (bounded_shrink st); [|exact Hb].
    unfold InMemoryAdapter.size.
    cbn [InMemoryAdapter.purgeExpired InMemoryAdapter.events].
    apply map_size_filter.
Qed.

Lemma bounded_fold_perform (calls : list (Session.Call C D)) :
  0 < tc_maxKeys config ->
  forallb Session.byTracker calls = true ->
  forall st, bounded st ->
             bounded (fold_left (Session.perform strategy config) calls st).
Proof.
  intros Hpos. induction calls as [| c calls IH]; intros Hcalls st Hb;
    [exact Hb|].
  cbn [forallb] in Hcalls. apply andb_true_iff in Hcalls as [Hc Hcalls].
  simpl. apply IH; [exact Hcalls|]. apply bounded_perform; assumption.
Qed.

Lemma bounded_empty :
  0 < tc_maxKeys config -> bounded (@InMemoryAdapter.empty C D).
Proof.
  intros Hpos. unfold Capacity.bounded, InMemoryAdapter.size. cbn [InMemoryAdapter.empty
    InMemoryAdapter.events]. rewrite map_size_empty.
  change (Num.of_nat 0) with 0.
  apply Qlt_trans with (y := tc_maxKeys config); [exact Hpos|].
  rewrite <- (Qplus_0_r (tc_maxKeys config)) at 1.
  apply Qplus_lt_r. reflexivity.
Qed.

Lemma session_bounded (calls : list (Session.Call C D)) :
  0 < tc_maxKeys config ->
  forallb Session.byTracker calls = true ->
  Num.of_nat (InMemoryAdapter.size (Session.session strategy config calls))
  < tc_maxKeys config + 1.
Proof.
  intros Hpos Hcalls.
  apply (bounded_fold_perform calls Hpos Hcalls). apply bounded_empty.
  exact Hpos.
Qed.
End KeyLimit.

Lemma track_decide_write {C D : Type} (strategy : BaseStrategy C D)
    (config : TrackerConfig) (st : InMemoryAdapter.State C D)
    (nowAdapter nowStrategy : num) (k : string) (eventData : EventData) :
  InMemoryAdapter.track strategy st nowAdapter nowStrategy k eventData config
  = InFlight.write st k
      (InFlight.decide strategy config st nowAdapter nowStrategy k eventData).
Proof.
  unfold InMemoryAdapter.track, InFlight.decide.
  destruct (_ && _ && _ && _); [reflexivity|].
  destruct (track config nowStrategy _ _) as [o u]. reflexivity.
Qed.

Section InFlightTogether.
Context {C D : Type}.
Variable strategy : BaseStrategy C D.
Variable config : TrackerConfig.
Variable st : InMemoryAdapter.State C D.

Hypothesis room : Num.of_nat (InMemoryAdapter.size st) < tc_maxKeys config.

Lemma decide_admits (call : InFlight.Started) :
  exists outcome updatedRecord,
    InFlight.decideCall strategy config st call
    = InFlight.Decided outcome updatedRecord.
Proof.
  unfold InFlight.decideCall, InFlight.decide.
  assert (Hroom : Num.ge (Num.of_nat (InMemoryAdapter.size st))
                    (tc_maxKeys config) = false)
    by (apply ge_false_iff; exact room).
  rewrite Hroom, andb_false_r. cbn [andb].
  destruct (track config _ _ _) as [o u]. exists o, u. reflexivity.
Qed.

Lemma together_results (calls : list InFlight.Started) :
  Forall (fun result => reason result = None)
    (fst (InFlight.together strategy config st calls)).
Proof.
  unfold InFlight.together. cbn [fst]. apply Forall_map.
  apply Forall_forall. intros call _.
  destruct (decide_admits call) as (o & u & ->). reflexivity.
Qed.

Lemma together_size (calls : list InFlight.Started) :
  forall stored : InMemoryAdapter.State C D,
    List.NoDup (map InFlight.startedKey calls) ->
    (forall call, In call calls ->
                  InMemoryAdapter.events stored !! InFlight.startedKey call
                  = None) ->
    InMemoryAdapter.size
      (fold_left
         (fun stored call =>
            snd (InFlight.write stored (InFlight.startedKey call)
                   (InFlight.decideCall strategy config st call)))
         calls stored)
    = (InMemoryAdapter.size stored + List.length calls)%nat.
Proof.
  induction calls as [| call calls IH]; intros stored Hdistinct Habsent;
    [simpl; lia|].
  cbn [fold_left List.length]. inversion Hdistinct as [| ? ? Hfresh Hrest]; subst.
  destruct (decide_admits call) as (o & u & ->). cbn [InFlight.write snd].
  rewrite IH.
  - rewrite (set_size_new stored (InFlight.startedKey call) u)
      by (apply Habsent; left; reflexivity).
    lia.
  - exact Hrest.
  - intros other Hin. cbn [InMemoryAdapter.set InMemoryAdapter.events].
    rewrite lookup_insert_ne.
    + apply Habsent. right. exact Hin.
    + intros Heq. apply Hfresh. rewrite Heq. apply in_map. exact Hin.
Qed.
End InFlightTogether.

(** X6.  The key limit, for a positive [maxKeys].  When every call is
    awaited before the next one starts, an adapter that is only driven
    through [track], [update], [delete], [popDueDeferred] and the purge
    loop (no direct [set]) never holds [maxKeys + 1] keys or more; for a
    whole-number limit [m] it never holds more than [m] keys.  Calls of
    [track] that are in flight together are not bounded: [track] is its
    decision followed by its write, and when calls on different new keys
    are started together on a store that still has room for one key, each
    of them decides on that store, so none is refused and the store grows
    by the number of calls, whatever [maxKeys] is. *)
Theorem key_limit_bounds_awaited_calls_only {C D : Type}
    (strategy : BaseStrategy C D) (config : TrackerConfig)
    (calls : list (Session.Call C D)) (st : InMemoryAdapter.State C D)
    (started : list InFlight.Started) :
  0 < tc_maxKeys config ->
  (forallb Session.byTracker calls = true ->
   Num.of_nat (InMemoryAdapter.size (Session.session strategy config calls))
   < tc_maxKeys config + 1
   /\ forall m : nat,
        tc_maxKeys config == Num.of_nat m ->
        (InMemoryAdapter.size (Session.session strategy config calls)
         <= m)%nat)
  /\ (forall nowAdapter nowStrategy k eventData,
        InMemoryAdapter.track strategy st nowAdapter nowStrategy k eventData
          config
        = InFlight.write st k
            (InFlight.decide strategy config st nowAdapter nowStrategy k
               eventData))
  /\ (List.NoDup (map InFlight.startedKey started) ->
      (forall call, In call started ->
                    InMemoryAdapter.events st !! InFlight.startedKey call
                    = None) ->
      Num.of_nat (InMemoryAdapter.size st) < tc_maxKeys config ->
      Forall (fun result => reason result = None)
        (fst (InFlight.together strategy config st started))
      /\ InMemoryAdapter.size
           (snd (InFlight.together strategy config st started))
         = (InMemoryAdapter.size st + List.length started)%nat).
Proof.
  intros Hpos. split; [| split].
  - intros Hcalls.
    pose proof (session_bounded strategy config calls Hpos Hcalls) as Hb.
    split; [exact Hb|].
    intros m Hm. apply of_nat_le_inv. rewrite <- Hm. exact Hb.
  - intros. apply track_decide_write.
  - intros Hdistinct Habsent Hroom. split.
    + apply together_results. exact Hroom.
    + unfold InFlight.together. cbn [snd].
      apply together_size; assumption.
Qed.

Lemma key_limit_bounds_awaited_calls_only_witness :
  0 < tc_maxKeys Example.limitedConfig
  /\ (InMemoryAdapter.size
        (Session.session SimpleCounterStrategy.strategy Example.limitedConfig
           [Session.CallTrack 1000%Q 1000%Q "auth:login_fail" (Example.event "");
            Session.CallTrack 1000%Q 1000%Q "auth:logout" (Example.event "")])
      <= 1)%nat
  /\ InMemoryAdapter.size
       (snd (InFlight.together SimpleCounterStrategy.strategy
               Example.limitedConfig InMemoryAdapter.empty
               [ {| InFlight.nowAdapter := 1000; InFlight.nowStrategy := 1000;
                    InFlight.startedKey := "auth:login_fail";
                    InFlight.startedEvent := Example.event "" |};
                 {| InFlight.nowAdapter := 1000; InFlight.nowStrategy := 1000;
                    InFlight.startedKey := "auth:logout";
                    InFlight.startedEvent := Example.event "" |} ]))
     = 2%nat.
Proof.
  assert (Hpos : 0 < tc_maxKeys Example.limitedConfig) by reflexivity.
  split; [exact Hpos|].
  destruct (key_limit_bounds_awaited_calls_only SimpleCounterStrategy.strategy
              Example.limitedConfig
              [Session.CallTrack 1000%Q 1000%Q "auth:login_fail" (Example.event "");
               Session.CallTrack 1000%Q 1000%Q "auth:logout" (Example.event "")]
              InMemoryAdapter.empty
              [ {| InFlight.nowAdapter := 1000; InFlight.nowStrategy := 1000;
                   InFlight.startedKey := "auth:login_fail";
                   InFlight.startedEvent := Example.event "" |};
                {| InFlight.nowAdapter := 1000; InFlight.nowStrategy := 1000;
                   InFlight.startedKey := "auth:logout";
                   InFlight.startedEvent := Example.event "" |} ]
              Hpos) as (Hawaited & _ & Htogether).
  split.
  - apply (proj2 (Hawaited eq_refl) 1%nat). reflexivity.
  - refine (eq_trans (proj2 (Htogether _ _ _)) _).
    + cbn [map InFlight.startedKey].
      apply List.NoDup_cons; [|apply List.NoDup_cons; [|apply List.NoDup_nil]].
      * intros [H | []]. discriminate H.
      * intros [].
    + intros call _. reflexivity.
    + reflexivity.
    + reflexivity.
Defined.

(** ** [acquireKeySlot], the round trips of [set], [delete] and [update] *)

(** X7.  With a positive [maxKeys], [acquireKeySlot] answers [false]
    exactly when [track] on the same store refuses the event with reason
    [key_limit_reached].  With [maxKeys = 0] the two part ways:
    [acquireKeySlot] answers [false] for every key that is not stored,
    while [track] never refuses. *)
Theorem acquireKeySlot_agrees_with_track_refusal {C D : Type}
    (strategy : BaseStrategy C D) (st : InMemoryAdapter.State C D)
    (nowA nowS : num) (k : string) (eventData : EventData)
    (config : TrackerConfig) :
  (0 < tc_maxKeys config ->
   (InMemoryAdapter.acquireKeySlot st k (tc_maxKeys config) = false
    <-> reason (fst (InMemoryAdapter.track strategy st nowA nowS k eventData
                       config))
        = Some "key_limit_reached"))
  /\ (tc_maxKeys config == 0 ->
      InMemoryAdapter.acquireKeySlot st k (tc_maxKeys config)
      = InMemoryAdapter.has st k
      /\ reason (fst (InMemoryAdapter.track strategy st nowA nowS k eventData
                        config))
         = None).
Proof.
  unfold InMemoryAdapter.acquireKeySlot, InMemoryAdapter.track,
         InMemoryAdapter.priorRecord, InMemoryAdapter.has.
  split.
  - intros Hpos. apply gt_true_iff in Hpos. rewrite Hpos.
    destruct (InMemoryAdapter.events st !! k) as [r|].
    + cbn [negb]. rewrite !andb_false_r.
      destruct (track config nowS _ _) as [o u]. cbn [fst reason].
      split; discriminate.
    + cbn [andb negb]. rewrite andb_true_r.
      destruct (Num.ge (Num.of_nat (InMemoryAdapter.size st))
                       (tc_maxKeys config)).
      * cbn [fst reason]. split; reflexivity.
      * destruct (track config nowS _ _) as [o u]. cbn [fst reason].
        split; discriminate.
  - intros Hzero.
    assert (Hgt : Num.gt (tc_maxKeys config) 0 = false).
    { apply gt_false_iff. rewrite Hzero. apply Qle_refl. }
    rewrite Hgt, andb_false_r. cbn [andb].
    destruct (track config nowS _ _) as [o u]. cbn [fst reason].
    split; [|reflexivity].
    destruct (InMemoryAdapter.events st !! k) as [r|]; [reflexivity|].
    assert (Hge : Num.ge (Num.of_nat (InMemoryAdapter.size st))
                         (tc_maxKeys config) = true).
    { apply ge_true_iff. rewrite Hzero. unfold Num.of_nat.
      change 0 with (inject_Z 0). rewrite <- Zle_Qle. lia. }
    rewrite Hge. reflexivity.
Qed.

Lemma acquireKeySlot_agrees_with_track_refusal_witness :
  (0 < tc_maxKeys Example.limitedConfig
   /\ InMemoryAdapter.acquireKeySlot Example.deferredStore "auth:logout"
        (tc_maxKeys Example.limitedConfig) = false
   /\ reason (fst (InMemoryAdapter.track SimpleCounterStrategy.strategy
                     Example.deferredStore 1000 1000 "auth:logout"
                     (Example.event "") Example.limitedConfig))
      = Some "key_limit_reached")
  /\ (tc_maxKeys Example.trackerConfig == 0
      /\ InMemoryAdapter.acquireKeySlot Example.deferredStore "auth:logout"
           (tc_maxKeys Example.trackerConfig) = false).
Proof.
  assert (Hpos : 0 < tc_maxKeys Example.limitedConfig) by reflexivity.
  assert (Hzero : tc_maxKeys Example.trackerConfig == 0) by reflexivity.
  split.
  - split; [exact Hpos|].
    assert (Hno : InMemoryAdapter.acquireKeySlot Example.deferredStore
                    "auth:logout" (tc_maxKeys Example.limitedConfig) = false)
      by (vm_compute; reflexivity).
    split; [exact Hno|].
    exact (proj1 (proj1 (acquireKeySlot_agrees_with_track_refusal
                           SimpleCounterStrategy.strategy Example.deferredStore
                           1000 1000 "auth:logout" (Example.event "")
                           Example.limitedConfig) Hpos) Hno).
  - split; [exact Hzero|].
    rewrite (proj1 (proj2 (acquireKeySlot_agrees_with_track_refusal
                             SimpleCounterStrategy.strategy Example.deferredStore
                             1000 1000 "auth:logout" (Example.event "")
                             Example.trackerConfig) Hzero)).
    vm_compute. reflexivity.
Defined.

(** X8.  Round trips of the in-memory adapter.  [get] after [set] returns
    the record set, and after [delete] nothing; neither touches another
    key.  [set] grows the store by one exactly when the key is new and
    [delete] shrinks it by one exactly when the key was stored.  [update]
    on a missing key returns [false] and changes nothing; on a stored key
    it returns [true], stores what the function returns for the stored
    record and keeps the size. *)
Theorem set_get_delete_update_round_trip {C D : Type}
    (st : InMemoryAdapter.State C D) (k k' : string) (r : EventRecord C D)
    (updateFn : EventRecord C D -> EventRecord C D) :
  k <> k' ->
  (InMemoryAdapter.get (InMemoryAdapter.set st k r) k = Some r
   /\ InMemoryAdapter.get (InMemoryAdapter.set st k r) k'
      = InMemoryAdapter.get st k'
   /\ InMemoryAdapter.size (InMemoryAdapter.set st k r)
      = if InMemoryAdapter.has st k then InMemoryAdapter.size st
        else S (InMemoryAdapter.size st))
  /\ (InMemoryAdapter.get (InMemoryAdapter.delete st k) k = None
      /\ InMemoryAdapter.get (InMemoryAdapter.delete st k) k'
         = InMemoryAdapter.get st k'
      /\ InMemoryAdapter.size (InMemoryAdapter.delete st k)
         = if InMemoryAdapter.has st k then pred (InMemoryAdapter.size st)
           else InMemoryAdapter.size st)
  /\ (InMemoryAdapter.get st k = None ->
      InMemoryAdapter.update st k updateFn = (false, st))
  /\ (forall r0, InMemoryAdapter.get st k = Some r0 ->
        fst (InMemoryAdapter.update st k updateFn) = true
        /\ InMemoryAdapter.get (snd (InMemoryAdapter.update st k updateFn)) k
           = Some (updateFn r0)
        /\ InMemoryAdapter.get (snd (InMemoryAdapter.update st k updateFn)) k'
           = InMemoryAdapter.get st k'
        /\ InMemoryAdapter.size (snd (InMemoryAdapter.update st k updateFn))
           = InMemoryAdapter.size st).
Proof.
  intros Hne. unfold InMemoryAdapter.get, InMemoryAdapter.has,
    InMemoryAdapter.size, InMemoryAdapter.update.
  split; [| split; [| split]].
  - cbn [InMemoryAdapter.set InMemoryAdapter.events].
    rewrite lookup_insert_eq, lookup_insert_ne by exact Hne.
    rewrite map_size_insert.
    destruct (InMemoryAdapter.events st !! k); auto.
  - cbn [InMemoryAdapter.delete InMemoryAdapter.events].
    rewrite lookup_delete_eq, lookup_delete_ne by exact Hne.
    rewrite map_size_delete.
    destruct (InMemoryAdapter.events st !! k); auto.
  - intros Hnone. rewrite Hnone. reflexivity.
  - intros r0 Hr0. rewrite Hr0. cbn [fst snd].
    cbn [InMemoryAdapter.set InMemoryAdapter.events].
    rewrite lookup_insert_eq, lookup_insert_ne by exact Hne.
    rewrite map_size_insert, Hr0. auto.
Qed.

Lemma set_get_delete_update_round_trip_witness :
  "auth:login_fail" <> "auth:logout"
  /\ InMemoryAdapter.get
       (InMemoryAdapter.delete
          (InMemoryAdapter.set InMemoryAdapter.empty "auth:login_fail"
             Example.deferredRecord)
          "auth:login_fail")
       "auth:login_fail" = None.
Proof.
  assert (Hne : "auth:login_fail" <> "auth:logout") by discriminate.
  split; [exact Hne|].
  exact (proj1 (proj1 (proj2 (set_get_delete_update_round_trip
                                (InMemoryAdapter.set InMemoryAdapter.empty
                                   "auth:login_fail" Example.deferredRecord)
                                "auth:login_fail" "auth:logout"
                                Example.deferredRecord (fun r => r) Hne)))).
Defined.

(** ** From [track] to [popDueDeferred] *)

Lemma isDue_iff {C D : Type} (t : num) (r : EventRecord C D) :
  isDue t r = true
  <-> deferred r = true
      /\ exists s, scheduledSendAt r = Some s /\ ~ s == 0 /\ s <= t.
Proof.
  unfold isDue, Num.ge. split.
  - destruct (deferred r); [|discriminate]. cbn [andb].
    destruct (scheduledSendAt r) as [s|]; [|discriminate].
    destruct (Qeq_bool s 0) eqn:Hz; [discriminate|]. cbn [negb andb].
    intros Hle. split; [reflexivity|]. exists s. split; [reflexivity|].
    split; [apply Qeq_bool_neq; exact Hz | apply Qle_bool_iff; exact Hle].
  - intros (Hd & s & Hs & Hnz & Hle). rewrite Hd, Hs. cbn [andb].
    destruct (Qeq_bool s 0) eqn:Hz.
    + exfalso. apply Hnz. apply Qeq_bool_eq. exact Hz.
    + apply Qle_bool_iff. exact Hle.
Qed.

(** X9.  A record that [track] stores as deferred with a non-zero schedule
    [s] is indexed under its key; [popDueDeferred] returns it and removes
    its key at every timestamp from [s] on, and does not return it at any
    timestamp before [s]. *)
Theorem deferred_record_is_harvested_from_its_schedule {C D : Type}
    (strategy : BaseStrategy C D) (st : InMemoryAdapter.State C D)
    (nowA nowS : num) (k : string) (eventData : EventData)
    (config : TrackerConfig) (r : EventRecord C D) (s : num) :
  record (fst (InMemoryAdapter.track strategy st nowA nowS k eventData config))
  = Some r ->
  deferred r = true ->
  scheduledSendAt r = Some s ->
  ~ s == 0 ->
  k ∈ InMemoryAdapter.deferredKeys
        (snd (InMemoryAdapter.track strategy st nowA nowS k eventData config))
  /\ (forall t, s <= t ->
        r ∈ fst (InMemoryAdapter.popDueDeferred
                   (snd (InMemoryAdapter.track strategy st nowA nowS k
                           eventData config)) t)
        /\ InMemoryAdapter.get
             (snd (InMemoryAdapter.popDueDeferred
                     (snd (InMemoryAdapter.track strategy st nowA nowS k
                             eventData config)) t)) k = None)
  /\ (forall t, t < s ->
        r ∉ fst (InMemoryAdapter.popDueDeferred
                   (snd (InMemoryAdapter.track strategy st nowA nowS k
                           eventData config)) t)).
Proof.
  intros Hrec Hd Hs Hnz. unfold InMemoryAdapter.track in *.
  destruct (_ && _ && _ && _); [discriminate|].
  destruct (track config nowS _ _) as [o u]. cbn [fst snd record] in *.
  injection Hrec as ->.
  assert (Hindex : k ∈ InMemoryAdapter.deferredKeys (InMemoryAdapter.set st k r)).
  { cbn [InMemoryAdapter.set InMemoryAdapter.deferredKeys].
    unfold InMemoryAdapter.indexDeferred. rewrite Hd.
    apply elem_of_union_l, elem_of_singleton. reflexivity. }
  assert (Hstored : InMemoryAdapter.events (InMemoryAdapter.set st k r) !! k
                    = Some r) by apply set_lookup_same.
  split; [exact Hindex | split].
  - intros t Hle.
    assert (Hk : k ∈ InMemoryAdapter.dueKeys (InMemoryAdapter.set st k r) t).
    { apply dueKeys_spec. split; [exact Hindex|]. exists r.
      split; [exact Hstored|]. apply isDue_iff. split; [exact Hd|].
      exists s. auto. }
    cbn [InMemoryAdapter.popDueDeferred fst snd]. split.
    + apply list_elem_of_omap. exists k. auto.
    + unfold InMemoryAdapter.get.
      rewrite fold_delete_events, bool_decide_eq_true_2 by exact Hk.
      reflexivity.
  - intros t Hlt Hin. cbn [InMemoryAdapter.popDueDeferred fst] in Hin.
    apply list_elem_of_omap in Hin as (k2 & Hk2 & Hr2).
    apply dueKeys_spec in Hk2 as (_ & r2 & Hr2' & Hdue).
    assert (r2 = r) by congruence. subst r2.
    apply isDue_iff in Hdue as (_ & s' & Hs' & _ & Hle).
    assert (s' = s) by congruence. subst s'.
    apply (Qlt_not_le _ _ Hlt). exact Hle.
Qed.

Lemma deferred_record_is_harvested_from_its_schedule_witness :
  Example.deferredRecord
  ∈ fst (InMemoryAdapter.popDueDeferred
           (snd (InMemoryAdapter.track SimpleCounterStrategy.strategy
                   (Example.activeStore "") 1000 1000 "auth:login_fail"
                   (Example.event "") Example.trackerConfig))
           1100).
Proof.
  refine (proj1 (proj1 (proj2 (deferred_record_is_harvested_from_its_schedule
                          SimpleCounterStrategy.strategy (Example.activeStore "")
                          1000 1000 "auth:login_fail" (Example.event "")
                          Example.trackerConfig Example.deferredRecord 1100
                          _ _ _ _)) 1100 _)).
  - vm_compute. reflexivity.
  - reflexivity.
  - reflexivity.
  - intros H. vm_compute in H. discriminate.
  - apply Qle_refl.
Defined.

(** ** The contract of the three strategies *)

Ltac contract_fields :=
  repeat match goal with
         | |- _ /\ _ => split
         | |- _ <-> _ => split
         | |- forall _, _ => intro
         | H : Some _ = Some _ |- _ => injection H as <-
         | H : _ /\ _ |- _ => destruct H
         end;
  try reflexivity; try discriminate; try congruence.

Lemma simple_counter_kept (tracker : TrackerConfig) (now : num)
    (prior : option (EventRecord SimpleCounterStrategy.Config unit))
    (eventData : StrategyEvent) :
  Contract.kept tracker now prior eventData
    (fst (SimpleCounterStrategy.track tracker now prior eventData))
    (snd (SimpleCounterStrategy.track tracker now prior eventData)).
Proof.
  unfold Contract.kept, Contract.sameIdentity, SimpleCounterStrategy.track,
         SimpleCounterStrategy.checkLimit.
  destruct prior as [p|].
  - destruct (deferred p) eqn:Hd.
    + cbn. rewrite add_spec, orZero_spec. contract_fields.
      * exists p. auto.
    + destruct (Num.gt _ _); cbn; rewrite add_spec, orZero_spec;
        contract_fields; eauto.
  - destruct (Num.gt _ _); cbn; rewrite add_spec, orZero_spec;
      contract_fields; eauto.
Qed.

Lemma token_bucket_kept (this_bucketSize this_refillRate : num)
    (tracker : TrackerConfig) (now : num)
    (prior : option (EventRecord TokenBucketStrategy.Config
                       TokenBucketStrategy.Data))
    (eventData : StrategyEvent) :
  Contract.kept tracker now prior eventData
    (fst (TokenBucketStrategy.track this_bucketSize this_refillRate tracker
            now prior eventData))
    (snd (TokenBucketStrategy.track this_bucketSize this_refillRate tracker
            now prior eventData)).
Proof.
  unfold Contract.kept, Contract.sameIdentity, TokenBucketStrategy.track.
  destruct prior as [p|].
  - cbv zeta. destruct (Num.ge _ 1); cbn; rewrite add_spec;
      contract_fields; eauto.
  - cbn. rewrite add_spec. contract_fields.
Qed.

Lemma sliding_window_kept (this_limit this_windowSize : num)
    (tracker : TrackerConfig) (now : num)
    (prior : option (EventRecord SlidingWindowStrategy.Config
                       SlidingWindowStrategy.Data))
    (eventData : StrategyEvent) :
  Contract.kept tracker now prior eventData
    (fst (SlidingWindowStrategy.track this_limit this_windowSize tracker
            now prior eventData))
    (snd (SlidingWindowStrategy.track this_limit this_windowSize tracker
            now prior eventData)).
Proof.
  unfold Contract.kept, Contract.sameIdentity, SlidingWindowStrategy.track.
  destruct prior as [p|].
  - cbv zeta. destruct (Num.lt _ _); cbn; rewrite add_spec;
      contract_fields; eauto.
  - cbn. rewrite add_spec. contract_fields.
Qed.

(** X10.  What each of the three strategies keeps on every call of
    [track], new record or existing one: [expiresAt] is set to
    [now + expireTime]; the returned record is flagged deferred exactly
    when the outcome is not [immediate]; a [deferred] outcome carries a
    schedule; [lastEventTime] is [now] unless the event is ignored; an
    ignored event had a deferred prior record and keeps its count,
    [lastEventTime] and schedule; on an existing record the key, category,
    id, details, fingerprint and config snapshot are never rewritten; a new
    record takes them from the event and starts at count 1.  The token
    bucket and the sliding window never answer [ignored]. *)
Theorem strategies_keep_their_contract (tracker : TrackerConfig) (now : num)
    (eventData : StrategyEvent) :
  (forall prior,
      Contract.kept tracker now prior eventData
        (fst (@track _ _ SimpleCounterStrategy.strategy tracker now prior
                eventData))
        (snd (@track _ _ SimpleCounterStrategy.strategy tracker now prior
                eventData)))
  /\ (forall bucketSize refillRate prior,
        Contract.kept tracker now prior eventData
          (fst (@track _ _ (TokenBucketStrategy.strategy bucketSize refillRate)
                  tracker now prior eventData))
          (snd (@track _ _ (TokenBucketStrategy.strategy bucketSize refillRate)
                  tracker now prior eventData))
        /\ fst (@track _ _ (TokenBucketStrategy.strategy bucketSize refillRate)
                  tracker now prior eventData) <> Ignored)
  /\ (forall limit windowSize prior,
        Contract.kept tracker now prior eventData
          (fst (@track _ _ (SlidingWindowStrategy.strategy limit windowSize)
                  tracker now prior eventData))
          (snd (@track _ _ (SlidingWindowStrategy.strategy limit windowSize)
                  tracker now prior eventData))
        /\ fst (@track _ _ (SlidingWindowStrategy.strategy limit windowSize)
                  tracker now prior eventData) <> Ignored).
Proof.
  split; [| split].
  - intros prior. apply simple_counter_kept.
  - intros bucketSize refillRate prior. split; [apply token_bucket_kept|].
    cbn [track TokenBucketStrategy.strategy].
    unfold TokenBucketStrategy.track. destruct prior as [p|]; [|discriminate].
    cbv zeta. destruct (Num.ge _ 1); discriminate.
  - intros limit windowSize prior. split; [apply sliding_window_kept|].
    cbn [track SlidingWindowStrategy.strategy].
    unfold SlidingWindowStrategy.track. destruct prior as [p|]; [|discriminate].
    cbv zeta. destruct (Num.lt _ _); discriminate.
Qed.

(** ** How many events each strategy admits *)

Lemma replay_cons {C D : Type} (strategy : BaseStrategy C D)
    (tracker : TrackerConfig) (eventData : StrategyEvent)
    (prior : option (EventRecord C D)) (now : num) (rest : list num) :
  Replay.replay strategy tracker eventData prior (now :: rest)
  = (fst (track tracker now prior eventData)
       :: fst (Replay.replay strategy tracker eventData
                 (Some (snd (track tracker now prior eventData))) rest),
     snd (Replay.replay strategy tracker eventData
            (Some (snd (track tracker now prior eventData))) rest)).
Proof.
  cbn [Replay.replay]. destruct (track tracker now prior eventData) as [o u].
  cbn [fst snd]. destruct (Replay.replay _ _ _ (Some u) rest). reflexivity.
Qed.

Section SimpleCounterCapacity.
Variable limit : nat.
Variables deferInterval expireTime maxKeys : num.
Variable eventData : StrategyEvent.

Local Abbreviation tracker :=
  {| tc_limit := Num.of_nat limit; tc_deferInterval := deferInterval;
     tc_expireTime := expireTime; tc_maxKeys := maxKeys |}.
Local Abbreviation counted := (Capacity.counted limit).

Lemma simple_next_count prior c now :
  counted prior c ->
  exists r, SimpleCounterStrategy.track tracker now prior eventData
            = SimpleCounterStrategy.checkLimit now r
            /\ deferred r = false /\ count r == Num.of_nat (S c)
            /\ SimpleCounterStrategy.limit (config r) == Num.of_nat limit.
Proof.
  unfold Capacity.counted. destruct prior as [p|].
  - intros (Hd & Hc & Hl). unfold SimpleCounterStrategy.track. rewrite Hd.
    eexists. split; [reflexivity|]. cbn. split; [exact Hd|].
    split; [|exact Hl]. rewrite add_spec, Hc, of_nat_S. reflexivity.
  - intros ->. unfold SimpleCounterStrategy.track.
    eexists. split; [reflexivity|]. cbn. repeat split; reflexivity.
Qed.

Lemma simple_under_limit prior c now :
  counted prior c -> (S c <= limit)%nat ->
  fst (SimpleCounterStrategy.track tracker now prior eventData) = Immediate
  /\ counted
       (Some (snd (SimpleCounterStrategy.track tracker now prior eventData)))
       (S c).
Proof.
  intros Hprior Hle.
  destruct (simple_next_count prior c now Hprior) as (r & -> & Hd & Hc & Hl).
  unfold SimpleCounterStrategy.checkLimit.
  assert (Hgt : Num.gt (count r) (SimpleCounterStrategy.limit (config r))
                = false).
  { apply gt_false_iff. rewrite Hc, Hl. apply of_nat_le. exact Hle. }
  rewrite Hgt. cbn [fst snd Capacity.counted]. auto.
Qed.

Lemma simple_over_limit prior now :
  counted prior limit ->
  fst (SimpleCounterStrategy.track tracker now prior eventData) = Deferred
  /\ deferred (snd (SimpleCounterStrategy.track tracker now prior eventData))
     = true
  /\ count (snd (SimpleCounterStrategy.track tracker now prior eventData))
     == Num.of_nat (S limit).
Proof.
  intros Hprior.
  destruct (simple_next_count prior limit now Hprior) as (r & -> & Hd & Hc & Hl).
  unfold SimpleCounterStrategy.checkLimit.
  assert (Hgt : Num.gt (count r) (SimpleCounterStrategy.limit (config r))
                = true).
  { apply gt_true_iff. rewrite Hc, Hl, of_nat_S.
    rewrite <- (Qplus_0_r (Num.of_nat limit)) at 1.
    apply Qplus_lt_r. reflexivity. }
  rewrite Hgt. cbn. split; [reflexivity|]. split; [reflexivity | exact Hc].
Qed.

Lemma simple_replay_deferred (readings : list num) :
  forall r, deferred r = true ->
    fst (Replay.replay SimpleCounterStrategy.strategy tracker eventData
           (Some r) readings)
    = repeat Ignored (List.length readings)
    /\ exists r',
         snd (Replay.replay SimpleCounterStrategy.strategy tracker eventData
                (Some r) readings) = Some r'
         /\ deferred r' = true /\ count r' = count r.
Proof.
  induction readings as [| now rest IH]; intros r Hd.
  - split; [reflexivity|]. exists r. auto.
  - rewrite replay_cons. cbn [fst snd List.length repeat].
    cbn [track SimpleCounterStrategy.strategy].
    unfold SimpleCounterStrategy.track. rewrite Hd. cbn [fst snd].
    destruct (IH (with_expiresAt
                    (Num.add now (Num.orZero (tc_expireTime tracker))) r) Hd)
      as (Hout & r' & Hfinal & Hd' & Hc').
    rewrite Hout. split; [reflexivity|]. exists r'. auto.
Qed.

Lemma simple_replay_counted (before : list num) (now : num)
    (after : list num) :
  forall prior c,
    counted prior c -> (c + List.length before = limit)%nat ->
    fst (Replay.replay SimpleCounterStrategy.strategy tracker eventData prior
           (before ++ now :: after)%list)
    = (repeat Immediate (List.length before)
       ++ Deferred :: repeat Ignored (List.length after))%list
    /\ exists r,
         snd (Replay.replay SimpleCounterStrategy.strategy tracker eventData
                prior (before ++ now :: after)%list) = Some r
         /\ deferred r = true /\ count r == Num.of_nat (S limit).
Proof.
  induction before as [| t before IH]; intros prior c Hprior Hlen.
  - cbn [List.app List.length repeat]. rewrite replay_cons. cbn [fst snd].
    cbn [List.length] in Hlen. rewrite Nat.add_0_r in Hlen. subst c.
    cbn [track SimpleCounterStrategy.strategy].
    destruct (simple_over_limit prior now Hprior) as (-> & Hd & Hc).
    destruct (simple_replay_deferred after _ Hd) as (-> & r' & -> & Hd' & Hc').
    split; [reflexivity|]. exists r'. split; [reflexivity|].
    split; [exact Hd'|]. rewrite Hc'. exact Hc.
  - cbn [List.app List.length repeat]. rewrite replay_cons. cbn [fst snd].
    cbn [List.length] in Hlen.
    cbn [track SimpleCounterStrategy.strategy].
    destruct (simple_under_limit prior c t Hprior) as (-> & Hnext); [lia|].
    destruct (IH _ (S c) Hnext) as (-> & Hfinal); [lia|].
    split; [reflexivity | exact Hfinal].
Qed.
End SimpleCounterCapacity.

(** X11.  The simple counter with a whole-number limit [n]: of the events
    tracked on one record (no expiry, same details), the first [n] are
    immediate, the next one is deferred and every later one is ignored,
    whatever the clock readings; the count stops at [n + 1].  With
    [limit = 0] the very first event is deferred. *)
Theorem simple_counter_admits_limit_events (limit : nat)
    (deferInterval expireTime maxKeys : num) (eventData : StrategyEvent)
    (before : list num) (now : num) (after : list num) :
  List.length before = limit ->
  fst (Replay.replay SimpleCounterStrategy.strategy
         {| tc_limit := Num.of_nat limit; tc_deferInterval := deferInterval;
            tc_expireTime := expireTime; tc_maxKeys := maxKeys |}
         eventData None (before ++ now :: after)%list)
  = (repeat Immediate limit
     ++ Deferred :: repeat Ignored (List.length after))%list
  /\ exists r,
       snd (Replay.replay SimpleCounterStrategy.strategy
              {| tc_limit := Num.of_nat limit; tc_deferInterval := deferInterval;
                 tc_expireTime := expireTime; tc_maxKeys := maxKeys |}
              eventData None (before ++ now :: after)%list) = Some r
       /\ deferred r = true /\ count r == Num.of_nat limit + 1.
Proof.
  intros Hlen.
  destruct (simple_replay_counted limit deferInterval expireTime maxKeys
              eventData before now after None 0%nat eq_refl)
    as (Hout & r & Hfinal & Hd & Hc); [lia|].
  rewrite Hlen in Hout. split; [exact Hout|].
  exists r. split; [exact Hfinal|]. split; [exact Hd|].
  rewrite Hc. apply of_nat_S.
Qed.

Lemma simple_counter_admits_limit_events_witness :
  fst (Replay.replay SimpleCounterStrategy.strategy
         {| tc_limit := Num.of_nat 3; tc_deferInterval := 100;
            tc_expireTime := 200; tc_maxKeys := 0 |}
         Example.strategyEvent None [1000; 1001; 5000; 5001; 5002; 9000])
  = [Immediate; Immediate; Immediate; Deferred; Ignored; Ignored].
Proof.
  exact (proj1 (simple_counter_admits_limit_events 3 100 200 0
                  Example.strategyEvent [1000; 1001; 5000] 5001 [5002; 9000]
                  eq_refl)).
Defined.

Section TokenBucketBurst.
Variable bucket : nat.
Variable refillRate : num.
Variable tracker : TrackerConfig.
Variable eventData : StrategyEvent.
Variable now : num.

Local Abbreviation strategy :=
  (TokenBucketStrategy.strategy (Num.of_nat bucket) refillRate).
Local Abbreviation holds := (Capacity.holds bucket now).

Lemma refill_same_instant r left :
  holds r left -> left <= Num.of_nat bucket ->
  TokenBucketStrategy.refill (config r) (strategyData r) now == left.
Proof.
  intros (Ht & Hl & Hb) Hle. rewrite token_refill_spec, Hl, Ht, Hb.
  assert (Hsame : left + (now - now) / 1000
                          * TokenBucketStrategy.refillRate (config r) == left)
    by (unfold Qdiv; ring).
  rewrite Hsame. apply Q.min_r. exact Hle.
Qed.

Lemma token_spend r left :
  holds r left -> left <= Num.of_nat bucket -> 1 <= left ->
  fst (@track _ _ strategy tracker now (Some r) eventData) = Immediate
  /\ holds (snd (@track _ _ strategy tracker now (Some r) eventData)) (left - 1).
Proof.
  intros Hr Hle Hone.
  pose proof (refill_same_instant r left Hr Hle) as Hrefill.
  destruct Hr as (Ht & Hl & Hb).
  cbn [track TokenBucketStrategy.strategy].
  unfold TokenBucketStrategy.track. cbv zeta.
  assert (Hge : Num.ge (TokenBucketStrategy.refill (config r) (strategyData r) now) 1
                = true)
    by (apply ge_true_iff; rewrite Hrefill; exact Hone).
  rewrite Hge. cbn. unfold Capacity.holds. cbn.
  split; [reflexivity|]. split; [| split; [reflexivity | exact Hb]].
  rewrite sub_spec, Hrefill. reflexivity.
Qed.

Lemma token_short r left :
  holds r left -> left <= Num.of_nat bucket -> left < 1 ->
  fst (@track _ _ strategy tracker now (Some r) eventData) = Deferred
  /\ holds (snd (@track _ _ strategy tracker now (Some r) eventData)) left.
Proof.
  intros Hr Hle Hone.
  pose proof (refill_same_instant r left Hr Hle) as Hrefill.
  destruct Hr as (Ht & Hl & Hb).
  cbn [track TokenBucketStrategy.strategy].
  unfold TokenBucketStrategy.track. cbv zeta.
  assert (Hge : Num.ge (TokenBucketStrategy.refill (config r) (strategyData r) now) 1
                = false)
    by (apply ge_false_iff; rewrite Hrefill; exact Hone).
  rewrite Hge. cbn. unfold Capacity.holds. cbn.
  split; [reflexivity|]. split; [exact Hrefill | split; [reflexivity | exact Hb]].
Qed.

Lemma token_replay_short (m : nat) :
  forall r left,
    holds r left -> left <= Num.of_nat bucket -> left < 1 ->
    fst (Replay.replay strategy tracker eventData (Some r) (repeat now m))
    = repeat Deferred m.
Proof.
  induction m as [| m IH]; intros r left Hr Hle Hone; [reflexivity|].
  cbn [repeat]. rewrite replay_cons. cbn [fst].
  destruct (token_short r left Hr Hle Hone) as (-> & Hnext).
  rewrite (IH _ left Hnext Hle Hone). reflexivity.
Qed.

Lemma token_replay_burst (n m : nat) :
  forall r, holds r (Num.of_nat n) -> (n <= bucket)%nat ->
    fst (Replay.replay strategy tracker eventData (Some r)
           (repeat now (n + m)))
    = (repeat Immediate n ++ repeat Deferred m)%list.
Proof.
  induction n as [| n IH]; intros r Hr Hle.
  - cbn [Nat.add repeat List.app].
    apply (token_replay_short m r (Num.of_nat 0) Hr).
    + apply of_nat_le. lia.
    + reflexivity.
  - cbn [Nat.add repeat List.app]. rewrite replay_cons. cbn [fst].
    destruct (token_spend r (Num.of_nat (S n)) Hr) as (-> & Hnext).
    + apply of_nat_le. exact Hle.
    + change 1 with (Num.of_nat 1). apply of_nat_le. lia.
    + rewrite (IH _); [reflexivity | | lia].
      destruct Hnext as (Ht & Hrest). split; [|exact Hrest].
      rewrite Ht, of_nat_S. ring.
Qed.

Lemma token_first_event :
  fst (@track _ _ strategy tracker now None eventData) = Immediate
  /\ holds (snd (@track _ _ strategy tracker now None eventData))
       (Num.of_nat bucket - 1).
Proof.
  cbn [track TokenBucketStrategy.strategy].
  unfold TokenBucketStrategy.track. cbn. unfold Capacity.holds. cbn.
  split; [reflexivity|]. split; [apply sub_spec|]. split; reflexivity.
Qed.
End TokenBucketBurst.

(** X12.  Token bucket, burst capacity.  Events that reach a new identity
    at one instant (so that nothing is refilled between them) are
    immediate for the first [bucketSize] of them and deferred from then on,
    for a whole-number bucket size; with [bucketSize = 0] the first event
    is still immediate, because a new record is admitted without looking
    at the tokens. *)
Theorem token_bucket_admits_a_burst_of_bucketSize (bucket : nat)
    (refillRate : num) (tracker : TrackerConfig) (eventData : StrategyEvent)
    (now : num) (m : nat) :
  fst (Replay.replay
         (TokenBucketStrategy.strategy (Num.of_nat bucket) refillRate)
         tracker eventData None (repeat now (Nat.max bucket 1 + m)))
  = (repeat Immediate (Nat.max bucket 1) ++ repeat Deferred m)%list.
Proof.
  destruct (token_first_event bucket refillRate tracker eventData now)
    as (Hfirst & Hholds).
  destruct bucket as [| b].
  - cbn [Nat.max Nat.add repeat List.app]. rewrite replay_cons. cbn [fst].
    rewrite Hfirst. f_equal.
    apply (token_replay_short 0 refillRate tracker eventData now m _
             (Num.of_nat 0 - 1) Hholds);
      [unfold Qle; simpl; lia | reflexivity].
  - replace (Nat.max (S b) 1) with (S b) by lia.
    cbn [Nat.add repeat List.app]. rewrite replay_cons. cbn [fst].
    rewrite Hfirst. f_equal.
    apply (token_replay_burst (S b) refillRate tracker eventData now b m);
      [|lia].
    destruct Hholds as (Ht & Hrest). split; [|exact Hrest].
    rewrite Ht, of_nat_S. ring.
Qed.

(** ** The token bucket's retry schedule *)

(** X13.  Token bucket, the retry schedule in the source's own arithmetic.
    With [bucketSize] 1 and [refillRate] 5, the event at 1000 creates the
    record and is immediate, the event at 1020 is deferred with
    [scheduledSendAt = 1200], and the event that comes back exactly at 1200
    is deferred again, to 1201: the two refills, 0.1 and 0.9 in exact
    terms, add up to a double just below 1.  In exact arithmetic the same
    run has the same schedule and admits the third event, so the schedule
    is when the next token is expected, not a time at which the event is
    sure to pass. *)
Theorem token_bucket_retry_at_schedule_can_be_deferred_again :
  let track := TokenBucketDouble.track 1%float 5%float 0%float 60000%float in
  let first := track 1000%float None Example.strategyEvent in
  let second := track 1020%float (Some (snd first)) Example.strategyEvent in
  let third := track 1200%float (Some (snd second)) Example.strategyEvent in
  let tracker :=
    {| tc_limit := 5; tc_deferInterval := 0; tc_expireTime := 60000;
       tc_maxKeys := 0 |} in
  let exact := TokenBucketStrategy.track 1 5 tracker in
  let exactFirst := exact 1000 None Example.strategyEvent in
  let exactSecond := exact 1020 (Some (snd exactFirst)) Example.strategyEvent in
  let exactThird := exact 1200 (Some (snd exactSecond)) Example.strategyEvent in
  fst first = Immediate
  /\ fst second = Deferred
  /\ TokenBucketDouble.scheduledSendAt (snd second) = Some 1200%float
  /\ fst third = Deferred
  /\ PrimFloat.ltb
       (TokenBucketDouble.tokens (TokenBucketDouble.strategyData (snd third)))
       1%float = true
  /\ TokenBucketDouble.scheduledSendAt (snd third) = Some 1201%float
  /\ fst exactSecond = Deferred
  /\ scheduledSendAt (snd exactSecond) = Some 1200
  /\ TokenBucketStrategy.tokens (strategyData (snd exactSecond)) = 1 # 10
  /\ fst exactThird = Immediate.
Proof.
  cbv zeta. repeat split; vm_compute; reflexivity.
Qed.

(** ** The sliding window within one window *)

Section SlidingWindowCapacity.
Variable limit : nat.
Variable windowSize : num.
Variable tracker : TrackerConfig.
Variable eventData : StrategyEvent.
Variable start : num.

Local Abbreviation strategy :=
  (SlidingWindowStrategy.strategy (Num.of_nat limit) windowSize).
Local Abbreviation filled := (Capacity.filled limit windowSize start).

Lemma slide_within_window r c t :
  filled r c -> t - start < windowSize ->
  SlidingWindowStrategy.slide (SlidingWindowStrategy.windowSize (config r))
    (strategyData r) t = strategyData r.
Proof.
  intros (_ & _ & Hs & _ & Hw) Hin. unfold SlidingWindowStrategy.slide.
  cbv zeta.
  assert (Hge : Num.ge (Num.sub t (SlidingWindowStrategy.windowStart (strategyData r)))
                  (SlidingWindowStrategy.windowSize (config r)) = false).
  { apply ge_false_iff. rewrite sub_spec, Hs, Hw. exact Hin. }
  rewrite Hge. reflexivity.
Qed.

Lemma estimate_within_window r c t :
  filled r c ->
  SlidingWindowStrategy.estimate (SlidingWindowStrategy.windowSize (config r))
    (strategyData r) t == Num.of_nat c.
Proof.
  intros (Hc & Hp & _). unfold SlidingWindowStrategy.estimate. cbv zeta.
  rewrite add_spec, mul_spec, Hc, Hp. ring.
Qed.

Lemma sliding_under_limit r c t :
  filled r c -> t - start < windowSize -> (c < limit)%nat ->
  fst (@track _ _ strategy tracker t (Some r) eventData) = Immediate
  /\ filled (snd (@track _ _ strategy tracker t (Some r) eventData)) (S c).
Proof.
  intros Hr Hin Hlt.
  cbn [track SlidingWindowStrategy.strategy].
  unfold SlidingWindowStrategy.track. cbv zeta.
  rewrite (slide_within_window r c t Hr Hin).
  assert (Hadmit : Num.lt
                     (SlidingWindowStrategy.estimate
                        (SlidingWindowStrategy.windowSize (config r))
                        (strategyData r) t)
                     (SlidingWindowStrategy.limit (config r)) = true).
  { apply lt_true_iff. rewrite (estimate_within_window r c t Hr).
    destruct Hr as (_ & _ & _ & -> & _).
    unfold Num.of_nat. rewrite <- Zlt_Qlt. lia. }
  rewrite Hadmit. destruct Hr as (Hc & Hp & Hs & Hl & Hw).
  cbn. unfold Capacity.filled. cbn.
  split; [reflexivity|]. split; [| auto].
  rewrite add_spec, Hc, of_nat_S. reflexivity.
Qed.

Lemma sliding_at_limit r c t :
  filled r c -> t - start < windowSize -> (limit <= c)%nat ->
  fst (@track _ _ strategy tracker t (Some r) eventData) = Deferred
  /\ filled (snd (@track _ _ strategy tracker t (Some r) eventData)) c.
Proof.
  intros Hr Hin Hle.
  cbn [track SlidingWindowStrategy.strategy].
  unfold SlidingWindowStrategy.track. cbv zeta.
  rewrite (slide_within_window r c t Hr Hin).
  assert (Hfull : Num.lt
                    (SlidingWindowStrategy.estimate
                       (SlidingWindowStrategy.windowSize (config r))
                       (strategyData r) t)
                    (SlidingWindowStrategy.limit (config r)) = false).
  { destruct (Num.lt _ _) eqn:Hlt; [|reflexivity]. exfalso.
    apply lt_true_iff in Hlt. rewrite (estimate_within_window r c t Hr) in Hlt.
    destruct Hr as (_ & _ & _ & Hl & _). rewrite Hl in Hlt.
    unfold Num.of_nat in Hlt. rewrite <- Zlt_Qlt in Hlt. lia. }
  rewrite Hfull. destruct Hr as (Hc & Hp & Hs & Hl & Hw).
  cbn. unfold Capacity.filled. cbn. repeat split; assumption.
Qed.

Lemma sliding_replay_full (after : list num) :
  forall r c,
    filled r c -> (limit <= c)%nat ->
    Forall (fun t => t - start < windowSize) after ->
    fst (Replay.replay strategy tracker eventData (Some r) after)
    = repeat Deferred (List.length after).
Proof.
  induction after as [| t after IH]; intros r c Hr Hle Hin; [reflexivity|].
  apply Forall_cons_iff in Hin as [Ht Hin].
  rewrite replay_cons. cbn [fst List.length repeat].
  destruct (sliding_at_limit r c t Hr Ht Hle) as (-> & Hnext).
  rewrite (IH _ c Hnext Hle Hin). reflexivity.
Qed.

Lemma sliding_replay_filling (before after : list num) :
  forall r c,
    filled r c -> (limit <= c + List.length before)%nat ->
    (1 <= c)%nat ->
    (c + List.length before <= Nat.max limit 1)%nat ->
    Forall (fun t => t - start < windowSize) (before ++ after) ->
    fst (Replay.replay strategy tracker eventData (Some r)
           (before ++ after)%list)
    = (repeat Immediate (List.length before)
       ++ repeat Deferred (List.length after))%list.
Proof.
  induction before as [| t before IH]; intros r c Hr Hlow Hone Hhigh Hin.
  - cbn [List.app List.length repeat] in *.
    apply (sliding_replay_full after r c Hr); [lia | exact Hin].
  - cbn [List.app List.length repeat] in *.
    apply Forall_cons_iff in Hin as [Ht Hin].
    rewrite replay_cons. cbn [fst].
    destruct (sliding_under_limit r c t Hr Ht) as (-> & Hnext); [lia|].
    rewrite (IH _ (S c) Hnext); [reflexivity | lia | lia | lia | exact Hin].
Qed.

Lemma sliding_first_event :
  fst (@track _ _ strategy tracker start None eventData) = Immediate
  /\ filled (snd (@track _ _ strategy tracker start None eventData)) 1.
Proof.
  cbn [track SlidingWindowStrategy.strategy].
  unfold SlidingWindowStrategy.track. cbn. unfold Capacity.filled. cbn.
  repeat split; reflexivity.
Qed.
End SlidingWindowCapacity.

(** X14.  Sliding window, capacity of one window.  On a new identity
    whose events all fall within the first window (less than [windowSize]
    after the first event), the first [limit] events are immediate and all
    later ones deferred, for a whole-number limit; the first event is
    immediate even with [limit = 0], because a new record is admitted
    without looking at the limit. *)
Theorem sliding_window_admits_limit_events_per_window (limit : nat)
    (windowSize : num) (tracker : TrackerConfig) (eventData : StrategyEvent)
    (start : num) (before after : list num) :
  List.length before = (Nat.max limit 1 - 1)%nat ->
  Forall (fun t => t - start < windowSize) (before ++ after) ->
  fst (Replay.replay
         (SlidingWindowStrategy.strategy (Num.of_nat limit) windowSize)
         tracker eventData None (start :: before ++ after)%list)
  = (repeat Immediate (Nat.max limit 1)
     ++ repeat Deferred (List.length after))%list.
Proof.
  intros Hlen Hin. rewrite replay_cons. cbn [fst].
  destruct (sliding_first_event limit windowSize tracker eventData start)
    as (Hfirst & Hfilled).
  rewrite Hfirst.
  replace (Nat.max limit 1) with (S (List.length before)) by lia.
  cbn [repeat List.app]. f_equal.
  apply (sliding_replay_filling limit windowSize tracker eventData start
           before after _ 1%nat Hfilled); [lia | lia | lia | exact Hin].
Qed.

Lemma sliding_window_admits_limit_events_per_window_witness :
  fst (Replay.replay (SlidingWindowStrategy.strategy (Num.of_nat 2) 1000)
         Example.slidingConfig Example.strategyEvent None [0; 10; 20; 999])
  = [Immediate; Immediate; Deferred; Deferred].
Proof.
  refine (sliding_window_admits_limit_events_per_window 2 1000
            Example.slidingConfig Example.strategyEvent 0 [10] [20; 999] _ _).
  - reflexivity.
  - repeat constructor.
Defined.

(** ** The sliding window's bookkeeping *)

Lemma trunc_nonneg (a : num) : 0 <= a -> Num.trunc a = inject_Z (Qfloor a).
Proof.
  intros Ha. unfold Num.trunc. apply Qle_bool_iff in Ha. rewrite Ha.
  reflexivity.
Qed.

(** [a % b] for [0 <= a] and [0 < b]: a whole number of [b]s is taken off,
    and what is left lies in [[0, b)]. *)
Lemma rem_spec (a b : num) :
  0 <= a -> 0 < b ->
  exists n : nat,
    Num.rem a b == a - Num.of_nat n * b
    /\ 0 <= Num.rem a b /\ Num.rem a b < b.
Proof.
  intros Ha Hb.
  assert (Hbz : ~ b == 0) by (intros Hz; rewrite Hz in Hb; discriminate).
  assert (Hquot : 0 <= a / b).
  { apply Qle_shift_div_l; [exact Hb|]. rewrite Qmult_0_l. exact Ha. }
  assert (Hfloor0 : (0 <= Qfloor (a / b))%Z).
  { change 0%Z with (Qfloor 0). apply Qfloor_resp_le. exact Hquot. }
  assert (Hrem : Num.rem a b == a - inject_Z (Qfloor (a / b)) * b).
  { unfold Num.rem. rewrite (trunc_nonneg _ Hquot). rewrite sub_spec. rewrite mul_spec. ring. }
  assert (Hback : a / b * b == a) by (field; exact Hbz).
  assert (Hlow : inject_Z (Qfloor (a / b)) * b <= a).
  { rewrite <- Hback at 2.
    apply Qmult_le_compat_r; [apply Qfloor_le | apply Qlt_le_weak; exact Hb]. }
  assert (Hhigh : a < (inject_Z (Qfloor (a / b)) + 1) * b).
  { rewrite <- Hback at 1. apply Qmult_lt_compat_r; [exact Hb|].
    change 1 with (inject_Z 1). rewrite <- inject_Z_plus. apply Qlt_floor. }
  exists (Z.to_nat (Qfloor (a / b))). unfold Num.of_nat.
  rewrite Z2Nat.id by exact Hfloor0.
  split; [exact Hrem|]. rewrite Hrem. split; lra.
Qed.

Lemma estimate_spec (windowSize : num) (data : SlidingWindowStrategy.Data)
    (now : num) :
  SlidingWindowStrategy.estimate windowSize data now
  == SlidingWindowStrategy.currentCount data
     + SlidingWindowStrategy.previousCount data
       * ((windowSize - (now - SlidingWindowStrategy.windowStart data))
          / windowSize).
Proof.
  unfold SlidingWindowStrategy.estimate. cbv zeta.
  rewrite add_spec, mul_spec, div_spec, sub_spec, sub_spec. reflexivity.
Qed.

Lemma weight_bounds (windowSize elapsed : Q) :
  0 < windowSize -> 0 <= elapsed -> elapsed < windowSize ->
  0 < (windowSize - elapsed) / windowSize
  /\ (windowSize - elapsed) / windowSize <= 1.
Proof.
  intros Hw Hlow Hhigh. split.
  - apply Qlt_shift_div_l; [exact Hw | lra].
  - apply Qle_shift_div_r; [exact Hw | lra].
Qed.

Lemma weighted_between (c p w : Q) :
  0 <= p -> 0 < w -> w <= 1 -> c <= c + p * w /\ c + p * w <= c + p.
Proof. intros Hp Hw0 Hw1. split; nra. Qed.

(** X15.  Sliding window, re-alignment.  For a positive window size and a
    clock that is not behind the window start, the window bookkeeping
    leaves a window that contains the present: its start is at or before
    [now] and less than [windowSize] ago, and it differs from the old
    start by a whole number of windows.  The weight given to the previous
    window then lies in (0, 1], so with non-negative counts the estimate
    lies between the current count and the sum of both counts. *)
Theorem sliding_window_realigns_its_window (windowSize : num)
    (data : SlidingWindowStrategy.Data) (now : num) :
  0 < windowSize ->
  SlidingWindowStrategy.windowStart data <= now ->
  (SlidingWindowStrategy.windowStart
     (SlidingWindowStrategy.slide windowSize data now) <= now
   /\ now - SlidingWindowStrategy.windowStart
              (SlidingWindowStrategy.slide windowSize data now) < windowSize)
  /\ (exists n : nat,
        SlidingWindowStrategy.windowStart
          (SlidingWindowStrategy.slide windowSize data now)
        == SlidingWindowStrategy.windowStart data
           + Num.of_nat n * windowSize)
  /\ (0 <= SlidingWindowStrategy.currentCount data ->
      0 <= SlidingWindowStrategy.previousCount data ->
      SlidingWindowStrategy.currentCount
        (SlidingWindowStrategy.slide windowSize data now)
      <= SlidingWindowStrategy.estimate windowSize
           (SlidingWindowStrategy.slide windowSize data now) now
      /\ SlidingWindowStrategy.estimate windowSize
           (SlidingWindowStrategy.slide windowSize data now) now
         <= SlidingWindowStrategy.currentCount
              (SlidingWindowStrategy.slide windowSize data now)
            + SlidingWindowStrategy.previousCount
                (SlidingWindowStrategy.slide windowSize data now)).
Proof.
  intros Hw Hclock.
  assert (Hgrid :
    (SlidingWindowStrategy.windowStart
       (SlidingWindowStrategy.slide windowSize data now) <= now
     /\ now - SlidingWindowStrategy.windowStart
                (SlidingWindowStrategy.slide windowSize data now) < windowSize)
    /\ (exists n : nat,
          SlidingWindowStrategy.windowStart
            (SlidingWindowStrategy.slide windowSize data now)
          == SlidingWindowStrategy.windowStart data
             + Num.of_nat n * windowSize)).
  { unfold SlidingWindowStrategy.slide. cbv zeta.
    destruct (Num.ge (Num.sub now (SlidingWindowStrategy.windowStart data))
                windowSize) eqn:Hslid.
    - cbn [SlidingWindowStrategy.windowStart].
      pose proof (sub_spec now (SlidingWindowStrategy.windowStart data)) as He.
      assert (Helapsed : 0 <= Num.sub now (SlidingWindowStrategy.windowStart data))
        by (rewrite He; lra).
      destruct (rem_spec _ windowSize Helapsed Hw) as (n & Hrem & Hlow & Hhigh).
      pose proof (sub_spec now
                    (Num.rem (Num.sub now (SlidingWindowStrategy.windowStart data))
                       windowSize)) as Hstart.
      split; [split|].
      + rewrite Hstart. lra.
      + rewrite Hstart. lra.
      + exists n. rewrite Hstart, Hrem, He.
        assert (Hlin : forall t s g : Q, t - (t - s - g) == s + g)
          by (intros; ring).
        apply Hlin.
    - apply ge_false_iff in Hslid. rewrite sub_spec in Hslid.
      split; [split; [exact Hclock | exact Hslid]|].
      exists 0%nat. change (Num.of_nat 0) with 0.
      assert (Hlin : forall s w : Q, s == s + 0 * w) by (intros; ring).
      apply Hlin. }
  split; [exact (proj1 Hgrid) | split; [exact (proj2 Hgrid)|]].
  intros Hcc Hpc. destruct Hgrid as [[Hstart Hin] _].
  rewrite estimate_spec.
  destruct (weight_bounds windowSize
              (now - SlidingWindowStrategy.windowStart
                       (SlidingWindowStrategy.slide windowSize data now)) Hw)
    as [Hw0 Hw1]; [lra | exact Hin |].
  assert (Hprev : 0 <= SlidingWindowStrategy.previousCount
                         (SlidingWindowStrategy.slide windowSize data now)).
  { unfold SlidingWindowStrategy.slide. cbv zeta.
    destruct (Num.ge _ windowSize); [|exact Hpc].
    cbn [SlidingWindowStrategy.previousCount].
    destruct (Num.ge _ _); [apply Qle_refl | exact Hcc]. }
  apply weighted_between; assumption.
Qed.

Lemma sliding_window_realigns_its_window_witness :
  SlidingWindowStrategy.windowStart
    (SlidingWindowStrategy.slide 1000
       (strategyData Example.slidingActiveRecord) 2500) <= 2500
  /\ 2500 - SlidingWindowStrategy.windowStart
               (SlidingWindowStrategy.slide 1000
                  (strategyData Example.slidingActiveRecord) 2500) < 1000.
Proof.
  refine (proj1 (sliding_window_realigns_its_window 1000
                   (strategyData Example.slidingActiveRecord) 2500 _ _)).
  - reflexivity.
  - unfold Qle. simpl. lia.
Defined.

(** ** The processor that recovers, and what is left in the store *)

Lemma retryLoop_step {C D : Type} (processor : EventTracker.Processor C D)
    (maxRetries retryDelay : JsNumber) (batch : list (EventRecord C D))
    (fuel attempt : nat) (lastError : EventTracker.Raised) :
  EventTracker.retryLoop processor maxRetries retryDelay batch (S fuel)
    attempt lastError
  = if JsNumberOps.atLeast (Num.of_nat attempt) maxRetries then
      match processor attempt batch with
      | None =>
          (EventTracker.Invoke attempt batch
             :: map (fun event =>
                       EventTracker.Emit (EventTracker.EmitProcessed event))
                  batch,
           EventTracker.Succeeded)
      | Some error =>
          ((EventTracker.Invoke attempt batch
              :: (if JsNumberOps.above (Num.of_nat attempt) maxRetries
                  then Run.backoff maxRetries retryDelay batch attempt
                  else [])
              ++ fst (EventTracker.retryLoop processor maxRetries retryDelay
                        batch fuel (attempt + 1) error))%list,
           snd (EventTracker.retryLoop processor maxRetries retryDelay batch
                  fuel (attempt + 1) error))
      end
    else ([], EventTracker.Exhausted lastError).
Proof.
  cbn [EventTracker.retryLoop].
  destruct (JsNumberOps.atLeast (Num.of_nat attempt) maxRetries); [|reflexivity].
  destruct (processor attempt batch); [|reflexivity].
  destruct (EventTracker.retryLoop _ _ _ _ fuel _ _). reflexivity.
Qed.

Lemma atLeast_mono (maxRetries : JsNumber) (a b : nat) :
  (a <= b)%nat ->
  JsNumberOps.atLeast (Num.of_nat b) maxRetries = true ->
  JsNumberOps.atLeast (Num.of_nat a) maxRetries = true.
Proof.
  intros Hle Hb. destruct maxRetries as [q | | |]; cbn in *;
    try reflexivity; try discriminate.
  apply Qle_bool_iff. apply Qle_bool_iff in Hb.
  apply Qle_trans with (Num.of_nat b); [apply of_nat_le; exact Hle | exact Hb].
Qed.

Lemma above_before (maxRetries : JsNumber) (a b : nat) :
  (a < b)%nat ->
  JsNumberOps.atLeast (Num.of_nat b) maxRetries = true ->
  JsNumberOps.above (Num.of_nat a) maxRetries = true.
Proof.
  intros Hlt Hb. destruct maxRetries as [q | | |]; cbn in *;
    try reflexivity; try discriminate.
  apply Qle_bool_iff in Hb. apply negb_true_iff.
  destruct (Qle_bool q (Num.of_nat a)) eqn:Hqa; [|reflexivity].
  apply Qle_bool_iff in Hqa.
  assert (Hba : Num.of_nat b <= Num.of_nat a) by (eapply Qle_trans; eassumption).
  unfold Num.of_nat in Hba. rewrite <- Zle_Qle in Hba. lia.
Qed.

Section EffectCounts.
Context {C D : Type}.
Variable maxRetries : JsNumber.
Variable retryDelay : JsNumber.
Variable batch : list (EventRecord C D).

Lemma processFailedCount_app (xs ys : list (EventTracker.Effect C D)) :
  Run.processFailedCount (xs ++ ys)
  = (Run.processFailedCount xs + Run.processFailedCount ys)%nat.
Proof.
  unfold Run.processFailedCount. rewrite List.filter_app, List.length_app.
  reflexivity.
Qed.

Lemma invocationCount_app (xs ys : list (EventTracker.Effect C D)) :
  Run.invocationCount (xs ++ ys)
  = (Run.invocationCount xs + Run.invocationCount ys)%nat.
Proof.
  unfold Run.invocationCount. rewrite List.filter_app, List.length_app.
  reflexivity.
Qed.

Lemma errorCount_app (xs ys : list (EventTracker.Effect C D)) :
  Run.errorCount (xs ++ ys) = (Run.errorCount xs + Run.errorCount ys)%nat.
Proof.
  unfold Run.errorCount. rewrite List.filter_app, List.length_app.
  reflexivity.
Qed.

Lemma retried_attempts_counts (attempts : list nat) :
  Run.processFailedCount
    (flat_map (Run.failedAttempt maxRetries retryDelay batch) attempts) = 0%nat
  /\ Run.invocationCount
       (flat_map (Run.failedAttempt maxRetries retryDelay batch) attempts)
     = List.length attempts
  /\ Run.errorCount
       (flat_map (Run.failedAttempt maxRetries retryDelay batch) attempts)
     = 0%nat.
Proof.
  induction attempts as [| k attempts (IHf & IHi & IHe)];
    [repeat split; reflexivity|].
  change (flat_map (Run.failedAttempt maxRetries retryDelay batch) (k :: attempts))
    with (Run.failedAttempt maxRetries retryDelay batch k
          ++ flat_map (Run.failedAttempt maxRetries retryDelay batch) attempts)%list.
  rewrite processFailedCount_app, invocationCount_app, errorCount_app,
    IHf, IHi, IHe.
  repeat split; reflexivity.
Qed.

Lemma processed_notifications_counts :
  Run.processFailedCount
    (map (fun event => EventTracker.Emit (EventTracker.EmitProcessed event))
       batch) = 0%nat
  /\ Run.invocationCount
       (map (fun event => EventTracker.Emit (EventTracker.EmitProcessed event))
          batch) = 0%nat
  /\ Run.errorCount
       (map (fun event => EventTracker.Emit (EventTracker.EmitProcessed event))
          batch) = 0%nat.
Proof.
  induction batch as [| event events (IHf & IHi & IHe)];
    [repeat split; reflexivity|].
  split; [exact IHf | split; [exact IHi | exact IHe]].
Qed.

Lemma recoveredTrace_counts (j : nat) :
  Run.processFailedCount (Run.recoveredTrace maxRetries retryDelay batch j)
  = 0%nat
  /\ Run.invocationCount (Run.recoveredTrace maxRetries retryDelay batch j)
     = (j + 1)%nat
  /\ Run.errorCount (Run.recoveredTrace maxRetries retryDelay batch j)
     = 0%nat.
Proof.
  unfold Run.recoveredTrace.
  destruct (retried_attempts_counts (seq 0 j)) as (Hf & Hi & He).
  destruct processed_notifications_counts as (Pf & Pi & Pe).
  rewrite processFailedCount_app, invocationCount_app, errorCount_app,
    Hf, Hi, He, List.length_seq.
  change (EventTracker.Invoke j batch
            :: map (fun event =>
                      EventTracker.Emit (EventTracker.EmitProcessed event))
                 batch)
    with ([EventTracker.Invoke j batch]
          ++ map (fun event =>
                    EventTracker.Emit (EventTracker.EmitProcessed event))
               batch)%list.
  rewrite processFailedCount_app, invocationCount_app, errorCount_app,
    Pf, Pi, Pe.
  repeat split; reflexivity.
Qed.
End EffectCounts.

Section ProcessorRecovery.
Context {C D : Type}.
Variable processor : EventTracker.Processor C D.
Variable maxRetries : JsNumber.
Variable retryDelay : JsNumber.
Variable batch : list (EventRecord C D).
Variable errors : nat -> EventTracker.Raised.
Variable failures : nat.

Hypothesis fails_first :
  forall attempt, (attempt < failures)%nat ->
                  processor attempt batch = Some (errors attempt).
Hypothesis then_succeeds : processor failures batch = None.
Hypothesis within_budget :
  JsNumberOps.atLeast (Num.of_nat failures) maxRetries = true.

Lemma retryLoop_recovers (pending : nat) :
  forall (attempt fuel : nat) (lastError : EventTracker.Raised),
    (attempt + pending = failures)%nat ->
    (pending < fuel)%nat ->
    EventTracker.retryLoop processor maxRetries retryDelay batch fuel
      attempt lastError
    = ((flat_map (Run.failedAttempt maxRetries retryDelay batch)
          (seq attempt pending)
        ++ EventTracker.Invoke failures batch
           :: map (fun event =>
                     EventTracker.Emit (EventTracker.EmitProcessed event))
                batch)%list,
       EventTracker.Succeeded).
Proof.
  induction pending as [| pending IH]; intros attempt fuel lastError
    Hpending Hfuel; (destruct fuel as [| fuel]; [lia|]).
  - assert (attempt = failures) by lia. subst attempt.
    rewrite retryLoop_step, within_budget, then_succeeds. reflexivity.
  - rewrite retryLoop_step.
    rewrite (atLeast_mono maxRetries attempt failures) by (lia || exact within_budget).
    rewrite (fails_first attempt) by lia.
    rewrite (above_before maxRetries attempt failures) by (lia || exact within_budget).
    rewrite (IH (attempt + 1)%nat fuel) by lia.
    cbn [fst snd].
    change (seq attempt (S pending)) with (attempt :: seq (S attempt) pending).
    rewrite <- (Nat.add_1_r attempt). reflexivity.
Qed.
End ProcessorRecovery.



Lemma delete_keeps_absent {C D : Type} (keys : list string) :
  forall (st : InMemoryAdapter.State C D) (k : string),
    InMemoryAdapter.events st !! k = None ->
    InMemoryAdapter.events (fold_left InMemoryAdapter.delete keys st) !! k = None.
Proof.
  induction keys as [| a keys IH]; intros st k Hnone; [exact Hnone|].
  simpl. apply IH. simpl.
  destruct (string_dec a k) as [-> | Hne].
  - apply lookup_delete_eq.
  - rewrite lookup_delete_ne by exact Hne. exact Hnone.
Qed.

Lemma popped_keys_are_gone {C D : Type} (keys : list string) :
  forall (st : InMemoryAdapter.State C D) (k : string),
    In k keys ->
    InMemoryAdapter.events (fold_left InMemoryAdapter.delete keys st) !! k = None.
Proof.
  induction keys as [| a keys IH]; intros st k Hin; [destruct Hin|].
  simpl. destruct Hin as [-> | Hin].
  - apply delete_keeps_absent. simpl. apply lookup_delete_eq.
  - apply IH. exact Hin.
Qed.

Lemma processDeferredEvents_pops {C D : Type}
    (processor : EventTracker.Processor C D)
    (maxRetries retryDelay : JsNumber) (errorListener : bool)
    (st : InMemoryAdapter.State C D) (now : num) (fuel : nat) :
  exists settled effects,
    InMemoryTracker.processDeferredEvents (Some processor) maxRetries
      retryDelay errorListener st now fuel
    = (settled, effects, snd (InMemoryAdapter.popDueDeferred st now))
    /\ (forall events, settled = EventTracker.Resolved events ->
                       events = fst (InMemoryAdapter.popDueDeferred st now))
    /\ (fst (InMemoryAdapter.popDueDeferred st now) = [] ->
        settled = EventTracker.Resolved [] /\ effects = []).
Proof.
  unfold InMemoryTracker.processDeferredEvents,
         EventTracker.processDeferredEvents.
  destruct (InMemoryAdapter.popDueDeferred st now) as [batch st'].
  cbn [fst snd]. destruct batch as [| event events].
  - exists (EventTracker.Resolved []), [].
    split; [reflexivity|]. split; [|split; reflexivity].
    intros ? [= <-]. reflexivity.
  - destruct (EventTracker.retryLoop processor maxRetries retryDelay
                (event :: events) fuel 0 EventTracker.RaisedNull)
      as [effects exit].
    destruct exit as [| lastError |].
    + do 2 eexists. split; [reflexivity|]. split; [|discriminate].
      intros ? [= <-]. reflexivity.
    + destruct (EventTracker.messageOf lastError) as [message|];
        [destruct errorListener|];
        (do 2 eexists; split; [reflexivity|]; split; [|discriminate]);
        try discriminate.
      intros ? [= <-]. reflexivity.
    + do 2 eexists. split; [reflexivity|]. split; discriminate.
Qed.

(** X17.  What [processDeferredEvents] does to the store.  Without a
    processor it resolves to the due records, emits nothing and leaves the
    store alone.  With a processor, the store is changed by the one call of
    [popDueDeferred] and by nothing else, however the call settles
    (resolved, rejected after the last failure, or still retrying): every
    due key is then absent.  When the call resolves it resolves to the due
    records; when nothing is due it resolves to the empty list, the
    processor is not called and nothing is emitted; and a second run on
    that store, at the same time or earlier, resolves to the empty list
    without effects: a batch whose processing failed is not offered
    again. *)
Theorem processDeferredEvents_hands_out_each_record_once {C D : Type}
    (processor again : EventTracker.Processor C D)
    (maxRetries maxRetries' retryDelay retryDelay' : JsNumber)
    (errorListener errorListener' : bool)
    (st : InMemoryAdapter.State C D) (now now' : num) (fuel fuel' : nat) :
  now' <= now ->
  InMemoryTracker.processDeferredEvents None maxRetries retryDelay
    errorListener st now fuel
  = (EventTracker.Resolved (InMemoryAdapter.findDueDeferred st now), [], st)
  /\ exists settled effects,
       InMemoryTracker.processDeferredEvents (Some processor) maxRetries
         retryDelay errorListener st now fuel
       = (settled, effects, snd (InMemoryAdapter.popDueDeferred st now))
       /\ (forall k, In k (InMemoryAdapter.dueKeys st now) ->
             InMemoryAdapter.events
               (snd (InMemoryAdapter.popDueDeferred st now)) !! k = None)
       /\ (forall events, settled = EventTracker.Resolved events ->
                          events = InMemoryAdapter.findDueDeferred st now)
       /\ (InMemoryAdapter.findDueDeferred st now = [] ->
           settled = EventTracker.Resolved [] /\ effects = [])
       /\ InMemoryTracker.processDeferredEvents (Some again) maxRetries'
            retryDelay' errorListener'
            (snd (InMemoryAdapter.popDueDeferred st now)) now' fuel'
          = (EventTracker.Resolved [], [],
             snd (InMemoryAdapter.popDueDeferred st now)).
Proof.
  intros Hle. split; [reflexivity|].
  destruct (processDeferredEvents_pops processor maxRetries retryDelay
              errorListener st now fuel)
    as (settled & effects & Hrun & Hvalue & Hquiet).
  exists settled, effects. split; [exact Hrun|].
  split; [| split; [exact Hvalue | split; [exact Hquiet|]]].
  - intros k Hin. apply popped_keys_are_gone. exact Hin.
  - unfold InMemoryTracker.processDeferredEvents,
           EventTracker.processDeferredEvents.
    unfold InMemoryAdapter.popDueDeferred at 1.
    rewrite (dueKeys_after_pop st now now' Hle). reflexivity.
Qed.

Lemma processDeferredEvents_hands_out_each_record_once_witness :
  1150 <= 1150
  /\ InMemoryTracker.processDeferredEvents
       (Some (fun (_ : nat)
                  (_ : list (EventRecord SimpleCounterStrategy.Config unit)) =>
                Some EventTracker.RaisedNull))
       (JsFinite 2) (JsFinite 10) false
       (snd (InMemoryAdapter.popDueDeferred Example.deferredStore 1150)) 1150 8
     = (EventTracker.Resolved [], [],
        snd (InMemoryAdapter.popDueDeferred Example.deferredStore 1150)).
Proof.
  assert (H : 1150 <= 1150) by apply Qle_refl.
  split; [exact H|].
  destruct (proj2 (processDeferredEvents_hands_out_each_record_once
                     (fun _ _ => Some (EventTracker.RaisedValue "boom"))
                     (fun _ _ => Some EventTracker.RaisedNull)
                     (JsFinite 2) (JsFinite 2) (JsFinite 10) (JsFinite 10) true false
                     Example.deferredStore 1150 1150 8 8 H))
    as (settled & effects & _ & _ & _ & _ & Hagain).
  exact Hagain.
Defined.

(** ** [updateConfig] *)

(** X18.  [updateConfig] on the in-memory adapter, for a [newConfig] that
    passes its checks and a valid identity with composite key [k].  If no
    record is stored under [k] it resolves to [false], emits nothing and
    leaves the store as it was.  If a record is stored it resolves to
    [true] and emits [config_updated] with the stored record, which is the
    old record with only its config replaced by the merged one: count,
    deferred flag, schedule, expiry and strategy state are untouched, as
    are all other keys, the size and the deferred index. *)
Theorem updateConfig_changes_only_the_config {C D : Type}
    (P : EventTracker.Platform) (mergeConfig : C -> JsValue -> C)
    (st : InMemoryAdapter.State C D) (category id newConfig : JsValue)
    (k : string) :
  truthy newConfig = true ->
  typeof newConfig = "object" ->
  EventTracker.rejectedSetting (EventTracker.getProp newConfig "limit") = false ->
  EventTracker.rejectedSetting (EventTracker.getProp newConfig "deferInterval")
  = false ->
  EventTracker.generateCompositeKey P category id = inr k ->
  (InMemoryAdapter.get st k = None ->
   InMemoryTracker.updateConfig P mergeConfig st category id newConfig
   = inr (false, None, st))
  /\ (forall r, InMemoryAdapter.get st k = Some r ->
        exists st',
          InMemoryTracker.updateConfig P mergeConfig st category id newConfig
          = inr (true,
                 Some (Some (with_config (mergeConfig (config r) newConfig) r)),
                 st')
          /\ InMemoryAdapter.get st' k
             = Some (with_config (mergeConfig (config r) newConfig) r)
          /\ (forall k', k' <> k ->
                InMemoryAdapter.get st' k' = InMemoryAdapter.get st k')
          /\ InMemoryAdapter.size st' = InMemoryAdapter.size st
          /\ (Invariant.indexed st ->
              InMemoryAdapter.deferredKeys st' = InMemoryAdapter.deferredKeys st)).
Proof.
  intros Htruthy Htype Hlimit Hdefer Hkey.
  unfold InMemoryTracker.updateConfig, EventTracker.updateConfig.
  rewrite Htruthy, Htype, Hlimit, Hdefer, Hkey.
  change (String.eqb "object" "object") with true. cbn [negb orb].
  unfold InMemoryAdapter.update, InMemoryAdapter.get. split.
  - intros Hnone. rewrite Hnone. reflexivity.
  - intros r Hr. rewrite Hr. eexists. split; [|split; [|split; [|split]]].
    + rewrite set_lookup_same. reflexivity.
    + apply set_lookup_same.
    + intros k' Hne. apply set_lookup_other. congruence.
    + apply (set_size_stored st k r). exact Hr.
    + intros Hinv. cbn [InMemoryAdapter.set InMemoryAdapter.deferredKeys
                        with_config deferred].
      unfold InMemoryAdapter.indexDeferred.
      apply set_eq. intros k'. destruct (deferred r) eqn:Hd.
      * rewrite elem_of_union, elem_of_singleton. split; [|auto].
        intros [-> | Hin]; [|exact Hin]. apply Hinv. exists r. auto.
      * rewrite elem_of_difference, elem_of_singleton. split; [tauto|].
        intros Hin. split; [exact Hin|]. intros ->.
        apply Hinv in Hin as (r' & Hr' & Hd'). congruence.
Qed.

Lemma updateConfig_changes_only_the_config_witness :
  exists st',
    InMemoryTracker.updateConfig Example.platform Example.mergeSimple
      Example.deferredStore (JsString "auth") (JsString "login_fail")
      Example.raisedLimit
    = inr (true,
           Some (Some (with_config
                         {| SimpleCounterStrategy.limit := 7;
                            SimpleCounterStrategy.deferInterval := 100 |}
                         Example.deferredRecord)),
           st')
    /\ InMemoryAdapter.size st' = InMemoryAdapter.size Example.deferredStore.
Proof.
  destruct (proj2 (updateConfig_changes_only_the_config Example.platform
                     Example.mergeSimple Example.deferredStore
                     (JsString "auth") (JsString "login_fail")
                     Example.raisedLimit "auth:login_fail"
                     eq_refl eq_refl eq_refl eq_refl eq_refl)
              Example.deferredRecord eq_refl)
    as (st' & Hrun & _ & _ & Hsize & _).
  exists st'. split; [exact Hrun | exact Hsize].
Defined.

(** ** The settings the constructor leaves behind *)

Lemma constructor_fields_acceptable (options : EventTracker.Options)
    (t : EventTracker.Constructed) :
  EventTracker.constructor options = inr t ->
  Forall (fun fv => Run.acceptable (snd fv)) (EventTracker.numericFields options)
  /\ t = {| EventTracker.limit :=
              JsNumberOps.maxWith 0
                (EventTracker.orDefault (EventTracker.o_limit options) 5);
            EventTracker.deferInterval :=
              JsNumberOps.maxWith 0
                (EventTracker.orDefault (EventTracker.o_deferInterval options)
                   EventTracker.DEFAULT_DEFER_INTERVAL_MS);
            EventTracker.expireTime :=
              JsNumberOps.maxWith 1
                (EventTracker.orDefault (EventTracker.o_expireTime options)
                   EventTracker.DEFAULT_EXPIRE_TIME_MS);
            EventTracker.maxKeys :=
              JsNumberOps.maxWith 0
                (EventTracker.orDefault (EventTracker.o_maxKeys options) 0);
            EventTracker.strategyType :=
              match EventTracker.o_strategy options with
              | EventTracker.StrategyInstance tag => tag
              | _ => "simple"
              end;
            EventTracker.processingIntervalMs :=
              JsNumberOps.maxWith 10
                (EventTracker.orDefault
                   (EventTracker.o_processingInterval options) 10000);
            EventTracker.maxRetries :=
              JsNumberOps.maxWith 0
                (EventTracker.orDefault (EventTracker.o_maxRetries options) 3);
            EventTracker.retryDelay :=
              JsNumberOps.maxWith 0
                (EventTracker.orDefault (EventTracker.o_retryDelay options) 1000);
            EventTracker.hasProcessor :=
              String.eqb (typeof (EventTracker.o_processor options)) "function" |}.
Proof.
  unfold EventTracker.constructor. intros Ht.
  destruct (EventTracker._validateConfig options) eqn:Ev; [discriminate|].
  apply validateFields_None in Ev. split; [exact Ev|].
  destruct (EventTracker.o_strategy options); try discriminate;
    injection Ht as <-; reflexivity.
Qed.

(** X19.  The settings of an accepted configuration.  [limit],
    [deferInterval], [maxKeys], [maxRetries] and [retryDelay] are numbers
    of at least 0 and [expireTime] is at least 1, none of them NaN.  A
    supplied finite [limit] is kept as it is; a supplied [expireTime]
    below 1 (zero included) becomes 1.  Left out, the settings are
    [limit = 5], [maxKeys = 0], [maxRetries = 3], [retryDelay = 1000],
    and the strategy is the simple counter. *)
Theorem constructor_settings_have_floors (options : EventTracker.Options)
    (t : EventTracker.Constructed) :
  EventTracker.constructor options = inr t ->
  (JsNumberOps.atLeast 0 (EventTracker.limit t) = true
   /\ JsNumberOps.atLeast 0 (EventTracker.deferInterval t) = true
   /\ JsNumberOps.atLeast 1 (EventTracker.expireTime t) = true
   /\ JsNumberOps.atLeast 0 (EventTracker.maxKeys t) = true
   /\ JsNumberOps.atLeast 0 (EventTracker.maxRetries t) = true
   /\ JsNumberOps.atLeast 0 (EventTracker.retryDelay t) = true)
  /\ (forall q, EventTracker.o_limit options = JsNum (JsFinite q) ->
                EventTracker.limit t = JsFinite q)
  /\ (forall q, EventTracker.o_expireTime options = JsNum (JsFinite q) ->
                q < 1 -> EventTracker.expireTime t = JsFinite 1)
  /\ (EventTracker.o_limit options = JsUndefined ->
      EventTracker.limit t = JsFinite 5)
  /\ (EventTracker.o_maxKeys options = JsUndefined ->
      EventTracker.maxKeys t = JsFinite 0)
  /\ (EventTracker.o_maxRetries options = JsUndefined ->
      EventTracker.maxRetries t = JsFinite 3)
  /\ (EventTracker.o_retryDelay options = JsUndefined ->
      EventTracker.retryDelay t = JsFinite 1000)
  /\ (EventTracker.o_strategy options = EventTracker.StrategyAbsent ->
      EventTracker.strategyType t = "simple").
Proof.
  intros Ht. apply constructor_fields_acceptable in Ht as [Hfields ->].
  unfold EventTracker.numericFields in Hfields.
  repeat (apply Forall_cons_iff in Hfields;
          destruct Hfields as [? Hfields]).
  cbn [snd] in *.
  cbn [EventTracker.limit EventTracker.deferInterval EventTracker.expireTime
       EventTracker.maxKeys EventTracker.maxRetries EventTracker.retryDelay
       EventTracker.strategyType].
  split; [| split; [| split; [| split; [| split; [| split; [| split]]]]]].
  - repeat split; apply maxWith_atLeast; apply orDefault_not_NaN; assumption.
  - intros q Hq.
    match goal with H : Run.acceptable (EventTracker.o_limit options) |- _ =>
      rewrite Hq in H; destruct H as [H | (n & Hn & _ & Hneg)];
        [discriminate | injection Hn as <-] end.
    rewrite Hq. cbn [EventTracker.orDefault JsNumberOps.maxWith].
    cbn [JsNumberOps.isNegative] in Hneg. apply negb_false_iff in Hneg.
    rewrite Hneg. reflexivity.
  - intros q Hq Hlt. rewrite Hq.
    cbn [EventTracker.orDefault JsNumberOps.maxWith].
    destruct (Qle_bool 1 q) eqn:Hle; [|reflexivity].
    apply Qle_bool_iff in Hle. exfalso. apply (Qlt_not_le _ _ Hlt Hle).
  - intros ->. reflexivity.
  - intros ->. reflexivity.
  - intros ->. reflexivity.
  - intros ->. reflexivity.
  - intros ->. reflexivity.
Qed.

Lemma constructor_settings_have_floors_witness :
  exists t,
    EventTracker.constructor (Example.options (JsNum (JsFinite 3)) JsUndefined)
    = inr t
    /\ EventTracker.limit t = JsFinite 3
    /\ JsNumberOps.atLeast 1 (EventTracker.expireTime t) = true.
Proof.
  eexists. split; [reflexivity|].
  pose proof (constructor_settings_have_floors
                (Example.options (JsNum (JsFinite 3)) JsUndefined) _ eq_refl)
    as (Hfloors & Hlimit & _).
  split; [exact (Hlimit 3 eq_refl) | exact (proj1 (proj2 (proj2 Hfloors)))].
Defined.

(** ** The Redis keyspace: counter, deferred set and hashes *)

Lemma getRecordKey_inj (k k' : string) :
  RedisAdapter._getRecordKey k = RedisAdapter._getRecordKey k' -> k = k'.
Proof.
  unfold RedisAdapter._getRecordKey, RedisAdapter.KEY_PREFIX. cbn.
  intros H. injection H as H. exact H.
Qed.

Lemma mirrored_empty : Invariant.mirrored RedisAdapter.empty.
Proof.
  split; [reflexivity|]. intros k s. cbn. rewrite !lookup_empty. split.
  - discriminate.
  - intros (h & Hh & _). discriminate.
Qed.

Lemma tokenBucketArm_new (existing : option RedisAdapter.Hash) (now count p1 p2 : num) :
  RedisAdapter.tokenBucketArm true existing now count p1 p2 <> None.
Proof.
  unfold RedisAdapter.tokenBucketArm. destruct existing as [h|];
    destruct (Num.ge p1 1); discriminate.
Qed.

Lemma trackScript_mirrored (st : RedisAdapter.State) (k category id : string)
    (details : JsValue) (detailsHash : string)
    (now expireTime maxKeys : num) (strategyType : string)
    (p1 p2 p3 : num) (initialConfig : RedisAdapter.ConfigBlob) :
  Invariant.mirrored st ->
  Invariant.mirrored
    (snd (RedisAdapter.trackScript st (RedisAdapter._getRecordKey k) k category
            id details detailsHash now expireTime maxKeys strategyType
            p1 p2 p3 initialConfig)).
Proof.
  intros [Hsize Hset]. unfold RedisAdapter.trackScript. cbv zeta.
  set (recordKey := RedisAdapter._getRecordKey k).
  set (isNew := (match RedisAdapter.hashes st !! recordKey with
                 | Some _ => false | None => true end
                 || _ || _)).
  destruct (isNew && Num.gt maxKeys 0 && _ && _); [split; assumption|].
  match goal with
  | |- Invariant.mirrored (snd (match ?arm with _ => _ end)) =>
      destruct arm as [a|] eqn:Harm
  end.
  - cbn [snd]. split.
    + cbn [RedisAdapter.sizeCounter RedisAdapter.hashes].
      rewrite map_size_insert. unfold RedisAdapter.exists_.
      destruct (RedisAdapter.hashes st !! recordKey) eqn:Hex.
      * cbn [negb Datatypes.id]. rewrite andb_false_r. exact Hsize.
      * subst isNew. cbn [orb andb negb Datatypes.id].
        rewrite Hsize. lia.
    + intros k' s. cbn [RedisAdapter.deferredSet RedisAdapter.hashes].
      destruct (decide (k' = k)) as [-> | Hne].
      * fold recordKey. rewrite lookup_insert_eq.
        destruct (RedisAdapter.a_deferred a) eqn:Hd.
        -- rewrite lookup_insert_eq. split.
           ++ intros H. injection H as <-. eexists. split; [reflexivity|].
              cbn. auto.
           ++ intros (h & Hh & _ & Hs). injection Hh as <-. cbn in Hs.
              congruence.
        -- rewrite lookup_delete_eq. split; [discriminate|].
           intros (h & Hh & Hd' & _). injection Hh as <-. cbn in Hd'.
           congruence.
      * assert (Hrk : recordKey <> RedisAdapter._getRecordKey k').
        { intros H. apply Hne. symmetry. apply getRecordKey_inj. exact H. }
        rewrite lookup_insert_ne by exact Hrk.
        destruct (RedisAdapter.a_deferred a).
        -- rewrite lookup_insert_ne by congruence. apply Hset.
        -- rewrite lookup_delete_ne by congruence. apply Hset.
  - cbn [snd]. split; [|exact Hset].
    cbn [RedisAdapter.sizeCounter RedisAdapter.hashes].
    destruct isNew eqn:Hnew; [|exact Hsize].
    exfalso. revert Harm.
    destruct (String.eqb strategyType "simple"); [discriminate|].
    destruct (String.eqb strategyType "token-bucket");
      [apply tokenBucketArm_new|].
    destruct (String.eqb strategyType "sliding-window"); discriminate.
Qed.

Lemma track_mirrored (strategy : RedisAdapter.StrategyObject)
    (st : RedisAdapter.State) (now : num) (k : string) (eventData : EventData)
    (trackerConfig : TrackerConfig) :
  Invariant.mirrored st ->
  Invariant.mirrored
    (snd (RedisAdapter.track strategy st now k eventData trackerConfig)).
Proof.
  intros Hinv. unfold RedisAdapter.track. cbv zeta.
  destruct (if String.eqb (RedisAdapter.so_type strategy) "simple"
            then Some (tc_limit trackerConfig)
            else RedisAdapter.coalesce (RedisAdapter.so_limit strategy)
                   (RedisAdapter.so_bucketSize strategy)) as [p1|];
    [|exact Hinv].
  destruct (if String.eqb (RedisAdapter.so_type strategy) "simple"
            then Some (tc_deferInterval trackerConfig)
            else RedisAdapter.coalesce (RedisAdapter.so_windowSize strategy)
                   (RedisAdapter.so_refillRate strategy)) as [p2|];
    [|exact Hinv].
  match goal with
  | |- context [RedisAdapter.trackScript ?a ?b ?c ?d ?e ?f ?g ?h ?i ?j ?l ?m
                  ?n ?o ?p] =>
      pose proof (trackScript_mirrored a c d e f g h i j l m n o p Hinv)
        as Hnext;
      destruct (RedisAdapter.trackScript a b c d e f g h i j l m n o p)
        as [reply st']
  end.
  destruct reply; exact Hnext.
Qed.

Lemma delete_mirrored (st : RedisAdapter.State) (k : string) :
  Invariant.mirrored st -> Invariant.mirrored (RedisAdapter.delete st k).
Proof.
  intros [Hsize Hset]. unfold RedisAdapter.delete, RedisAdapter.exists_.
  cbv zeta.
  destruct (RedisAdapter.hashes st !! RedisAdapter._getRecordKey k) as [h|]
    eqn:Hex.
  - split.
    + cbn [RedisAdapter.sizeCounter RedisAdapter.hashes].
      rewrite map_size_delete, Hex, Hsize.
      assert (size (RedisAdapter.hashes st) <> 0%nat).
      { intros Hz. apply map_size_empty_inv in Hz. rewrite Hz in Hex.
        rewrite lookup_empty in Hex. discriminate. }
      lia.
    + intros k' s. cbn [RedisAdapter.deferredSet RedisAdapter.hashes].
      destruct (decide (k' = k)) as [-> | Hne].
      * rewrite !lookup_delete_eq. split; [discriminate|].
        intros (h' & Hh' & _). discriminate.
      * rewrite !lookup_delete_ne; [apply Hset | | congruence].
        intros H. apply Hne. symmetry. apply getRecordKey_inj. exact H.
  - split; [exact Hsize|].
    intros k' s. cbn [RedisAdapter.deferredSet RedisAdapter.hashes].
    destruct (decide (k' = k)) as [-> | Hne].
    + rewrite lookup_delete_eq, Hex. split; [discriminate|].
      intros (h' & Hh' & _). discriminate.
    + rewrite lookup_delete_ne by congruence. apply Hset.
Qed.

(** Deleting a list of keys from a map, one after the other. *)
Lemma fold_delete_lookup {A : Type} (keys : list string) :
  forall (m : gmap string A) (x : string),
    fold_left (fun members key => base.delete key members) keys m !! x
    = if bool_decide (x ∈ keys) then None else m !! x.
Proof.
  induction keys as [| a keys IH]; intros m x.
  - rewrite bool_decide_eq_false_2 by apply not_elem_of_nil. reflexivity.
  - cbn [fold_left]. rewrite IH.
    destruct (decide (x ∈ keys)) as [Hin | Hout].
    + rewrite !bool_decide_eq_true_2; [reflexivity | | exact Hin].
      apply elem_of_cons. right. exact Hin.
    + rewrite (bool_decide_eq_false_2 _ Hout).
      destruct (decide (x = a)) as [-> | Hne].
      * rewrite bool_decide_eq_true_2 by apply list_elem_of_here.
        apply lookup_delete_eq.
      * rewrite bool_decide_eq_false_2.
        -- apply lookup_delete_ne. congruence.
        -- intros [? | ?]%elem_of_cons; contradiction.
Qed.

Lemma fold_delete_map_size {A : Type} (keys : list string) :
  forall (m : gmap string A),
    NoDup keys ->
    (forall k, k ∈ keys -> is_Some (m !! k)) ->
    (size (fold_left (fun members key => base.delete key members) keys m)
     + List.length keys = size m)%nat.
Proof.
  induction keys as [| a keys IH]; intros m Hnodup Hpresent.
  - cbn. lia.
  - apply NoDup_cons in Hnodup as [Hfresh Hnodup]. cbn [fold_left List.length].
    destruct (Hpresent a (list_elem_of_here _ _)) as [x Ha].
    assert (Hsize : size m = S (size (base.delete a m))).
    { rewrite <- (insert_delete_id m a x Ha) at 1.
      apply map_size_insert_None. apply lookup_delete_eq. }
    rewrite Hsize, <- (IH (base.delete a m) Hnodup); [lia|].
    intros k Hk. rewrite lookup_delete_ne; [apply Hpresent; apply elem_of_cons; auto|].
    intros ->. contradiction.
Qed.

Lemma popOne_fold (keys : list string) :
  forall (results : list (string * option RedisAdapter.Hash))
         (st : RedisAdapter.State),
    NoDup keys ->
    fold_left (RedisAdapter.popOne RedisAdapter.KEY_PREFIX) keys (results, st)
    = ((results
        ++ List.map (fun key =>
                       (key, RedisAdapter.hashes st
                             !! RedisAdapter._getRecordKey key)) keys)%list,
       {| RedisAdapter.hashes :=
            fold_left (fun members key => base.delete key members)
              (List.map RedisAdapter._getRecordKey keys) (RedisAdapter.hashes st);
          RedisAdapter.expireAt :=
            fold_left (fun members key => base.delete key members)
              (List.map RedisAdapter._getRecordKey keys)
              (RedisAdapter.expireAt st);
          RedisAdapter.sizeCounter :=
            (RedisAdapter.sizeCounter st - Z.of_nat (List.length keys))%Z;
          RedisAdapter.deferredSet := RedisAdapter.deferredSet st |}).
Proof.
  induction keys as [| a keys IH]; intros results st Hnodup.
  - cbn [fold_left List.map List.length]. rewrite List.app_nil_r, Z.sub_0_r.
    destruct st. reflexivity.
  - apply NoDup_cons in Hnodup as [Hfresh Hnodup].
    cbn [fold_left List.map List.length]. unfold RedisAdapter.popOne at 2.
    rewrite (IH _ _ Hnodup).
    cbn [RedisAdapter.hashes RedisAdapter.expireAt RedisAdapter.sizeCounter
         RedisAdapter.deferredSet].
    rewrite <- List.app_assoc. cbn [List.app]. f_equal.
    + f_equal. f_equal. apply List.map_ext_in. intros key Hkey. f_equal.
      apply lookup_delete_ne. intros H.
      apply getRecordKey_inj in H. subst key. apply Hfresh.
      apply list_elem_of_In. exact Hkey.
    + f_equal. lia.
Qed.

Lemma dueMembers_spec (st : RedisAdapter.State) (timestamp : num) (k : string) :
  k ∈ RedisAdapter.dueMembers st timestamp
  <-> exists s, RedisAdapter.deferredSet st !! k = Some s
                /\ 0 <= s /\ s <= timestamp.
Proof.
  unfold RedisAdapter.dueMembers. rewrite list_elem_of_In, List.in_map_iff.
  split.
  - intros ([k' s] & <- & Hin). apply List.filter_In in Hin as [Hin Hrange].
    apply list_elem_of_In, elem_of_map_to_list in Hin.
    unfold RedisAdapter.inRange, Num.le in Hrange. cbn [snd fst] in *.
    apply andb_true_iff in Hrange as [Hlow Hhigh].
    exists s. rewrite <- !Qle_bool_iff. auto.
  - intros (s & Hs & Hlow & Hhigh). exists (k, s). split; [reflexivity|].
    apply List.filter_In. split.
    + apply list_elem_of_In, elem_of_map_to_list. exact Hs.
    + unfold RedisAdapter.inRange, Num.le. cbn [snd].
      apply andb_true_iff. rewrite !Qle_bool_iff. auto.
Qed.

Lemma NoDup_filter_fst {A B : Type} (f : A * B -> bool) (l : list (A * B)) :
  NoDup (List.map fst l) -> NoDup (List.map fst (List.filter f l)).
Proof.
  induction l as [| x l IH]; intros Hnodup; [constructor|].
  cbn [List.map] in Hnodup. apply NoDup_cons in Hnodup as [Hfresh Hnodup].
  cbn [List.filter]. destruct (f x); [|apply IH; exact Hnodup].
  cbn [List.map]. apply NoDup_cons. split; [|apply IH; exact Hnodup].
  intros Hin. apply Hfresh. apply list_elem_of_In in Hin.
  apply List.in_map_iff in Hin as (y & Hy & Hin).
  apply List.filter_In in Hin as [Hin _].
  apply list_elem_of_In, List.in_map_iff. exists y. auto.
Qed.

Lemma dueMembers_NoDup (st : RedisAdapter.State) (timestamp : num) :
  NoDup (RedisAdapter.dueMembers st timestamp).
Proof.
  unfold RedisAdapter.dueMembers. apply NoDup_filter_fst.
  apply (NoDup_fst_map_to_list (RedisAdapter.deferredSet st)).
Qed.

Lemma NoDup_recordKeys (keys : list string) :
  NoDup keys -> NoDup (List.map RedisAdapter._getRecordKey keys).
Proof.
  induction keys as [| a keys IH]; intros Hnodup; [constructor|].
  apply NoDup_cons in Hnodup as [Hfresh Hnodup]. cbn [List.map].
  apply NoDup_cons. split; [|apply IH; exact Hnodup].
  intros Hin. apply Hfresh. apply list_elem_of_In, List.in_map_iff in Hin.
  destruct Hin as (b & Hb & Hin). apply getRecordKey_inj in Hb. subst b.
  apply list_elem_of_In. exact Hin.
Qed.

Lemma elem_of_recordKeys (keys : list string) (k : string) :
  RedisAdapter._getRecordKey k ∈ List.map RedisAdapter._getRecordKey keys
  <-> k ∈ keys.
Proof.
  rewrite !list_elem_of_In, List.in_map_iff. split.
  - intros (b & Hb & Hin). apply getRecordKey_inj in Hb. subst b. exact Hin.
  - intros Hin. exists k. auto.
Qed.

(** The script's result and final keyspace, in closed form. *)
Lemma popDueDeferredScript_spec (st : RedisAdapter.State) (timestamp : num) :
  RedisAdapter.popDueDeferredScript st RedisAdapter.KEY_PREFIX timestamp
  = (List.map (fun key =>
                 (key, RedisAdapter.hashes st !! RedisAdapter._getRecordKey key))
       (RedisAdapter.dueMembers st timestamp),
     match RedisAdapter.dueMembers st timestamp with
     | [] => st
     | _ =>
         {| RedisAdapter.hashes :=
              fold_left (fun members key => base.delete key members)
                (List.map RedisAdapter._getRecordKey
                   (RedisAdapter.dueMembers st timestamp))
                (RedisAdapter.hashes st);
            RedisAdapter.expireAt :=
              fold_left (fun members key => base.delete key members)
                (List.map RedisAdapter._getRecordKey
                   (RedisAdapter.dueMembers st timestamp))
                (RedisAdapter.expireAt st);
            RedisAdapter.sizeCounter :=
              (RedisAdapter.sizeCounter st
               - Z.of_nat (List.length (RedisAdapter.dueMembers st timestamp)))%Z;
            RedisAdapter.deferredSet :=
              fold_left (fun members key => base.delete key members)
                (RedisAdapter.dueMembers st timestamp)
                (RedisAdapter.deferredSet st) |}
     end).
Proof.
  unfold RedisAdapter.popDueDeferredScript. cbv zeta.
  pose proof (dueMembers_NoDup st timestamp) as Hnodup.
  destruct (RedisAdapter.dueMembers st timestamp) as [| a keys] eqn:Hdue;
    [reflexivity|].
  rewrite (popOne_fold (a :: keys) _ _ Hnodup). reflexivity.
Qed.

Lemma popDueDeferredScript_lookups (st : RedisAdapter.State) (timestamp : num)
    (k : string) :
  RedisAdapter.hashes
    (snd (RedisAdapter.popDueDeferredScript st RedisAdapter.KEY_PREFIX
            timestamp)) !! RedisAdapter._getRecordKey k
  = (if bool_decide (k ∈ RedisAdapter.dueMembers st timestamp) then None
     else RedisAdapter.hashes st !! RedisAdapter._getRecordKey k)
  /\ RedisAdapter.deferredSet
       (snd (RedisAdapter.popDueDeferredScript st RedisAdapter.KEY_PREFIX
               timestamp)) !! k
     = (if bool_decide (k ∈ RedisAdapter.dueMembers st timestamp) then None
        else RedisAdapter.deferredSet st !! k).
Proof.
  rewrite popDueDeferredScript_spec. cbn [snd].
  destruct (RedisAdapter.dueMembers st timestamp) as [| a keys] eqn:Hdue.
  - rewrite bool_decide_eq_false_2 by apply not_elem_of_nil. split; reflexivity.
  - cbn [RedisAdapter.hashes RedisAdapter.deferredSet].
    rewrite !fold_delete_lookup. split; [|reflexivity].
    destruct (decide (k ∈ a :: keys)) as [Hin | Hout].
    + rewrite !bool_decide_eq_true_2; [reflexivity | exact Hin |].
      apply elem_of_recordKeys. exact Hin.
    + rewrite !bool_decide_eq_false_2; [reflexivity | exact Hout |].
      intros Hin. apply Hout. apply elem_of_recordKeys. exact Hin.
Qed.

Lemma popDueDeferredScript_mirrored (st : RedisAdapter.State) (timestamp : num) :
  Invariant.mirrored st ->
  Invariant.mirrored
    (snd (RedisAdapter.popDueDeferredScript st RedisAdapter.KEY_PREFIX
            timestamp)).
Proof.
  intros Hinv. split.
  - destruct Hinv as [Hsize Hset]. rewrite popDueDeferredScript_spec. cbn [snd].
    destruct (RedisAdapter.dueMembers st timestamp) as [| a keys] eqn:Hdue;
      [exact Hsize|].
    cbn [RedisAdapter.sizeCounter RedisAdapter.hashes].
    pose proof (fold_delete_map_size
                  (List.map RedisAdapter._getRecordKey (a :: keys))
                  (RedisAdapter.hashes st)) as Hcount.
    rewrite List.length_map in Hcount. rewrite Hsize, <- Hcount; [lia | |].
    + apply NoDup_recordKeys. rewrite <- Hdue. apply dueMembers_NoDup.
    + intros rk Hrk. apply list_elem_of_In, List.in_map_iff in Hrk.
      destruct Hrk as (k & <- & Hk). apply list_elem_of_In in Hk.
      rewrite <- Hdue in Hk. apply dueMembers_spec in Hk as (s & Hs & _).
      apply Hset in Hs as (h & Hh & _). exists h. exact Hh.
  - intros k s.
    destruct (popDueDeferredScript_lookups st timestamp k) as [-> ->].
    destruct (bool_decide (k ∈ RedisAdapter.dueMembers st timestamp)).
    + split; [discriminate|]. intros (h & Hh & _). discriminate.
    + apply Hinv.
Qed.

Lemma redis_perform_mirrored (st : RedisAdapter.State) (c : RedisSession.Call) :
  Invariant.mirrored st -> Invariant.mirrored (RedisSession.perform st c).
Proof.
  intros Hinv. destruct c; cbn [RedisSession.perform].
  - apply track_mirrored. exact Hinv.
  - unfold RedisAdapter.popDueDeferred.
    pose proof (popDueDeferredScript_mirrored st timestamp Hinv) as Hnext.
    destruct (RedisAdapter.popDueDeferredScript st RedisAdapter.KEY_PREFIX
                timestamp) as [raw st'].
    exact Hnext.
  - apply delete_mirrored. exact Hinv.
Qed.

Lemma redis_session_mirrored (calls : list RedisSession.Call) :
  forall st, Invariant.mirrored st ->
             Invariant.mirrored (fold_left RedisSession.perform calls st).
Proof.
  induction calls as [| c calls IH]; intros st Hinv; [exact Hinv|].
  cbn [fold_left]. apply IH. apply redis_perform_mirrored. exact Hinv.
Qed.

(** X20.  The bookkeeping of the Redis adapter stays in step with the
    record hashes across [track], [popDueDeferred] and [delete], from an
    empty database and as long as Redis has not expired a key on its own:
    the size counter equals the number of record hashes, and a key is a
    member of the deferred set, scored with its [scheduledSendAt], exactly
    when its hash is flagged deferred. *)
Theorem redis_bookkeeping_mirrors_the_hashes (calls : list RedisSession.Call) :
  RedisAdapter.size (RedisSession.session calls)
  = Z.of_nat (size (RedisAdapter.hashes (RedisSession.session calls)))
  /\ forall (k : string) (s : num),
       RedisAdapter.deferredSet (RedisSession.session calls) !! k = Some s
       <-> exists h,
             RedisAdapter.hashes (RedisSession.session calls)
               !! RedisAdapter._getRecordKey k = Some h
             /\ RedisAdapter.h_deferred h = true
             /\ RedisAdapter.h_scheduledSendAt h = s.
Proof.
  apply (redis_session_mirrored calls RedisAdapter.empty). apply mirrored_empty.
Qed.

(** ** Harvesting and key slots on Redis *)

Lemma omap_map_pair {A B E : Type} (f : A -> option B) (g : B -> option E)
    (l : list A) :
  omap (fun entry : A * option B => snd entry ≫= g)
       (List.map (fun a => (a, f a)) l)
  = omap (fun a => f a ≫= g) l.
Proof.
  induction l as [| a l IH]; [reflexivity|].
  cbn [List.map omap list_omap snd]. rewrite <- IH. reflexivity.
Qed.

Lemma dueMembers_after_pop (st : RedisAdapter.State) (t t' : num) :
  t' <= t ->
  RedisAdapter.dueMembers
    (snd (RedisAdapter.popDueDeferredScript st RedisAdapter.KEY_PREFIX t)) t'
  = [].
Proof.
  intros Hle.
  destruct (RedisAdapter.dueMembers
              (snd (RedisAdapter.popDueDeferredScript st
                      RedisAdapter.KEY_PREFIX t)) t') as [| k rest] eqn:Hdue;
    [reflexivity|].
  exfalso.
  assert (Hk : k ∈ RedisAdapter.dueMembers
                     (snd (RedisAdapter.popDueDeferredScript st
                             RedisAdapter.KEY_PREFIX t)) t')
    by (rewrite Hdue; apply list_elem_of_here).
  apply dueMembers_spec in Hk as (s & Hs & Hlow & Hhigh).
  pose proof (proj2 (popDueDeferredScript_lookups st t k)) as Hlookup.
  destruct (decide (k ∈ RedisAdapter.dueMembers st t)) as [Hin | Hout].
  - rewrite bool_decide_eq_true_2 in Hlookup by exact Hin.
    pose proof (eq_trans (eq_sym Hlookup) Hs) as Hnone. discriminate.
  - rewrite bool_decide_eq_false_2 in Hlookup by exact Hout.
    pose proof (eq_trans (eq_sym Hlookup) Hs) as Hkept.
    clear Hs. rename Hkept into Hs.
    apply Hout. apply dueMembers_spec. exists s.
    split; [exact Hs|]. split; [exact Hlow|].
    apply Qle_trans with (y := t'); assumption.
Qed.

(** X21.  [popDueDeferred] on Redis.  It returns what [findDueDeferred]
    shows at the same timestamp: the records of the deferred-set members
    scored between 0 and the timestamp.  Afterwards the hash of each such
    member is gone, every other key reads as before, the size counter has
    dropped by the number of members taken, and nothing is due at that
    timestamp or an earlier one. *)
Theorem redis_popDueDeferred_takes_the_due_members (st : RedisAdapter.State)
    (t t' : num) :
  t' <= t ->
  fst (RedisAdapter.popDueDeferred st t) = RedisAdapter.findDueDeferred st t
  /\ RedisAdapter.findDueDeferred (snd (RedisAdapter.popDueDeferred st t)) t'
     = []
  /\ (forall k,
        RedisAdapter.get (snd (RedisAdapter.popDueDeferred st t)) k
        = if bool_decide (k ∈ RedisAdapter.dueMembers st t) then None
          else RedisAdapter.get st k)
  /\ RedisAdapter.size (snd (RedisAdapter.popDueDeferred st t))
     = (RedisAdapter.size st
        - Z.of_nat (List.length (RedisAdapter.dueMembers st t)))%Z.
Proof.
  intros Hle. unfold RedisAdapter.popDueDeferred.
  pose proof (popDueDeferredScript_spec st t) as Hspec.
  pose proof (dueMembers_after_pop st t t' Hle) as Hnone.
  pose proof (fun k => proj1 (popDueDeferredScript_lookups st t k)) as Hlookup.
  destruct (RedisAdapter.popDueDeferredScript st RedisAdapter.KEY_PREFIX t)
    as [raw st'].
  injection Hspec as Hraw Hst. cbn [fst snd] in *.
  split; [| split; [| split]].
  - rewrite Hraw. apply omap_map_pair.
  - unfold RedisAdapter.findDueDeferred. rewrite Hnone. reflexivity.
  - intros k. unfold RedisAdapter.get. rewrite Hlookup.
    destruct (bool_decide (k ∈ RedisAdapter.dueMembers st t)); reflexivity.
  - unfold RedisAdapter.size. rewrite Hst.
    destruct (RedisAdapter.dueMembers st t); cbn; lia.
Qed.

Lemma redis_popDueDeferred_takes_the_due_members_witness :
  1150 <= 1150
  /\ RedisAdapter.size
       (snd (RedisAdapter.popDueDeferred
               (Example.redisStore
                  (Example.activeHash "" true RedisAdapter.emptyData
                     Example.simpleBlob))
               1150))
     = 0%Z.
Proof.
  assert (H : 1150 <= 1150) by apply Qle_refl.
  split; [exact H|].
  rewrite (proj2 (proj2 (proj2 (redis_popDueDeferred_takes_the_due_members
                                  (Example.redisStore
                                     (Example.activeHash "" true
                                        RedisAdapter.emptyData
                                        Example.simpleBlob))
                                  1150 1150 H)))).
  vm_compute. reflexivity.
Defined.

(** X22.  The [acquireKeySlot] script and the key limit of the [track]
    script.  With a positive [maxKeys], [acquireKeySlot] answers [false]
    exactly when the [track] script refuses the same key with
    [key_limit_reached].  With [maxKeys = 0] and a size counter that is not
    negative, [acquireKeySlot] answers [false] for every key without a
    hash, while the [track] script never refuses. *)
Theorem redis_acquireKeySlot_agrees_with_track_refusal
    (st : RedisAdapter.State) (k category id : string) (details : JsValue)
    (detailsHash : string) (now expireTime maxKeys : num)
    (strategyType : string) (p1 p2 p3 : num)
    (initialConfig : RedisAdapter.ConfigBlob) :
  (0 < maxKeys ->
   (RedisAdapter.acquireKeySlot st k maxKeys = false
    <-> fst (RedisAdapter.trackScript st (RedisAdapter._getRecordKey k) k
               category id details detailsHash now expireTime maxKeys
               strategyType p1 p2 p3 initialConfig)
        = RedisAdapter.ReplyKeyLimit))
  /\ (maxKeys == 0 ->
      (0 <= RedisAdapter.sizeCounter st)%Z ->
      RedisAdapter.acquireKeySlot st k maxKeys
      = RedisAdapter.exists_ st (RedisAdapter._getRecordKey k)
      /\ fst (RedisAdapter.trackScript st (RedisAdapter._getRecordKey k) k
                category id details detailsHash now expireTime maxKeys
                strategyType p1 p2 p3 initialConfig)
         <> RedisAdapter.ReplyKeyLimit).
Proof.
  unfold RedisAdapter.acquireKeySlot, RedisAdapter.acquireKeySlotScript,
         RedisAdapter.exists_.
  split.
  - intros Hpos.
    destruct (RedisAdapter.hashes st !! RedisAdapter._getRecordKey k) as [h|]
      eqn:Hex.
    + split; [discriminate|]. intros Hrefused. exfalso.
      exact (trackScript_stored_not_refused st _ h k category id details
               detailsHash now expireTime maxKeys strategyType p1 p2 p3
               initialConfig Hex Hrefused).
    + destruct (Num.ge (inject_Z (RedisAdapter.sizeCounter st)) maxKeys)
        eqn:Hfull.
      * split; [|reflexivity]. intros _.
        rewrite (trackScript_key_limit st _ k category id details detailsHash
                   now expireTime maxKeys strategyType p1 p2 p3 initialConfig
                   Hex Hpos); [reflexivity|].
        apply ge_true_iff. exact Hfull.
      * split; [discriminate|]. intros Hrefused. exfalso. revert Hrefused.
        unfold RedisAdapter.trackScript, RedisAdapter.exists_.
        rewrite Hex, Hfull, andb_false_r. cbn [andb].
        match goal with
        | |- context [match ?arm with Some _ => _ | None => _ end] =>
            destruct arm
        end; cbn [fst]; discriminate.
  - intros Hzero Hcount. split.
    + destruct (RedisAdapter.hashes st !! RedisAdapter._getRecordKey k);
        [reflexivity|].
      assert (Hfull : Num.ge (inject_Z (RedisAdapter.sizeCounter st)) maxKeys
                      = true).
      { apply ge_true_iff. rewrite Hzero. change 0 with (inject_Z 0).
        rewrite <- Zle_Qle. exact Hcount. }
      rewrite Hfull. reflexivity.
    + unfold RedisAdapter.trackScript.
      assert (Hgt : Num.gt maxKeys 0 = false).
      { apply gt_false_iff. rewrite Hzero. apply Qle_refl. }
      rewrite Hgt, andb_false_r. cbn [andb].
      match goal with
      | |- context [match ?arm with Some _ => _ | None => _ end] =>
          destruct arm
      end; cbn [fst]; discriminate.
Qed.

Lemma redis_acquireKeySlot_agrees_with_track_refusal_witness :
  0 < 1
  /\ RedisAdapter.acquireKeySlot
       (Example.redisStore
          (Example.activeHash "" false RedisAdapter.emptyData
             Example.simpleBlob))
       "auth:logout" 1 = false
  /\ fst (RedisAdapter.trackScript
            (Example.redisStore
               (Example.activeHash "" false RedisAdapter.emptyData
                  Example.simpleBlob))
            (RedisAdapter._getRecordKey "auth:logout") "auth:logout" "auth"
            "logout" (JsObject JsNoProps) "" 1000 200 1 "simple" 2 100 0
            Example.simpleBlob)
     = RedisAdapter.ReplyKeyLimit.
Proof.
  assert (Hpos : 0 < 1) by reflexivity.
  assert (Hno : RedisAdapter.acquireKeySlot
                  (Example.redisStore
                     (Example.activeHash "" false RedisAdapter.emptyData
                        Example.simpleBlob))
                  "auth:logout" 1 = false) by (vm_compute; reflexivity).
  split; [exact Hpos|]. split; [exact Hno|].
  exact (proj1 (proj1 (redis_acquireKeySlot_agrees_with_track_refusal
                         (Example.redisStore
                            (Example.activeHash "" false RedisAdapter.emptyData
                               Example.simpleBlob))
                         "auth:logout" "auth" "logout" (JsObject JsNoProps) ""
                         1000 200 1 "simple" 2 100 0 Example.simpleBlob)
                  Hpos) Hno).
Defined.

(** ** The simple counter on both adapters *)

Lemma gt_proper (a a' b b' : num) :
  a == a' -> b == b' -> Num.gt a b = Num.gt a' b'.
Proof.
  intros Ha Hb. unfold Num.gt. f_equal.
  destruct (Qle_bool a b) eqn:H1, (Qle_bool a' b') eqn:H2; try reflexivity.
  - apply Qle_bool_iff in H1. rewrite Ha, Hb in H1.
    apply Qle_bool_iff in H1. congruence.
  - apply Qle_bool_iff in H2. rewrite <- Ha, <- Hb in H2.
    apply Qle_bool_iff in H2. congruence.
Qed.

Lemma parseInt_whole (c : num) (n : nat) :
  c == Num.of_nat n -> RedisAdapter.parseInt c == c.
Proof.
  intros Hc. unfold RedisAdapter.parseInt, Num.trunc.
  assert (Hpos : Qle_bool 0 c = true).
  { apply Qle_bool_iff. rewrite Hc. unfold Num.of_nat.
    change 0 with (inject_Z 0). rewrite <- Zle_Qle. lia. }
  rewrite Hpos.
  pose proof (Qfloor_comp c (Num.of_nat n) Hc) as Hfloor.
  unfold Num.of_nat in Hfloor. rewrite Qfloor_Z in Hfloor. rewrite Hfloor.
  symmetry. exact Hc.
Qed.

Section SimpleOnBothAdapters.
Variable trackerConfig : TrackerConfig.

(** The simple counter and the simple arm of the script decide alike on a
    new record... *)
Lemma simple_decides_alike_new (now : num) (eventData : StrategyEvent) :
  let sr := SimpleCounterStrategy.track trackerConfig now None eventData in
  let a := RedisAdapter.simpleArm now 0 false 0 (tc_limit trackerConfig)
             (tc_deferInterval trackerConfig) in
  fst sr = RedisAdapter.a_outcome a
  /\ count (snd sr) == RedisAdapter.a_count a
  /\ deferred (snd sr) = RedisAdapter.a_deferred a
  /\ expiresAt (snd sr) == now + tc_expireTime trackerConfig
  /\ detailsHash (snd sr) = ev_detailsHash (se_data eventData)
  /\ SimpleCounterStrategy.limit (config (snd sr)) == tc_limit trackerConfig
  /\ count (snd sr) == Num.of_nat 1.
Proof.
  cbv zeta. unfold SimpleCounterStrategy.track, SimpleCounterStrategy.checkLimit,
    RedisAdapter.simpleArm.
  cbn [count config _createBaseRecord SimpleCounterStrategy.limit].
  change (Num.add 0 1) with INITIAL_EVENT_COUNT.
  destruct (Num.gt INITIAL_EVENT_COUNT (tc_limit trackerConfig)); cbn;
    rewrite add_spec, orZero_spec; repeat split; reflexivity.
Qed.

(** ... and on a live one. *)
Lemma simple_decides_alike_live (now : num) (eventData : StrategyEvent)
    (r : EventRecord SimpleCounterStrategy.Config unit)
    (h : RedisAdapter.Hash) :
  Agreement.alike trackerConfig r h ->
  let sr := SimpleCounterStrategy.track trackerConfig now (Some r) eventData in
  let a := RedisAdapter.simpleArm now (RedisAdapter.h_count h)
             (RedisAdapter.h_deferred h) (RedisAdapter.h_scheduledSendAt h)
             (tc_limit trackerConfig) (tc_deferInterval trackerConfig) in
  fst sr = RedisAdapter.a_outcome a
  /\ count (snd sr) == RedisAdapter.a_count a
  /\ deferred (snd sr) = RedisAdapter.a_deferred a
  /\ expiresAt (snd sr) == now + tc_expireTime trackerConfig
  /\ detailsHash (snd sr) = detailsHash r
  /\ SimpleCounterStrategy.limit (config (snd sr)) == tc_limit trackerConfig
  /\ exists n : nat, count (snd sr) == Num.of_nat n.
Proof.
  intros ((n & Hn) & Hc & Hd & He & Hdh & Hl). cbv zeta.
  unfold SimpleCounterStrategy.track, SimpleCounterStrategy.checkLimit,
    RedisAdapter.simpleArm.
  rewrite <- Hd. destruct (deferred r) eqn:Hdr.
  - cbn. rewrite add_spec, orZero_spec.
    repeat split; try reflexivity; try assumption. exists n. exact Hn.
  - cbn [count config with_count with_lastEventTime with_expiresAt].
    rewrite (gt_proper (Num.add (count r) 1)
               (Num.add (RedisAdapter.h_count h) 1)
               (SimpleCounterStrategy.limit (config r))
               (tc_limit trackerConfig));
      [| rewrite !add_spec, Hc; reflexivity | exact Hl].
    assert (Hnext : Num.add (count r) 1 == Num.of_nat (S n))
      by (rewrite add_spec, Hn, of_nat_S; reflexivity).
    assert (Hsame : Num.add (count r) 1 == Num.add (RedisAdapter.h_count h) 1)
      by (rewrite !add_spec, Hc; reflexivity).
    destruct (Num.gt (Num.add (RedisAdapter.h_count h) 1)
                (tc_limit trackerConfig)); cbn;
      repeat split; try reflexivity; try assumption;
      try (rewrite add_spec, orZero_spec; reflexivity);
      exists (S n); exact Hnext.
Qed.

Lemma inStep_store
    (stM : InMemoryAdapter.State SimpleCounterStrategy.Config unit)
    (stR : RedisAdapter.State) (k : string)
    (r' : EventRecord SimpleCounterStrategy.Config unit)
    (h' : RedisAdapter.Hash) (ea ds : gmap string num) :
  Agreement.inStep trackerConfig stM stR ->
  Agreement.alike trackerConfig r' h' ->
  Agreement.inStep trackerConfig (InMemoryAdapter.set stM k r')
    {| RedisAdapter.hashes :=
         <[RedisAdapter._getRecordKey k := h']> (RedisAdapter.hashes stR);
       RedisAdapter.expireAt := ea;
       RedisAdapter.sizeCounter :=
         if RedisAdapter.exists_ stR (RedisAdapter._getRecordKey k)
         then RedisAdapter.sizeCounter stR
         else (RedisAdapter.sizeCounter stR + 1)%Z;
       RedisAdapter.deferredSet := ds |}.
Proof.
  intros [Hsize Hkeys] Halike. split.
  - cbn [RedisAdapter.sizeCounter]. unfold InMemoryAdapter.size.
    cbn [InMemoryAdapter.set InMemoryAdapter.events].
    rewrite map_size_insert. unfold RedisAdapter.exists_.
    specialize (Hkeys k). unfold InMemoryAdapter.size in Hsize.
    destruct (InMemoryAdapter.events stM !! k),
             (RedisAdapter.hashes stR !! RedisAdapter._getRecordKey k);
      try contradiction; cbn [Datatypes.id]; lia.
  - intros k'. cbn [RedisAdapter.hashes InMemoryAdapter.set
                    InMemoryAdapter.events].
    destruct (decide (k' = k)) as [-> | Hne].
    + rewrite !lookup_insert_eq. exact Halike.
    + rewrite !lookup_insert_ne; [apply Hkeys | | congruence].
      intros H. apply Hne. symmetry. apply getRecordKey_inj. exact H.
Qed.

Lemma both_adapters_step
    (stM : InMemoryAdapter.State SimpleCounterStrategy.Config unit)
    (stR : RedisAdapter.State) (now : num) (k : string)
    (eventData : EventData) :
  Agreement.inStep trackerConfig stM stR ->
  Agreement.sameAnswer
    (fst (InMemoryAdapter.track SimpleCounterStrategy.strategy stM now now k
            eventData trackerConfig))
    (fst (RedisAdapter.track RedisAdapter.simpleCounter stR now k eventData
            trackerConfig))
  /\ Agreement.inStep trackerConfig
       (snd (InMemoryAdapter.track SimpleCounterStrategy.strategy stM now now
               k eventData trackerConfig))
       (snd (RedisAdapter.track RedisAdapter.simpleCounter stR now k eventData
               trackerConfig)).
Proof.
  intros Hstep. pose proof Hstep as [Hsize Hkeys]. specialize (Hkeys k).
  unfold RedisAdapter.track, RedisAdapter.simpleCounter.
  cbn [RedisAdapter.so_type]. change (String.eqb "simple" "simple") with true.
  cbv iota zeta. unfold RedisAdapter.trackScript.
  change (String.eqb "simple" "simple") with true. cbv iota zeta.
  unfold InMemoryAdapter.track, InMemoryAdapter.priorRecord,
    InMemoryAdapter.has, RedisAdapter.exists_.
  cbn [track SimpleCounterStrategy.strategy].
  destruct (InMemoryAdapter.events stM !! k) as [r|] eqn:Hr,
           (RedisAdapter.hashes stR !! RedisAdapter._getRecordKey k) as [h|]
             eqn:Hh; try contradiction.
  - (* a stored identity *)
    pose proof Hkeys as (_ & _ & _ & He & Hdh & _).
    rewrite (gt_proper now now (expiresAt r) (RedisAdapter.h_expiresAt h)
               (Qeq_refl now) He), Hdh.
    cbn [negb orb]. rewrite !andb_false_r. cbn [orb andb negb].
    destruct (Num.gt now (RedisAdapter.h_expiresAt h)
              || negb (String.eqb (RedisAdapter.h_detailsHash h)
                         (ev_detailsHash eventData))) eqn:Hstale.
    + (* reinitialized *)
      cbn [orb andb negb].
      destruct (simple_decides_alike_new now
                  {| se_compositeKey := k; se_data := eventData |})
        as (Ho & Hc & Hd & Hexp & Hhash & Hl & Hone).
      cbv zeta in Ho, Hc, Hd, Hexp, Hhash, Hl, Hone.
      destruct (SimpleCounterStrategy.track trackerConfig now None
                  {| se_compositeKey := k; se_data := eventData |})
        as [o u].
      cbn [fst snd] in *. split.
      * cbn [Agreement.sameAnswer outcome reason record count].
        split; [exact Ho|]. split; [reflexivity|].
        rewrite (parseInt_whole _ 1%nat); [exact Hc|].
        rewrite <- Hc. exact Hone.
      * pose proof (inStep_store stM stR k u) as Hstore.
        unfold RedisAdapter.exists_ in Hstore. rewrite Hh in Hstore.
        apply Hstore; [exact Hstep|].
        unfold Agreement.alike. cbn.
        split; [exists 1%nat; exact Hone|]. split; [exact Hc|].
        split; [exact Hd|]. split; [rewrite add_spec; exact Hexp|].
        split; [exact Hhash | exact Hl].
    + (* live *)
      apply orb_false_iff in Hstale as [_ Hsame].
      apply negb_false_iff, String.eqb_eq in Hsame.
      cbn [orb andb negb].
      destruct (simple_decides_alike_live now
                  {| se_compositeKey := k; se_data := eventData |} r h Hkeys)
        as (Ho & Hc & Hd & Hexp & Hhash & Hl & n & Hn).
      cbv zeta in Ho, Hc, Hd, Hexp, Hhash, Hl, Hn.
      destruct (SimpleCounterStrategy.track trackerConfig now (Some r)
                  {| se_compositeKey := k; se_data := eventData |})
        as [o u].
      cbn [fst snd] in *. split.
      * cbn [Agreement.sameAnswer outcome reason record count].
        split; [exact Ho|]. split; [reflexivity|].
        rewrite (parseInt_whole _ n); [exact Hc|].
        rewrite <- Hc. exact Hn.
      * pose proof (inStep_store stM stR k u) as Hstore.
        unfold RedisAdapter.exists_ in Hstore. rewrite Hh in Hstore.
        apply Hstore; [exact Hstep|].
        unfold Agreement.alike. cbn.
        split; [exists n; exact Hn|]. split; [exact Hc|].
        split; [exact Hd|]. split; [rewrite add_spec; exact Hexp|].
        split; [congruence | exact Hl].
  - (* a new identity *)
    cbn [orb andb negb]. rewrite !andb_true_r.
    rewrite Hsize. change (inject_Z (Z.of_nat (InMemoryAdapter.size stM)))
      with (Num.of_nat (InMemoryAdapter.size stM)).
    destruct (Num.gt (tc_maxKeys trackerConfig) 0
              && Num.ge (Num.of_nat (InMemoryAdapter.size stM))
                   (tc_maxKeys trackerConfig)) eqn:Hfull.
    + cbn [fst snd Agreement.sameAnswer outcome reason record].
      split; [repeat split | exact Hstep].
    + destruct (simple_decides_alike_new now
                  {| se_compositeKey := k; se_data := eventData |})
        as (Ho & Hc & Hd & Hexp & Hhash & Hl & Hone).
      cbv zeta in Ho, Hc, Hd, Hexp, Hhash, Hl, Hone.
      destruct (SimpleCounterStrategy.track trackerConfig now None
                  {| se_compositeKey := k; se_data := eventData |})
        as [o u].
      cbn [fst snd] in *. split.
      * cbn [Agreement.sameAnswer outcome reason record count].
        split; [exact Ho|]. split; [reflexivity|].
        rewrite (parseInt_whole _ 1%nat); [exact Hc|].
        rewrite <- Hc. exact Hone.
      * pose proof (inStep_store stM stR k u) as Hstore.
        unfold RedisAdapter.exists_ in Hstore. rewrite Hh, Hsize in Hstore.
        apply Hstore; [exact Hstep|].
        unfold Agreement.alike. cbn.
        split; [exists 1%nat; exact Hone|]. split; [exact Hc|].
        split; [exact Hd|]. split; [rewrite add_spec; exact Hexp|].
        split; [exact Hhash | exact Hl].
Qed.
End SimpleOnBothAdapters.

Lemma inStep_empty (trackerConfig : TrackerConfig) :
  Agreement.inStep trackerConfig InMemoryAdapter.empty RedisAdapter.empty.
Proof.
  split; [reflexivity|]. intros k. cbn. rewrite !lookup_empty. exact I.
Qed.

Lemma answers_in_step (trackerConfig : TrackerConfig)
    (events : list Agreement.Event) :
  forall stM stR,
    Agreement.inStep trackerConfig stM stR ->
    Forall2 Agreement.sameAnswer
      (Agreement.inMemoryAnswers trackerConfig stM events)
      (Agreement.redisAnswers trackerConfig stR events).
Proof.
  induction events as [| e events IH]; intros stM stR Hstep; [constructor|].
  cbn [Agreement.inMemoryAnswers Agreement.redisAnswers].
  destruct (both_adapters_step trackerConfig stM stR (Agreement.at_ e)
              (Agreement.eventKey e) (Agreement.eventData e) Hstep)
    as [Hanswer Hnext].
  destruct (InMemoryAdapter.track _ stM _ _ _ _ _) as [resultM stM'].
  destruct (RedisAdapter.track _ stR _ _ _ _) as [resultR stR'].
  constructor; [exact Hanswer | apply IH; exact Hnext].
Qed.

(** X23.  The simple counter answers alike on both adapters.  For any
    tracker configuration and any sequence of events on any identities,
    tracked from an empty store with the same clock readings (and no key
    expired by Redis on its own), [InMemoryAdapter.track] with a
    [SimpleCounterStrategy] and [RedisAdapter.track] with its script give,
    event by event, the same outcome, the same reason
    ([key_limit_reached] or none) and a returned record with the same
    count; the Redis call never fails. *)
Theorem simple_counter_answers_alike_on_both_adapters
    (trackerConfig : TrackerConfig) (events : list Agreement.Event) :
  Forall2 Agreement.sameAnswer
    (Agreement.inMemoryAnswers trackerConfig InMemoryAdapter.empty events)
    (Agreement.redisAnswers trackerConfig RedisAdapter.empty events).
Proof. apply answers_in_step. apply inStep_empty. Qed.

(** ** What [track] returns and what it stores, on Redis *)

(** X24.  Reading back after [track] on Redis, simple strategy.  When
    [track] resolves with a record for a non-empty key, [get] on the same
    key finds the hash it wrote, with the same key, category, id,
    fingerprint, count, expiry, schedule, config and strategy state as the
    returned record.  The details differ: the returned record carries the
    caller's value, the hash what JSON keeps of it, which is [{}] for
    every falsy value ([null], [0], [false], the empty string, [NaN]) and
    the same value only when it is truthy and JSON represents it exactly.
    The deferred flag agrees unless the event was ignored: then the stored
    hash stays deferred while the returned record says [deferred: false],
    since the flag of the returned record is [outcome === 'deferred']. *)
Theorem redis_get_after_track (st st' : RedisAdapter.State) (now : num)
    (k : string) (eventData : EventData) (trackerConfig : TrackerConfig)
    (result : TrackResult RedisAdapter.ConfigBlob RedisAdapter.ScriptData)
    (returned : EventRecord RedisAdapter.ConfigBlob RedisAdapter.ScriptData) :
  k <> "" ->
  RedisAdapter.track RedisAdapter.simpleCounter st now k eventData trackerConfig
  = (inr result, st') ->
  record result = Some returned ->
  exists stored,
    RedisAdapter.get st' k = Some stored
    /\ (key stored = key returned /\ category stored = category returned
        /\ id stored = id returned
        /\ detailsHash stored = detailsHash returned)
    /\ (truthy (details returned) = false ->
        details stored = JsObject JsNoProps)
    /\ (truthy (details returned) = true ->
        RedisAdapter.jsonCopy (details returned) = Some (details returned) ->
        details stored = details returned)
    /\ count stored = count returned
    /\ expiresAt stored = expiresAt returned
    /\ scheduledSendAt stored = scheduledSendAt returned
    /\ config stored = config returned
    /\ strategyData stored = Some (strategyData returned)
    /\ (outcome result <> Ignored -> deferred stored = deferred returned)
    /\ (outcome result = Ignored ->
        deferred stored = true /\ deferred returned = false).
Proof.
  intros Hkey Htrack Hrecord. revert Htrack.
  unfold RedisAdapter.track, RedisAdapter.simpleCounter.
  cbn [RedisAdapter.so_type]. change (String.eqb "simple" "simple") with true.
  cbv iota zeta. unfold RedisAdapter.trackScript.
  change (String.eqb "simple" "simple") with true. cbv iota zeta.
  destruct (_ && _ && _ && _).
  - intros Htrack. injection Htrack as <- <-. discriminate.
  - intros Htrack. injection Htrack as <- <-.
    cbn [record] in Hrecord. injection Hrecord as <-.
    unfold RedisAdapter.get. cbn [RedisAdapter.hashes]. rewrite lookup_insert_eq.
    cbn [mbind option_bind]. unfold RedisAdapter._deserialize.
    cbn [RedisAdapter.h_key].
    assert (Hnonempty : String.eqb k "" = false)
      by (apply String.eqb_neq; exact Hkey).
    rewrite Hnonempty. eexists. split; [reflexivity|].
    cbn [key category id details detailsHash count expiresAt scheduledSendAt
         config strategyData deferred outcome
         RedisAdapter.h_category RedisAdapter.h_id RedisAdapter.h_details
         RedisAdapter.h_detailsHash RedisAdapter.h_count
         RedisAdapter.h_expiresAt RedisAdapter.h_scheduledSendAt
         RedisAdapter.h_config RedisAdapter.h_strategyData
         RedisAdapter.h_deferred].
    split; [repeat split|].
    split; [intros Hfalsy; unfold RedisAdapter.storedDetails;
            rewrite Hfalsy; reflexivity|].
    split; [intros Htruthy Hcopy; unfold RedisAdapter.storedDetails;
            rewrite Htruthy, Hcopy; reflexivity|].
    do 5 (split; [reflexivity|]).
    unfold RedisAdapter.simpleArm.
    match goal with
    | |- context [if ?d then _ else _] => destruct d eqn:Hdeferred
    end.
    + cbn. split; [intros H; contradiction | auto].
    + destruct (Num.gt _ _); cbn; split; try reflexivity; discriminate.
Qed.

Lemma redis_get_after_track_witness :
  exists stored,
    RedisAdapter.get
      (snd (RedisAdapter.track RedisAdapter.simpleCounter
              (Example.redisStore
                 (Example.activeHash "" true RedisAdapter.emptyData
                    Example.simpleBlob))
              1000 "auth:login_fail" Example.eventWithNull
              Example.trackerConfig))
      "auth:login_fail" = Some stored
    /\ details stored = JsObject JsNoProps
    /\ deferred stored = true.
Proof.
  assert (Hkey : "auth:login_fail" <> "") by discriminate.
  destruct (redis_get_after_track
              (Example.redisStore
                 (Example.activeHash "" true RedisAdapter.emptyData
                    Example.simpleBlob))
              _ 1000 "auth:login_fail" Example.eventWithNull
              Example.trackerConfig _ _ Hkey eq_refl eq_refl)
    as (stored & Hget & _ & Hfalsy & _ & _ & _ & _ & _ & _ & _ & Hignored).
  exists stored. split; [exact Hget|].
  split; [exact (Hfalsy eq_refl) | exact (proj1 (Hignored eq_refl))].
Defined.

(** ** Whose limit counts *)

Lemma tokenBucketArm_config (isNew : bool) (h : RedisAdapter.Hash)
    (blob : RedisAdapter.ConfigBlob) (now count p1 p2 : num) :
  RedisAdapter.tokenBucketArm isNew (Some (RedisAdapter.with_h_config blob h))
    now count p1 p2
  = RedisAdapter.tokenBucketArm isNew (Some h) now count p1 p2.
Proof. reflexivity. Qed.

Lemma slidingWindowArm_config (isNew : bool) (h : RedisAdapter.Hash)
    (blob : RedisAdapter.ConfigBlob) (now count sched p1 p2 p3 : num) :
  RedisAdapter.slidingWindowArm isNew
    (Some (RedisAdapter.with_h_config blob h)) now count sched p1 p2 p3
  = RedisAdapter.slidingWindowArm isNew (Some h) now count sched p1 p2 p3.
Proof. reflexivity. Qed.

(** X25.  Whose limit counts.  On Redis the [track] script never reads
    the config stored in the hash: with that field overwritten, the script
    gives the same outcome, count, schedule, expiry and strategy state for
    the same call, for every strategy; it decides by the parameters the
    adapter passes in.  In memory the simple counter does the opposite on
    an existing record: its outcome is the same under any two tracker
    configurations, because it reads the limit of the record's own
    config. *)
Theorem stored_config_is_read_in_memory_but_not_on_redis
    (st : RedisAdapter.State) (recordKey : string) (h : RedisAdapter.Hash)
    (blob : RedisAdapter.ConfigBlob)
    (k category id : string) (details : JsValue) (detailsHash : string)
    (now expireTime maxKeys : num) (strategyType : string)
    (p1 p2 p3 : num) (initialConfig : RedisAdapter.ConfigBlob) :
  RedisAdapter.hashes st !! recordKey = Some h ->
  match fst (RedisAdapter.trackScript st recordKey k category id details
               detailsHash now expireTime maxKeys strategyType p1 p2 p3
               initialConfig),
        fst (RedisAdapter.trackScript
               {| RedisAdapter.hashes :=
                    <[recordKey := RedisAdapter.with_h_config blob h]>
                      (RedisAdapter.hashes st);
                  RedisAdapter.expireAt := RedisAdapter.expireAt st;
                  RedisAdapter.sizeCounter := RedisAdapter.sizeCounter st;
                  RedisAdapter.deferredSet := RedisAdapter.deferredSet st |}
               recordKey k category id details detailsHash now expireTime
               maxKeys strategyType p1 p2 p3 initialConfig) with
  | RedisAdapter.ReplyTracked o c s e _ d,
    RedisAdapter.ReplyTracked o' c' s' e' _ d' =>
      o = o' /\ c = c' /\ s = s' /\ e = e' /\ d = d'
  | RedisAdapter.ReplyError, RedisAdapter.ReplyError => True
  | _, _ => False
  end
  /\ forall (tracker tracker' : TrackerConfig) (eventData : StrategyEvent)
            (r : EventRecord SimpleCounterStrategy.Config unit),
       fst (SimpleCounterStrategy.track tracker now (Some r) eventData)
       = fst (SimpleCounterStrategy.track tracker' now (Some r) eventData).
Proof.
  intros Hstored. split.
  - unfold RedisAdapter.trackScript, RedisAdapter.exists_.
    cbn [RedisAdapter.hashes RedisAdapter.sizeCounter].
    rewrite Hstored, lookup_insert_eq.
    cbn [RedisAdapter.with_h_config RedisAdapter.h_expiresAt
         RedisAdapter.h_detailsHash RedisAdapter.h_count
         RedisAdapter.h_deferred RedisAdapter.h_scheduledSendAt
         RedisAdapter.h_config].
    cbn [negb]. rewrite !andb_false_r.
    rewrite tokenBucketArm_config, slidingWindowArm_config.
    match goal with
    | |- context [match ?arm with Some _ => _ | None => _ end] =>
        destruct arm
    end; cbn [fst]; [repeat split | exact I].
  - intros tracker tracker' eventData r.
    unfold SimpleCounterStrategy.track, SimpleCounterStrategy.checkLimit.
    destruct (deferred r); [reflexivity|].
    cbn [count config with_count with_lastEventTime with_expiresAt].
    destruct (Num.gt _ _); reflexivity.
Qed.

Lemma stored_config_is_read_in_memory_but_not_on_redis_witness :
  match fst (RedisAdapter.trackScript
               {| RedisAdapter.hashes :=
                    <["event-tracker:auth:login_fail" :=
                        RedisAdapter.with_h_config Example.bucketBlob
                          (Example.activeHash "" false RedisAdapter.emptyData
                             Example.simpleBlob)]>
                      (RedisAdapter.hashes
                         (Example.redisStore
                            (Example.activeHash "" false RedisAdapter.emptyData
                               Example.simpleBlob)));
                  RedisAdapter.expireAt :=
                    RedisAdapter.expireAt
                      (Example.redisStore
                         (Example.activeHash "" false RedisAdapter.emptyData
                            Example.simpleBlob));
                  RedisAdapter.sizeCounter := 1;
                  RedisAdapter.deferredSet := ∅ |}
               "event-tracker:auth:login_fail" "auth:login_fail" "auth"
               "login_fail" (JsObject JsNoProps) "" 1000 200 0 "simple" 2 100
               0 Example.simpleBlob) with
  | RedisAdapter.ReplyTracked o c _ _ _ _ => o = Deferred /\ c = 3
  | _ => False
  end.
Proof.
  pose proof (proj1 (stored_config_is_read_in_memory_but_not_on_redis
                       (Example.redisStore
                          (Example.activeHash "" false RedisAdapter.emptyData
                             Example.simpleBlob))
                       "event-tracker:auth:login_fail"
                       (Example.activeHash "" false RedisAdapter.emptyData
                          Example.simpleBlob)
                       Example.bucketBlob "auth:login_fail" "auth" "login_fail"
                       (JsObject JsNoProps) "" 1000 200 0 "simple" 2 100 0
                       Example.simpleBlob eq_refl)) as Hsame.
  vm_compute in Hsame. vm_compute.
  destruct Hsame as (Ho & Hc & _). split; [symmetry; exact Ho|].
  symmetry. exact Hc.
Defined.

(** ** The token bucket and the sliding window on both adapters *)

(** X26.  Token bucket, strategy against script.  On an existing record
    and a live hash that hold the same count, tokens and refill time, with
    the strategy's bucket size and a refill rate other than zero, the
    strategy and the token-bucket arm of the script decide alike: same
    outcome, count, deferred flag, tokens, refill time and schedule (a
    cleared schedule is [null] on one side and 0 on the other).  On a new
    identity they part ways below one token: the strategy admits the first
    event always, the script only if [bucketSize >= 1]. *)
Theorem token_bucket_strategy_against_script (bucketSize refillRate : num)
    (tracker : TrackerConfig) (now : num) (eventData : StrategyEvent)
    (r : EventRecord TokenBucketStrategy.Config TokenBucketStrategy.Data)
    (h : RedisAdapter.Hash) (sd : RedisAdapter.ScriptData) :
  ~ refillRate == 0 ->
  TokenBucketStrategy.bucketSize (config r) = bucketSize ->
  TokenBucketStrategy.refillRate (config r) = refillRate ->
  RedisAdapter.h_count h = count r ->
  RedisAdapter.h_strategyData h = Some sd ->
  RedisAdapter.sd_tokens sd
  = Some (TokenBucketStrategy.tokens (strategyData r)) ->
  RedisAdapter.sd_lastRefill sd
  = Some (TokenBucketStrategy.lastRefill (strategyData r)) ->
  (exists a,
      RedisAdapter.tokenBucketArm false (Some h) now (RedisAdapter.h_count h)
        bucketSize refillRate = Some a
      /\ RedisAdapter.a_outcome a
         = fst (TokenBucketStrategy.track bucketSize refillRate tracker now
                  (Some r) eventData)
      /\ RedisAdapter.a_count a
         = count (snd (TokenBucketStrategy.track bucketSize refillRate tracker
                         now (Some r) eventData))
      /\ RedisAdapter.a_deferred a
         = deferred (snd (TokenBucketStrategy.track bucketSize refillRate
                            tracker now (Some r) eventData))
      /\ RedisAdapter.sd_tokens (RedisAdapter.a_strategyData a)
         = Some (TokenBucketStrategy.tokens
                   (strategyData
                      (snd (TokenBucketStrategy.track bucketSize refillRate
                              tracker now (Some r) eventData))))
      /\ RedisAdapter.sd_lastRefill (RedisAdapter.a_strategyData a)
         = Some (TokenBucketStrategy.lastRefill
                   (strategyData
                      (snd (TokenBucketStrategy.track bucketSize refillRate
                              tracker now (Some r) eventData))))
      /\ scheduledSendAt
           (snd (TokenBucketStrategy.track bucketSize refillRate tracker now
                   (Some r) eventData))
         = match RedisAdapter.a_outcome a with
           | Deferred => Some (RedisAdapter.a_scheduledSendAt a)
           | _ => None
           end
      /\ (RedisAdapter.a_outcome a = Immediate ->
          RedisAdapter.a_scheduledSendAt a = 0))
  /\ fst (TokenBucketStrategy.track bucketSize refillRate tracker now None
            eventData) = Immediate
  /\ (forall existing,
        RedisAdapter.a_outcome
          <$> RedisAdapter.tokenBucketArm true existing now 0 bucketSize
                refillRate
        = Some (if Num.ge bucketSize 1 then Immediate else Deferred)).
Proof.
  intros _ Hsize Hrate Hcount Hdata Htokens Hrefill.
  split; [| split].
  - unfold RedisAdapter.tokenBucketArm, TokenBucketStrategy.track.
    cbv zeta. rewrite Hdata, Htokens, Hrefill, Hcount.
    unfold TokenBucketStrategy.refill, RedisAdapter.refill,
      TokenBucketStrategy.MS_PER_SECOND,
      TokenBucketStrategy.MIN_RETRY_DELAY_MS.
    cbv zeta. rewrite Hsize, Hrate.
    destruct (Num.ge _ 1); eexists; (split; [reflexivity|]); cbn;
      repeat split; try reflexivity; discriminate.
  - reflexivity.
  - intros existing. unfold RedisAdapter.tokenBucketArm.
    destruct existing as [h0|]; cbn [negb];
      destruct (Num.ge bucketSize 1); reflexivity.
Qed.

Lemma token_bucket_strategy_against_script_witness :
  exists a,
    RedisAdapter.tokenBucketArm false
      (Some (Example.activeHash "" false (Example.bucketData 3)
               Example.bucketBlob))
      1000 2 5 10 = Some a
    /\ RedisAdapter.a_outcome a
       = fst (TokenBucketStrategy.track 5 10 Example.trackerConfig 1000
                (Some (Example.bucketRecord 3 false)) Example.strategyEvent).
Proof.
  assert (Hrate : ~ 10 == 0) by (intros H; discriminate H).
  destruct (proj1 (token_bucket_strategy_against_script 5 10
                     Example.trackerConfig 1000 Example.strategyEvent
                     (Example.bucketRecord 3 false)
                     (Example.activeHash "" false (Example.bucketData 3)
                        Example.bucketBlob)
                     (Example.bucketData 3)
                     Hrate eq_refl eq_refl eq_refl eq_refl eq_refl eq_refl))
    as (a & Harm & Hout & _).
  exists a. split; [exact Harm | exact Hout].
Defined.

(** JavaScript's [%] and Lua's [%] agree on a non-negative dividend and a
    positive divisor. *)
Lemma rem_luaMod (a b : num) :
  0 <= a -> 0 < b -> Num.rem a b = RedisAdapter.luaMod a b.
Proof.
  intros Ha Hb. unfold Num.rem, RedisAdapter.luaMod, Num.sub, Num.floor.
  apply Qred_complete.
  assert (Hquot : 0 <= a / b).
  { apply Qle_shift_div_l; [exact Hb|]. rewrite Qmult_0_l. exact Ha. }
  rewrite (trunc_nonneg _ Hquot), !mul_spec. ring.
Qed.

Lemma mul_zero_l (w : num) : Num.mul 0 w = 0.
Proof.
  unfold Num.mul. change 0 with (Qred 0) at 2. apply Qred_complete. ring.
Qed.

(** X27.  Sliding window, strategy against script.  On an existing record
    and a live hash that hold the same count and window state, with the
    strategy's limit, a positive window size and the tracker's defer
    interval, the strategy and the sliding-window arm of the script decide
    alike: same outcome, count, deferred flag, window state and schedule.
    On a new identity they part ways at [limit <= 0]: the strategy admits
    the first event always, the script only if [0 < limit]. *)
Theorem sliding_window_strategy_against_script (limit windowSize : num)
    (tracker : TrackerConfig) (now : num) (eventData : StrategyEvent)
    (r : EventRecord SlidingWindowStrategy.Config SlidingWindowStrategy.Data)
    (h : RedisAdapter.Hash) (sd : RedisAdapter.ScriptData) :
  0 < windowSize ->
  SlidingWindowStrategy.limit (config r) = limit ->
  SlidingWindowStrategy.windowSize (config r) = windowSize ->
  RedisAdapter.h_count h = count r ->
  RedisAdapter.h_strategyData h = Some sd ->
  RedisAdapter.sd_currentCount sd
  = Some (SlidingWindowStrategy.currentCount (strategyData r)) ->
  RedisAdapter.sd_previousCount sd
  = Some (SlidingWindowStrategy.previousCount (strategyData r)) ->
  RedisAdapter.sd_windowStart sd
  = Some (SlidingWindowStrategy.windowStart (strategyData r)) ->
  (let a := RedisAdapter.slidingWindowArm false (Some h) now
              (RedisAdapter.h_count h) (RedisAdapter.h_scheduledSendAt h)
              limit windowSize
              (SlidingWindowStrategy.deferInterval (config r)) in
   let sr := SlidingWindowStrategy.track limit windowSize tracker now (Some r)
               eventData in
   RedisAdapter.a_outcome a = fst sr
   /\ RedisAdapter.a_count a = count (snd sr)
   /\ RedisAdapter.a_deferred a = deferred (snd sr)
   /\ RedisAdapter.sd_currentCount (RedisAdapter.a_strategyData a)
      = Some (SlidingWindowStrategy.currentCount (strategyData (snd sr)))
   /\ RedisAdapter.sd_previousCount (RedisAdapter.a_strategyData a)
      = Some (SlidingWindowStrategy.previousCount (strategyData (snd sr)))
   /\ RedisAdapter.sd_windowStart (RedisAdapter.a_strategyData a)
      = Some (SlidingWindowStrategy.windowStart (strategyData (snd sr)))
   /\ scheduledSendAt (snd sr)
      = match RedisAdapter.a_outcome a with
        | Deferred => Some (RedisAdapter.a_scheduledSendAt a)
        | _ => None
        end)
  /\ fst (SlidingWindowStrategy.track limit windowSize tracker now None
            eventData) = Immediate
  /\ (forall existing count scheduledSendAt deferInterval,
        RedisAdapter.a_outcome
          (RedisAdapter.slidingWindowArm true existing now count
             scheduledSendAt limit windowSize deferInterval)
        = if Num.lt 0 limit then Immediate else Deferred).
Proof.
  intros Hw Hlimit Hsize Hcount Hdata Hcc Hpc Hws.
  split; [| split].
  - cbv zeta.
    unfold RedisAdapter.slidingWindowArm, SlidingWindowStrategy.track,
      SlidingWindowStrategy.slide, SlidingWindowStrategy.estimate,
      SlidingWindowStrategy.SLIDE_THRESHOLD_MULTIPLIER.
    cbv zeta. rewrite Hdata, Hcc, Hpc, Hws, Hcount, Hlimit, Hsize.
    cbn [default from_option]. cbv beta delta [Datatypes.id].
    destruct (Num.ge (Num.sub now (SlidingWindowStrategy.windowStart
                                     (strategyData r))) windowSize) eqn:Hslid.
    + assert (Hrem : Num.rem (Num.sub now (SlidingWindowStrategy.windowStart
                                             (strategyData r))) windowSize
                     = RedisAdapter.luaMod
                         (Num.sub now (SlidingWindowStrategy.windowStart
                                         (strategyData r))) windowSize).
      { apply rem_luaMod; [|exact Hw]. apply ge_true_iff in Hslid.
        apply Qle_trans with (y := windowSize);
          [apply Qlt_le_weak; exact Hw | exact Hslid]. }
      rewrite Hrem. cbv beta iota.
      cbn [SlidingWindowStrategy.currentCount
           SlidingWindowStrategy.previousCount
           SlidingWindowStrategy.windowStart].
      destruct (Num.lt _ limit); cbn; repeat split; reflexivity.
    + cbv beta iota. destruct (Num.lt _ limit); cbn; repeat split; reflexivity.
  - reflexivity.
  - intros existing count scheduledSendAt deferInterval.
    unfold RedisAdapter.slidingWindowArm. cbv zeta.
    assert (Hnew : (match existing with
                    | Some h0 => if true then None else RedisAdapter.h_strategyData h0
                    | None => None
                    end) = @None RedisAdapter.ScriptData)
      by (destruct existing; reflexivity).
    rewrite Hnew.
    assert (Hnoslide : Num.ge (Num.sub now now) windowSize = false).
    { apply ge_false_iff. rewrite sub_spec.
      apply Qle_lt_trans with (y := 0); [|exact Hw].
      assert (E : now - now == 0) by ring. rewrite E. apply Qle_refl. }
    rewrite Hnoslide, mul_zero_l.
    change (Num.add 0 0) with 0.
    destruct (Num.lt 0 limit); reflexivity.
Qed.

Lemma sliding_window_strategy_against_script_witness :
  RedisAdapter.a_outcome
    (RedisAdapter.slidingWindowArm false
       (Some (Example.activeHash "" false
                {| RedisAdapter.sd_tokens := None;
                   RedisAdapter.sd_lastRefill := None;
                   RedisAdapter.sd_currentCount := Some 3;
                   RedisAdapter.sd_previousCount := Some 0;
                   RedisAdapter.sd_windowStart := Some 0 |}
                Example.simpleBlob))
       2500 2 0 10 1000 500)
  = fst (SlidingWindowStrategy.track 10 1000 Example.slidingConfig 2500
           (Some (with_count 2 Example.slidingActiveRecord))
           Example.strategyEvent).
Proof.
  refine (proj1 (proj1 (sliding_window_strategy_against_script 10 1000
                          Example.slidingConfig 2500 Example.strategyEvent
                          (with_count 2 Example.slidingActiveRecord)
                          (Example.activeHash "" false
                             {| RedisAdapter.sd_tokens := None;
                                RedisAdapter.sd_lastRefill := None;
                                RedisAdapter.sd_currentCount := Some 3;
                                RedisAdapter.sd_previousCount := Some 0;
                                RedisAdapter.sd_windowStart := Some 0 |}
                             Example.simpleBlob)
                          _ _ eq_refl eq_refl eq_refl eq_refl eq_refl eq_refl
                          eq_refl))).
  reflexivity.
Defined.

(** ** Identities that share a composite key *)

Lemma append_assoc (a b c : string) : (a ++ b) ++ c = a ++ (b ++ c).
Proof.
  induction a as [| ch a IH]; [reflexivity|].
  change (String ch ((a ++ b) ++ c) = String ch (a ++ (b ++ c))).
  rewrite IH. reflexivity.
Qed.

Lemma composite_assoc (c x i : string) :
  (c ++ ":" ++ x) ++ ":" ++ i = c ++ ":" ++ (x ++ ":" ++ i).
Proof. rewrite !append_assoc. reflexivity. Qed.

Lemma append_nonempty (c rest : string) : c <> "" -> c ++ rest <> "".
Proof. destruct c; [contradiction | discriminate]. Qed.

(** X28.  The composite key is the digest of [category:id], so the
    identities [(c:x, i)] and [(c, x:i)] have the same key, whatever the
    digest.  With the simple counter on the in-memory adapter, an event of
    the second identity therefore lands on the live record of the first:
    it is counted there (or ignored if that record is deferred), and the
    record returned and stored keeps the category and id of the first
    identity. *)
Theorem colon_in_identity_shares_the_record (P : EventTracker.Platform)
    (trackerConfig : TrackerConfig)
    (st : InMemoryAdapter.State SimpleCounterStrategy.Config unit)
    (nowA nowS : num) (c x i : string) (d : JsValue) (k : string)
    (r : EventRecord SimpleCounterStrategy.Config unit) :
  c <> "" -> i <> "" ->
  EventTracker.generateCompositeKey P (JsString (c ++ ":" ++ x)) (JsString i)
  = inr k ->
  InMemoryAdapter.get st k = Some r ->
  nowA <= expiresAt r ->
  detailsHash r = EventTracker.generateDetailsHash P d ->
  EventTracker.generateCompositeKey P (JsString c) (JsString (x ++ ":" ++ i))
  = inr k
  /\ exists result emitted r',
       InMemoryTracker.trackEvent P SimpleCounterStrategy.strategy trackerConfig
         st
         nowA nowS (JsString c) (JsString (x ++ ":" ++ i)) d
       = inr (result, emitted, InMemoryAdapter.set st k r')
       /\ EventTracker.data result = Some r'
       /\ category r' = category r /\ id r' = id r
       /\ (deferred r = false ->
           EventTracker.type result <> Ignored /\ count r' == count r + 1)
       /\ (deferred r = true -> EventTracker.type result = Ignored).
Proof.
  intros Hc Hi Hkey Hstored Hlive Hhash.
  assert (Hcx : c ++ ":" ++ x <> "") by (apply append_nonempty; exact Hc).
  assert (Hxi : x ++ ":" ++ i <> "").
  { destruct x; [discriminate | discriminate]. }
  rewrite (generateCompositeKey_ok P _ i Hcx Hi) in Hkey.
  injection Hkey as Hk. rewrite composite_assoc in Hk.
  split; [rewrite (generateCompositeKey_ok P c _ Hc Hxi), Hk; reflexivity|].
  unfold InMemoryAdapter.get in Hstored. rewrite <- Hk in Hstored.
  destruct (trackEvent_on_live_record P SimpleCounterStrategy.strategy
              trackerConfig
              st nowA nowS c (x ++ ":" ++ i) d r _ Hc Hxi Hstored Hlive Hhash
              eq_refl) as (emitted & Hrun).
  rewrite Hk in Hrun.
  eexists. exists emitted. eexists. split; [exact Hrun|].
  cbn [EventTracker.data EventTracker.type].
  cbn [track SimpleCounterStrategy.strategy].
  unfold SimpleCounterStrategy.track, SimpleCounterStrategy.checkLimit.
  destruct (deferred r) eqn:Hd.
  - cbn. repeat split; try reflexivity; discriminate.
  - cbn [count config with_count with_lastEventTime with_expiresAt].
    destruct (Num.gt _ _); cbn; repeat split; try reflexivity;
      try discriminate; try (rewrite add_spec; reflexivity).
Qed.

Lemma colon_in_identity_shares_the_record_witness :
  EventTracker.generateCompositeKey Example.platform (JsString "auth")
    (JsString "login:fail")
  = inr "auth:login:fail".
Proof.
  refine (proj1 (colon_in_identity_shares_the_record Example.platform
                   Example.trackerConfig
                   (InMemoryAdapter.set InMemoryAdapter.empty "auth:login:fail"
                      (Example.activeRecord ""))
                   1000 1000 "auth" "login" "fail" JsUndefined
                   "auth:login:fail" (Example.activeRecord "") _ _ _ _ _ _)).
  - discriminate.
  - discriminate.
  - reflexivity.
  - reflexivity.
  - unfold Qle. simpl. lia.
  - reflexivity.
Defined.

(** ** The processor that keeps failing *)

Lemma lastAttempt_le (q : Q) : 0 <= q -> Num.of_nat (Run.lastAttempt q) <= q.
Proof.
  intros Hq. unfold Run.lastAttempt, Num.of_nat.
  assert (Hfloor : (0 <= Qfloor q)%Z)
    by (change 0%Z with (Qfloor 0); apply Qfloor_resp_le; exact Hq).
  rewrite Z2Nat.id by exact Hfloor. apply Qfloor_le.
Qed.

Lemma lastAttempt_lt (q : Q) : 0 <= q -> q < Num.of_nat (S (Run.lastAttempt q)).
Proof.
  intros Hq. unfold Run.lastAttempt, Num.of_nat.
  assert (Hfloor : (0 <= Qfloor q)%Z)
    by (change 0%Z with (Qfloor 0); apply Qfloor_resp_le; exact Hq).
  rewrite Nat2Z.inj_succ, Z2Nat.id by exact Hfloor.
  rewrite <- Z.add_1_r. apply Qlt_floor.
Qed.

Lemma lastAttempt_whole (q : Q) (m : nat) :
  q == Num.of_nat m -> Run.lastAttempt q = m.
Proof.
  intros Hq. unfold Run.lastAttempt. rewrite (Qfloor_comp _ _ Hq).
  unfold Num.of_nat. rewrite Qfloor_Z. apply Nat2Z.id.
Qed.

Section ProcessorFailure.
Context {C D : Type}.
Variable processor : EventTracker.Processor C D.
Variable q : Q.
Variable retryDelay : JsNumber.
Variable batch : list (EventRecord C D).
Variable errors : nat -> EventTracker.Raised.

Hypothesis some_retries : 0 <= q.
Hypothesis always_fails :
  forall attempt, (attempt <= Run.lastAttempt q)%nat ->
                  processor attempt batch = Some (errors attempt).

Lemma retryLoop_all_fail (pending : nat) :
  forall (attempt fuel : nat) (lastError : EventTracker.Raised),
    (attempt + pending = Run.lastAttempt q)%nat ->
    (pending + 1 < fuel)%nat ->
    EventTracker.retryLoop processor (JsFinite q) retryDelay batch fuel
      attempt lastError
    = ((flat_map (Run.failedAttempt (JsFinite q) retryDelay batch)
          (seq attempt pending)
        ++ EventTracker.Invoke (Run.lastAttempt q) batch
           :: (if Qle_bool q (Num.of_nat (Run.lastAttempt q)) then []
               else Run.backoff (JsFinite q) retryDelay batch
                      (Run.lastAttempt q)))%list,
       EventTracker.Exhausted (errors (Run.lastAttempt q))).
Proof.
  induction pending as [| pending IH]; intros attempt fuel lastError
    Hpending Hfuel; (destruct fuel as [| fuel]; [lia|]).
  - assert (attempt = Run.lastAttempt q) by lia. subst attempt.
    destruct fuel as [| fuel]; [lia|].
    rewrite retryLoop_step.
    assert (Hin : JsNumberOps.atLeast (Num.of_nat (Run.lastAttempt q))
                    (JsFinite q) = true)
      by (apply Qle_bool_iff, lastAttempt_le, some_retries).
    rewrite Hin, (always_fails _ (Nat.le_refl _)).
    rewrite retryLoop_step.
    assert (Hout : JsNumberOps.atLeast
                     (Num.of_nat (Run.lastAttempt q + 1)) (JsFinite q) = false).
    { cbn. destruct (Qle_bool _ q) eqn:Hle; [|reflexivity].
      apply Qle_bool_iff in Hle. rewrite Nat.add_1_r in Hle.
      exfalso. apply (Qlt_not_le _ _ (lastAttempt_lt q some_retries)).
      exact Hle. }
    rewrite Hout. cbn [fst snd JsNumberOps.above flat_map seq app].
    destruct (Qle_bool q (Num.of_nat (Run.lastAttempt q)));
      cbn [negb]; rewrite List.app_nil_r; reflexivity.
  - assert (Hin : JsNumberOps.atLeast (Num.of_nat (Run.lastAttempt q))
                    (JsFinite q) = true)
      by (apply Qle_bool_iff, lastAttempt_le, some_retries).
    rewrite retryLoop_step.
    rewrite (atLeast_mono (JsFinite q) attempt (Run.lastAttempt q))
      by (lia || exact Hin).
    rewrite (always_fails attempt) by lia.
    rewrite (above_before (JsFinite q) attempt (Run.lastAttempt q))
      by (lia || exact Hin).
    rewrite (IH (attempt + 1)%nat fuel) by lia.
    cbn [fst snd].
    change (seq attempt (S pending)) with (attempt :: seq (S attempt) pending).
    rewrite <- (Nat.add_1_r attempt). reflexivity.
Qed.

Lemma failedAttempts_invocations :
  Run.invocationCount (Run.failedAttempts (JsFinite q) retryDelay batch q)
  = (Run.lastAttempt q + 1)%nat.
Proof.
  unfold Run.failedAttempts.
  destruct (retried_attempts_counts (JsFinite q) retryDelay batch
              (seq 0 (Run.lastAttempt q))) as (_ & Hi & _).
  rewrite invocationCount_app, Hi, List.length_seq.
  destruct (Qle_bool q (Num.of_nat (Run.lastAttempt q))); reflexivity.
Qed.
End ProcessorFailure.

Lemma failedAttempts_whole {C D : Type} (q : Q) (retryDelay : JsNumber)
    (batch : list (EventRecord C D)) (m : nat) :
  q == Num.of_nat m ->
  Run.failedAttempts (JsFinite q) retryDelay batch q
  = (flat_map (Run.failedAttempt (JsFinite q) retryDelay batch) (seq 0 m)
     ++ [EventTracker.Invoke m batch])%list.
Proof.
  intros Hq. unfold Run.failedAttempts.
  rewrite (lastAttempt_whole q m Hq).
  assert (Hle : Qle_bool q (Num.of_nat m) = true)
    by (apply Qle_bool_iff; rewrite Hq; apply Qle_refl).
  rewrite Hle. reflexivity.
Qed.


